(** * mk_combined_img: a shallow embedding of tools/mk_combined_img.py

    The script parses a partition manifest, copies every partition image
    into one output image with [dd], and writes a GPT with [sgdisk].  The
    Python functions are embedded as Rocq functions over an explicit model
    of what they touch: the file system, the process environment, the
    external programs they start and the file descriptors they hold. *)

From Stdlib Require Import ZArith NArith List String Ascii Lia.
From Stdlib Require Import DecimalString DecimalZ DecimalPos.
From Stdlib.Strings Require Import Byte.
From stdpp Require Import gmap strings list sorting.

Local Open Scope Z_scope.

(* ===================================================================== *)
(** * Part I: the model *)
(* ===================================================================== *)

(** ** Exceptions and results *)

(** What a run can end with besides returning.  The [sys.exit] calls of the
    script are kept apart by their message; [exit_message] renders it.
    [OSError] is the error of [os.close] on a descriptor that is not open. *)
Inductive exn : Type :=
  | SystemExit0
  | InvalidConfigFile (name : string)
  | InvalidNumberFormat (tok : string)
  | PartitionNumberOutOfRange (num total : Z)
  | DuplicatePartitionNumber (num : Z)
  | CalledProcessError (argv : list string)
  | FileNotFoundError (name : string)
  | FileExistsError
  | ValueError
  | KeyError (key : string)
  | IndexError
  | OSError.

Inductive result (A : Type) : Type :=
  | Ok (a : A)
  | Err (e : exn).
Arguments Ok {A} a.
Arguments Err {A} e.

Definition rbind {A B} (r : result A) (k : A -> result B) : result B :=
  match r with
  | Ok a => k a
  | Err e => Err e
  end.

(** ** Python built-ins on strings and integers *)

(** [str(n)] for an integer. *)
Definition py_str (n : Z) : string := NilEmpty.string_of_int (Z.to_int n).

(** The value of a character as a digit in [base], as [int(s, base)] reads
    it: [0-9], then letters of either case for ten and up. *)
Definition digit_of (base : Z) (c : ascii) : option Z :=
  let n := Z.of_N (N_of_ascii c) in
  let v := if (48 <=? n) && (n <=? 57) then Some (n - 48)
           else if (97 <=? n) && (n <=? 122) then Some (n - 87)
           else if (65 <=? n) && (n <=? 90) then Some (n - 55)
           else None in
  match v with
  | Some d => if d <? base then Some d else None
  | None => None
  end.

(** Digits with single underscores between them; [prev] tells whether an
    underscore may come next. *)
Fixpoint digits_loop (base acc : Z) (prev : bool) (s : string) : option Z :=
  match s with
  | EmptyString => if prev then Some acc else None
  | String c s' =>
      if Ascii.eqb c "_"
      then (if prev then digits_loop base acc false s' else None)
      else match digit_of base c with
           | Some d => digits_loop base (base * acc + d) true s'
           | None => None
           end
  end.

(** The digits of [int(s, base)] after the sign: for base 16 an optional
    [0x] prefix, then digits. *)
Definition py_int_mag (base : Z) (body : string) : option Z :=
  match body with
  | String "0" (String x r) =>
      if (base =? 16) && (Ascii.eqb x "x" || Ascii.eqb x "X")
      then match r with
           | EmptyString => None
           | _ => digits_loop base 0 true r
           end
      else digits_loop base 0 false body
  | _ => digits_loop base 0 false body
  end.

(** [int(s, base)] on a string without surrounding white space (the script
    only passes [split()] tokens and hexadecimal digit strings): optional
    sign, then [py_int_mag].  [None] is [ValueError].  Digits are the
    ASCII ones; the limit recent interpreters put on the length of a
    decimal string (4300 digits by default) is not modelled. *)
Definition py_int (base : Z) (s : string) : option Z :=
  match s with
  | String "-" r => option_map Z.opp (py_int_mag base r)
  | String "+" r => py_int_mag base r
  | _ => py_int_mag base s
  end.

(** [str.isspace] on one ASCII character: tab, line feed, vertical tab,
    form feed, carriage return, the four separators 0x1c-0x1f, space. *)
Definition py_isspace (c : ascii) : bool :=
  let n := N_of_ascii c in
  ((9 <=? n) && (n <=? 13) || (28 <=? n) && (n <=? 32))%N.

Fixpoint lstrip (s : string) : string :=
  match s with
  | EmptyString => EmptyString
  | String c s' => if py_isspace c then lstrip s' else s
  end.

(** [s.strip()] *)
Definition strip (s : string) : string :=
  String.rev (lstrip (String.rev (lstrip s))).

(** [s.split()]: the maximal runs of non-space characters; [tok] is the run
    being read. *)
Fixpoint split_loop (tok s : string) : list string :=
  match s with
  | EmptyString => match tok with EmptyString => [] | _ => [tok] end
  | String c s' =>
      if py_isspace c
      then match tok with
           | EmptyString => split_loop EmptyString s'
           | _ => tok :: split_loop EmptyString s'
           end
      else split_loop (tok +:+ String c EmptyString) s'
  end.

Definition split (s : string) : list string := split_loop EmptyString s.

(** [codecs.encode(bs, 'hex')]: two lower-case digits per byte. *)
Definition hex_digit (n : N) : ascii :=
  if (n <? 10)%N then ascii_of_N (48 + n) else ascii_of_N (87 + n).

Definition hex_of_byte (b : byte) : string :=
  String (hex_digit (to_N b / 16)) (String (hex_digit (to_N b mod 16)) EmptyString).

Fixpoint hex_encode (bs : list byte) : string :=
  match bs with
  | [] => EmptyString
  | b :: bs' => hex_of_byte b +:+ hex_encode bs'
  end.

(** ** Files *)

(** A file is its size and its bytes; [fdata] is read below [fsize] only. *)
Record file : Type := File { fsize : N; fdata : N -> byte }.

(** [f.read(n)] from the start of a file opened in binary mode. *)
Definition read (n : N) (f : file) : list byte :=
  map (fun i => fdata f (N.of_nat i)) (seq 0 (N.to_nat (N.min n (fsize f)))).

Definition getsize (fs : gmap string file) (name : string) : result Z :=
  match fs !! name with
  | Some f => Ok (Z.of_N (fsize f))
  | None => Err (FileNotFoundError name)
  end.

Definition exists_ (fs : gmap string file) (name : string) : bool :=
  match fs !! name with Some _ => true | None => false end.

(** ** check_sparse *)

Definition magic : Z := 3978755898.

Definition check_sparse (fs : gmap string file) (filename : string) : result bool :=
  match fs !! filename with
  | None => Err (FileNotFoundError filename)
  | Some i =>
      let word := read 4 i in
      match py_int 16 (hex_encode (rev word)) with
      | None => Err ValueError
      | Some v => Ok (magic =? v)
      end
  end.

(** ** os.path.expandvars *)

(** A character of the regular expression class [\w] under [re.ASCII]. *)
Definition is_word (c : ascii) : bool :=
  let n := N_of_ascii c in
  ((48 <=? n) && (n <=? 57) || (65 <=? n) && (n <=? 90)
   || (97 <=? n) && (n <=? 122) || (n =? 95))%N.

Fixpoint has_close (s : string) : bool :=
  match s with
  | EmptyString => false
  | String c s' => Ascii.eqb c "}" || has_close s'
  end.

(** Where the scan of [posixpath.expandvars] stands: in plain text, just
    after a dollar, inside a [$name], inside a [${name}]. *)
Inductive xstate : Type :=
  | XPlain
  | XDollar
  | XWord (name : string)
  | XBrace (name : string).

Definition subst_word (environ : gmap string string) (name : string) : string :=
  match environ !! name with
  | Some v => v
  | None => String "$" name
  end.

Definition subst_brace (environ : gmap string string) (name : string) : string :=
  match environ !! name with
  | Some v => v
  | None => String "$" (String "{" (name +:+ "}"))
  end.

(** The pattern is [\$(\w+|\{[^}]*\})]; a reference to a variable that is
    not set stays as it is, and an inserted value is not scanned again. *)
Fixpoint expand_scan (environ : gmap string string) (st : xstate) (s : string) : string :=
  match s with
  | EmptyString =>
      match st with
      | XPlain => EmptyString
      | XDollar => "$"
      | XWord name => subst_word environ name
      | XBrace name => String "$" (String "{" name)
      end
  | String c s' =>
      match st with
      | XPlain =>
          if Ascii.eqb c "$" then expand_scan environ XDollar s'
          else String c (expand_scan environ XPlain s')
      | XDollar =>
          if is_word c then expand_scan environ (XWord (String c EmptyString)) s'
          else if Ascii.eqb c "{" && has_close s' then expand_scan environ (XBrace EmptyString) s'
          else if Ascii.eqb c "$" then String "$" (expand_scan environ XDollar s')
          else String "$" (String c (expand_scan environ XPlain s'))
      | XWord name =>
          if is_word c then expand_scan environ (XWord (name +:+ String c EmptyString)) s'
          else subst_word environ name +:+
               (if Ascii.eqb c "$" then expand_scan environ XDollar s'
                else String c (expand_scan environ XPlain s'))
      | XBrace name =>
          if Ascii.eqb c "}" then subst_brace environ name +:+ expand_scan environ XPlain s'
          else expand_scan environ (XBrace (name +:+ String c EmptyString)) s'
      end
  end.

Definition expandvars (environ : gmap string string) (path : string) : string :=
  expand_scan environ XPlain path.

(** ** Partition descriptors *)

(** The dictionary [partition_info].  The keys [start], [end] and [fd] are
    added later by [main] and [unsparse_partition]; [None] is an absent
    key. *)
Record partition : Type := Partition {
  path : string;
  label : string;
  sizeByMb : string;
  num : Z;
  start : option string;
  end_ : option string;
  fd : option nat
}.

(** [math.ceil(n / 1024 / 1024)].  The script divides in floating point,
    which is exact for every size below 2^53 bytes. *)
Definition ceil_mb (n : Z) : Z := (n + 1048575) / 1048576.

(** ** parse_input *)

(** The body of the first loop for one line: [Some params] when the line
    is appended to [parsed_lines].  The inner loop
    [for param in params: param = os.path.expandvars(param)] assigns to its
    own loop variable; [expand_params] threads that variable and the list
    it iterates over. *)
Definition expand_params (environ : gmap string string) (params : list string)
  : list string * option string :=
  fold_left (fun st tok => (fst st, Some (expandvars environ tok))) params (params, None).

Definition directive (environ : gmap string string) (line : string) : option (list string) :=
  let line := strip line in
  match line with
  | EmptyString => None
  | String c _ =>
      if Ascii.eqb c "#" then None
      else
        let params := split line in
        if (length params =? 3)%nat
        then Some (fst (expand_params environ params))
        else None
  end.

Definition parsed_lines (environ : gmap string string) (lines : list string)
  : list (list string) :=
  omap (directive environ) lines.

(** The body of the second loop for one entry of [parsed_lines]; the state
    is [partitions] and [num_used].  [total] is [len(lines)]. *)
Definition add_directive (fs : gmap string file) (total : Z)
    (st : list partition * gset Z) (line : list string)
  : result (list partition * gset Z) :=
  let '(partitions, num_used) := st in
  match line with
  | line0 :: line1 :: line2 :: _ =>
      rbind (getsize fs line0) (fun size =>
      let sizeByMb := py_str (ceil_mb size) in
      match py_int 10 line2 with
      | None => Err (InvalidNumberFormat line2)
      | Some n =>
          if (n >? total) || (n <? 0) then Err (PartitionNumberOutOfRange n total)
          else if bool_decide (n ∈ num_used) then Err (DuplicatePartitionNumber n)
          else Ok (partitions ++ [Partition line0 line1 sizeByMb n None None None],
                   {[n]} ∪ num_used)
      end)
  | _ => Err IndexError
  end.

Fixpoint add_directives (fs : gmap string file) (total : Z)
    (st : list partition * gset Z) (todo : list (list string))
  : result (list partition * gset Z) :=
  match todo with
  | [] => Ok st
  | line :: rest => rbind (add_directive fs total st line) (fun st' =>
                    add_directives fs total st' rest)
  end.

Definition num_le (p q : partition) : Prop := num p <= num q.

Global Instance num_le_dec p q : Decision (num_le p q) := Z_le_dec (num p) (num q).

(** [lines] is what [input_file.readlines()] returned.  The numbers in
    [partitions] are distinct when the list is sorted, so the order of
    equal keys never matters. *)
Definition parse_input (fs : gmap string file) (environ : gmap string string)
    (lines : list string) : result (list partition) :=
  rbind (add_directives fs (Z.of_nat (length lines)) ([], ∅) (parsed_lines environ lines))
        (fun st => Ok (merge_sort num_le (fst st))).

(** [sys.exit(msg)] prints its argument; these are the script's texts. *)
Definition exit_message (e : exn) : option string :=
  match e with
  | InvalidConfigFile name => Some ("Invalid config file name " +:+ name)
  | InvalidNumberFormat tok => Some ("'" +:+ tok +:+ "' cannot be converted to int")
  | PartitionNumberOutOfRange n total =>
      Some ("Invalid partition number: " +:+ py_str n +:+ ", range [1.." +:+ py_str total +:+ "]")
  | DuplicatePartitionNumber n => Some ("Duplicated partition number: " +:+ py_str n)
  | _ => None
  end.

(** ** The machine the script runs on *)

(** The external programs.  Which program a name starts is part of the
    host: [sgdisk] and [simg2img] are looked up under names taken from the
    environment. *)
Inductive tool : Type := ToolDd | ToolRm | ToolSgdisk | ToolSimg2img.

(** What a run does not change: the environment, the programs on the
    search path, the invocations that exit non-zero for a reason outside
    this model (an I/O error, a full disk), what [simg2img] decodes a
    sparse image to ([None]: it rejects the image), and the directory of
    the script. *)
Record host : Type := Host {
  environ : gmap string string;
  programs : gmap string tool;
  faulty : list string -> bool;
  sparse_decode : file -> option file;
  script_dir : string
}.

(** What a run changes: the files, the names [mkstemp] will try next, the
    open descriptors, and two logs: every argument vector handed to
    [subprocess.run], oldest first, and every pair [mkstemp] returned. *)
Record state : Type := State {
  st_fs : gmap string file;
  st_tmp_names : list string;
  st_fds : list nat;
  st_trace : list (list string);
  st_tmp_made : list (nat * string)
}.

Definition set_fs (fs : gmap string file) (s : state) : state :=
  State fs (st_tmp_names s) (st_fds s) (st_trace s) (st_tmp_made s).

Definition log_command (argv : list string) (s : state) : state :=
  State (st_fs s) (st_tmp_names s) (st_fds s) (st_trace s ++ [argv]) (st_tmp_made s).

(** A computation that reads and writes the state and may raise; the
    state at the time of the exception is kept. *)
Definition M (A : Type) : Type := state -> result A * state.

Definition ret {A} (a : A) : M A := fun s => (Ok a, s).

Definition raise {A} (e : exn) : M A := fun s => (Err e, s).

Definition bind {A B} (m : M A) (k : A -> M B) : M B :=
  fun s => match m s with
           | (Ok a, s') => k a s'
           | (Err e, s') => (Err e, s')
           end.

Notation "'do' x <- m ; k" := (bind m (fun x => k))
  (at level 10, x name, m at level 100, k at level 200).
Notation "'do_' m ; k" := (bind m (fun _ => k))
  (at level 10, m at level 100, k at level 200).

(** A read-only look at the file system. *)
Definition with_fs {A} (f : gmap string file -> result A) : M A :=
  fun s => (f (st_fs s), s).

Fixpoint for_each {A B} (body : A -> M B) (l : list A) : M (list B) :=
  match l with
  | [] => ret []
  | a :: rest => do b <- body a; do bs <- for_each body rest; ret (b :: bs)
  end.

(** ** The external programs *)

Fixpoint strip_prefix (p s : string) : option string :=
  match p, s with
  | EmptyString, _ => Some s
  | String a p', String b s' => if Ascii.eqb a b then strip_prefix p' s' else None
  | String _ _, EmptyString => None
  end.

(** The value of the first operand [key=value]. *)
Fixpoint operand (key : string) (args : list string) : option string :=
  match args with
  | [] => None
  | a :: rest =>
      match strip_prefix (key +:+ "=") a with
      | Some v => Some v
      | None => operand key rest
      end
  end.

Definition parse_num (s : string) : option N :=
  match NilEmpty.int_of_string s with
  | Some d => let z := Z.of_int d in if z <? 0 then None else Some (Z.to_N z)
  | None => None
  end.

(** A block size: a number, with the suffix [k] for 1024. *)
Definition parse_size (s : string) : option N :=
  match String.rev s with
  | String "k" r => match parse_num (String.rev r) with
                    | Some n => Some (1024 * n)%N
                    | None => None
                    end
  | _ => parse_num s
  end.

Fixpoint split_commas (cur s : string) : list string :=
  match s with
  | EmptyString => [cur]
  | String c s' =>
      if Ascii.eqb c "," then cur :: split_commas EmptyString s'
      else split_commas (cur +:+ String c EmptyString) s'
  end.

Definition has_conv (flag : string) (args : list string) : bool :=
  match operand "conv" args with
  | Some v => bool_decide (flag ∈ split_commas EmptyString v)
  | None => false
  end.

Definition block_size (key : string) (args : list string) : option N :=
  match operand "bs" args with
  | Some v => parse_size v
  | None => match operand key args with
            | Some v => parse_size v
            | None => Some 512%N
            end
  end.

Definition opt_num (key : string) (args : list string) : option (option N) :=
  match operand key args with
  | Some v => match parse_num v with Some n => Some (Some n) | None => None end
  | None => Some None
  end.

Definition empty_file : file := File 0 (fun _ => x00).

(** What [dd] reads: its length and its bytes.  With [count=c] at most [c]
    input blocks are read; with [conv=sync] a short last block is filled
    with zeros up to [ibs].  Reading [/dev/zero] without a count never
    ends, and standard input is not modelled. *)
Definition dd_input (fs : gmap string file) (args : list string) (ibs : N)
    (count : option N) : option (N * (N -> byte)) :=
  match operand "if" args with
  | None => None
  | Some name =>
      if String.eqb name "/dev/zero"
      then match count with
           | Some c => Some ((c * ibs)%N, fun _ => x00)
           | None => None
           end
      else match fs !! name with
           | None => None
           | Some f =>
               let avail := match count with
                            | Some c => N.min (fsize f) (c * ibs)
                            | None => fsize f
                            end in
               let len := if has_conv "sync" args
                          then (((avail + ibs - 1) / ibs) * ibs)%N
                          else avail in
               Some (len, fun i => if (i <? avail)%N then fdata f i else x00)
           end
  end.

(** The block size of every copy the script asks for, in bytes. *)
Definition MiB : N := 1048576.

(** The length [dd] writes for a file under [conv=sync] with blocks of
    [MiB] bytes. *)
Definition padded (f : file) : N := ((fsize f + MiB - 1) / MiB * MiB)%N.

(** The bytes [dd] writes for a file: the file, then zeros. *)
Definition zero_extended (f : file) : N -> byte :=
  fun i => if (i <? fsize f)%N then fdata f i else x00.

(** What [dd] leaves in the output file: [len] bytes of [data] at byte
    [off]; without [conv=notrunc] the old file is first cut (or extended
    with zeros) to [off] bytes; a gap between the old end and [off] reads
    as zeros; nothing else changes. *)
Definition dd_output (old : file) (notrunc : bool) (off len : N) (data : N -> byte) : file :=
  let base := if notrunc then old
              else File off (fun i => if (i <? fsize old)%N then fdata old i else x00) in
  File (if (len =? 0)%N then fsize base else N.max (fsize base) (off + len))
       (fun i => if ((off <=? i) && (i <? off + len))%N then data (i - off)%N
                 else if (i <? fsize base)%N then fdata base i else x00).

(** [dd] on the operands the script uses.  A copy of a file onto itself
    reads what it has just written and does not come to an end by itself;
    the model lets it fail. *)
Definition run_dd (fs : gmap string file) (args : list string) : option (gmap string file) :=
  match block_size "ibs" args, block_size "obs" args,
        opt_num "count" args, opt_num "seek" args, operand "of" args with
  | Some ibs, Some obs, Some count, Some seek, Some out =>
      if ((ibs =? 0) || (obs =? 0))%N then None
      else if bool_decide (operand "if" args = Some out) then None
      else match dd_input fs args ibs count with
           | None => None
           | Some (len, data) =>
               let old := default empty_file (fs !! out) in
               let off := (default 0 seek * obs)%N in
               Some (<[out := dd_output old (has_conv "notrunc" args) off len data]> fs)
           end
  | _, _, _, _, _ => None
  end.

(** [rm -rf name ...] *)
Definition run_rm (fs : gmap string file) (args : list string) : option (gmap string file) :=
  match args with
  | flag :: names =>
      if String.eqb flag "-rf" then Some (foldr delete fs names) else None
  | [] => None
  end.

(** [sgdisk ... image] rewrites the GPT structures of an existing image.
    The table is observed through the invocations in the trace; the bytes
    of the table inside the image are not modelled. *)
Definition run_sgdisk (fs : gmap string file) (args : list string) : option (gmap string file) :=
  match last args with
  | Some image => if exists_ fs image then Some fs else None
  | None => None
  end.

(** [simg2img source dest] *)
Definition run_simg2img (h : host) (fs : gmap string file) (args : list string)
  : option (gmap string file) :=
  match args with
  | [source; dest] =>
      match fs !! source with
      | Some f => match sparse_decode h f with
                  | Some raw => Some (<[dest := raw]> fs)
                  | None => None
                  end
      | None => None
      end
  | _ => None
  end.

Definition run_tool (h : host) (t : tool) (fs : gmap string file) (args : list string)
  : option (gmap string file) :=
  match t with
  | ToolDd => run_dd fs args
  | ToolRm => run_rm fs args
  | ToolSgdisk => run_sgdisk fs args
  | ToolSimg2img => run_simg2img h fs args
  end.

(** ** shell_command *)

(** [subprocess.run(comm_list, check=True, ...)]: a program that cannot be
    started raises [FileNotFoundError], a non-zero exit raises
    [CalledProcessError].  A failing program is taken to leave the files
    as they were. *)
Definition shell_command (h : host) (comm_list : list string) : M unit :=
  fun s =>
    let s := log_command comm_list s in
    match comm_list with
    | [] => (Err IndexError, s)
    | prog :: args =>
        match programs h !! prog with
        | None => (Err (FileNotFoundError prog), s)
        | Some t =>
            if faulty h comm_list then (Err (CalledProcessError comm_list), s)
            else match run_tool h t (st_fs s) args with
                 | Some fs' => (Ok tt, set_fs fs' s)
                 | None => (Err (CalledProcessError comm_list), s)
                 end
        end
    end.

(** ** Temporary files and descriptors *)

(** [mkstemp] tries candidate names until one does not exist yet, and
    gives up with [FileExistsError] when it runs out of them. *)
Fixpoint pick_tmp (fs : gmap string file) (names : list string)
  : option (string * list string) :=
  match names with
  | [] => None
  | n :: rest => if exists_ fs n then pick_tmp fs rest else Some (n, rest)
  end.

(** A descriptor that is not open. *)
Definition fresh_fd (fds : list nat) : nat := S (foldr Nat.max 0%nat fds).

Definition mkstemp : M (nat * string) :=
  fun s =>
    match pick_tmp (st_fs s) (st_tmp_names s) with
    | None => (Err FileExistsError, s)
    | Some (name, rest) =>
        let fd := fresh_fd (st_fds s) in
        (Ok (fd, name),
         State (<[name := empty_file]> (st_fs s)) rest (fd :: st_fds s)
               (st_trace s) (st_tmp_made s ++ [(fd, name)]))
    end.

(** [os.close(fd)] *)
Definition os_close (fd : nat) : M unit :=
  fun s =>
    if bool_decide (fd ∈ st_fds s)
    then (Ok tt, State (st_fs s) (st_tmp_names s) (filter (fun x => x ≠ fd) (st_fds s))
                       (st_trace s) (st_tmp_made s))
    else (Err OSError, s).

(** [os.remove(name)] *)
Definition os_remove (name : string) : M unit :=
  fun s =>
    if exists_ (st_fs s) name
    then (Ok tt, set_fs (delete name (st_fs s)) s)
    else (Err (FileNotFoundError name), s).

(** ** The script's functions that start programs *)

Definition set_start (v : string) (p : partition) : partition :=
  Partition (path p) (label p) (sizeByMb p) (num p) (Some v) (end_ p) (fd p).

Definition set_end (v : string) (p : partition) : partition :=
  Partition (path p) (label p) (sizeByMb p) (num p) (start p) (Some v) (fd p).

Definition set_fd (v : nat) (p : partition) : partition :=
  Partition (path p) (label p) (sizeByMb p) (num p) (start p) (end_ p) (Some v).

Definition set_path (v : string) (p : partition) : partition :=
  Partition v (label p) (sizeByMb p) (num p) (start p) (end_ p) (fd p).

(** [partition[key]] for a key that may be absent *)
Definition item (key : string) (v : option string) : M string :=
  match v with
  | Some x => ret x
  | None => raise (KeyError key)
  end.

Definition write_partition (h : host) (p : partition) (output_file : string) (offset : Z)
  : M unit :=
  let dd_comm := ["dd"; "if=" +:+ path p; "of=" +:+ output_file; "conv=notrunc,sync";
                  "ibs=1024k"; "obs=1024k"; "seek=" +:+ py_str offset]%string in
  shell_command h dd_comm.

Definition simg2img_name (h : host) : string :=
  default "simg2img"%string (environ h !! "SIMG2IMG"%string).

Definition sgdisk_name (h : host) : string :=
  default "sgdisk"%string (environ h !! "SGDISK"%string).

(** The dictionary is changed in place: [fd] is stored before the program
    runs, [path] after it.  The result is the dictionary afterwards. *)
Definition unsparse_partition (h : host) (p : partition) : M partition :=
  let simg2img := simg2img_name h in
  do r <- mkstemp;
  let p := set_fd (fst r) p in
  let temp_file := snd r in
  do_ shell_command h [simg2img; path p; temp_file];
  ret (set_path temp_file p).

Definition clear_partition_table (h : host) (filename : string) : M unit :=
  let sgdisk := sgdisk_name h in
  shell_command h [sgdisk; "--clear"%string; filename].

(** The argument vector [add_partition] builds. *)
Definition add_partition_argv (h : host) (n : Z) (label start_ end__ output_file : string)
  : list string :=
  let sgdisk := sgdisk_name h in
  let num := py_str n in
  let new_comm := ("--new=" +:+ num +:+ ":" +:+ start_ +:+ ":" +:+ end__)%string in
  let type_comm := ("--type=" +:+ num +:+ ":8300")%string in
  let name_comm := ("--change-name=" +:+ num +:+ ":" +:+ label)%string in
  [sgdisk; new_comm; type_comm; name_comm; output_file].

Definition add_partition (h : host) (p : partition) (output_file : string) : M unit :=
  do start_ <- item "start" (start p);
  do end__ <- item "end" (end_ p);
  shell_command h (add_partition_argv h (num p) (label p) start_ end__ output_file).

(** ** main *)

(** Lines 162-166: the size of the output, [start], the sparse check and
    the unsparse step.  Returns the dictionary and [offset]. *)
Definition before_copy (h : host) (output_filename : string) (p : partition)
  : M (partition * Z) :=
  do offset <- with_fs (fun fs => getsize fs output_filename);
  let p := set_start (py_str (offset / 512)) p in
  do sparse <- with_fs (fun fs => check_sparse fs (path p));
  do p <- (if sparse : bool then unsparse_partition h p else ret p);
  ret (p, offset).

(** Lines 170-172: the copy, the size of the output again, [end]. *)
Definition copy_and_close (h : host) (output_filename : string) (p : partition) (offset : Z)
  : M partition :=
  do_ write_partition h p output_filename (offset / 1024 / 1024);
  do offset <- with_fs (fun fs => getsize fs output_filename);
  ret (set_end (py_str (offset / 512 - 1)) p).

(** The body of the first loop over [partitions]. *)
Definition compose_one (h : host) (output_filename : string) (p : partition) : M partition :=
  do r <- before_copy h output_filename p;
  copy_and_close h output_filename (fst r) (snd r).

(** The body of the second loop over [partitions]. *)
Definition add_and_clean (h : host) (output_filename : string) (p : partition) : M unit :=
  do_ add_partition h p output_filename;
  match fd p with
  | Some d => do_ os_close d; os_remove (path p)
  | None => ret tt
  end.

(** Lines 157-190, the general path.  Returns the dictionaries as the
    first loop left them. *)
Definition general_path (h : host) (output_filename : string) (partitions : list partition)
  : M (list partition) :=
  do_ shell_command h ["dd"; "if=/dev/zero"; "of=" +:+ output_filename; "ibs=1024k";
                       "count=1"]%string;
  do partitions <- for_each (compose_one h output_filename) partitions;
  do size <- with_fs (fun fs => getsize fs output_filename);
  let offset := size / 1024 / 1024 in
  do_ shell_command h ["dd"; "if=/dev/zero"; "of=" +:+ output_filename; "conv=notrunc";
                       "bs=1024k"; "count=1"; "seek=" +:+ py_str offset]%string;
  do_ clear_partition_table h output_filename;
  do_ for_each (add_and_clean h output_filename) partitions;
  ret partitions.

(** [int(partition["sizeByMb"])] *)
Definition size_mb (p : partition) : M Z :=
  match py_int 10 (sizeByMb p) with
  | Some n => ret n
  | None => raise ValueError
  end.

(** Lines 135-139, the shortcut for an output file that exists. *)
Definition shortcut_path (h : host) (output_filename : string) (p0 p1 : partition) : M unit :=
  do_ shell_command h ["dd"; "if=" +:+ path p0; "of=" +:+ output_filename;
                       "conv=notrunc,sync"; "ibs=1024k"; "obs=1024k"; "seek=1"]%string;
  do_ shell_command h ["dd"; "if=" +:+ path p1; "of=" +:+ output_filename;
                       "conv=notrunc,sync"; "ibs=1024k"; "obs=1024k"; "seek=2"]%string;
  raise SystemExit0.

Definition gpt_head (h : host) (p0 p1 : partition) : string :=
  let gptprefix := (sizeByMb p0 +:+ "_" +:+ sizeByMb p1)%string in
  let prebuilt_gpt_dir := (script_dir h +:+ "/prebuilt/gpt/" +:+ gptprefix)%string in
  (prebuilt_gpt_dir +:+ "/head.img")%string.

Definition gpt_tail (h : host) (p0 p1 : partition) : string :=
  let gptprefix := (sizeByMb p0 +:+ "_" +:+ sizeByMb p1)%string in
  let prebuilt_gpt_dir := (script_dir h +:+ "/prebuilt/gpt/" +:+ gptprefix)%string in
  (prebuilt_gpt_dir +:+ "/head.img")%string.

(** Lines 146-155, the copies around a prebuilt table. *)
Definition template_path (h : host) (output_filename : string) (p0 p1 : partition) : M unit :=
  do_ shell_command h ["dd"; "if=" +:+ gpt_head h p0 p1; "of=" +:+ output_filename;
                       "bs=1024k"; "conv=notrunc,sync"; "count=1"]%string;
  do_ shell_command h ["dd"; "if=" +:+ path p0; "of=" +:+ output_filename;
                       "bs=1024k"; "conv=notrunc,sync"; "seek=1"]%string;
  do s0 <- size_mb p0;
  do_ shell_command h ["dd"; "if=" +:+ path p1; "of=" +:+ output_filename;
                       "bs=1024k"; "conv=notrunc,sync"; "seek=" +:+ py_str (1 + s0)]%string;
  do s0 <- size_mb p0;
  do s1 <- size_mb p1;
  do_ shell_command h ["dd"; "if=" +:+ gpt_tail h p0 p1; "of=" +:+ output_filename;
                       "bs=1024k"; "conv=notrunc,sync"; "seek=" +:+ py_str (1 + s0 + s1)]%string;
  raise SystemExit0.

(** Which of the three paths lines 134-190 take. *)
Definition compose (h : host) (output_filename : string) (partitions : list partition)
  : M unit :=
  do out_exists <- with_fs (fun fs => Ok (exists_ fs output_filename));
  match partitions with
  | [p0; p1] =>
      if out_exists : bool then shortcut_path h output_filename p0 p1
      else
        do templates <- with_fs (fun fs => Ok (exists_ fs (gpt_head h p0 p1)
                                               && exists_ fs (gpt_tail h p0 p1)));
        do_ (if templates : bool then template_path h output_filename p0 p1 else ret tt);
        do_ general_path h output_filename partitions;
        ret tt
  | _ => do_ general_path h output_filename partitions; ret tt
  end.

(** [open(name, "r").readlines()] on ASCII text: a line ends after a line
    feed, a carriage return, or the two together, each read as one line
    feed; [after_cr] tells whether a line feed would belong to the
    carriage return before it. *)
Fixpoint lines_loop (cur : string) (after_cr : bool) (s : string) : list string :=
  match s with
  | EmptyString => match cur with EmptyString => [] | _ => [cur] end
  | String c s' =>
      if Ascii.eqb c "010"
      then (if after_cr then lines_loop cur false s'
            else (cur +:+ String "010" EmptyString) :: lines_loop EmptyString false s')
      else if Ascii.eqb c "013"
      then (cur +:+ String "010" EmptyString) :: lines_loop EmptyString true s'
      else lines_loop (cur +:+ String c EmptyString) false s'
  end.

Definition text_of (f : file) : string :=
  string_of_list_ascii
    (map (fun i => ascii_of_byte (fdata f (N.of_nat i))) (seq 0 (N.to_nat (fsize f)))).

Definition readlines (fs : gmap string file) (name : string) : result (list string) :=
  match fs !! name with
  | Some f => Ok (lines_loop EmptyString false (text_of f))
  | None => Err (FileNotFoundError name)
  end.

(** [args.input] and [args.output] are [None] when the option is not
    given; these are the two file names [main] works with. *)
Definition config_name (arg_input : option string) : string :=
  default "image_config"%string arg_input.

Definition output_name (h : host) (arg_output : option string) : string :=
  expandvars (environ h)
    (default (default "."%string (environ h !! "OUT"%string) +:+ "/combined.img")%string
             arg_output).

Definition main (h : host) (arg_input arg_output : option string) : M unit :=
  let output_filename := output_name h arg_output in
  do_ shell_command h ["rm"; "-rf"; output_filename +:+ ".qcow2"]%string;
  let config_filename := config_name arg_input in
  do config_exists <- with_fs (fun fs => Ok (exists_ fs config_filename));
  if negb config_exists then raise (InvalidConfigFile config_filename)
  else
    do lines <- with_fs (fun fs => readlines fs config_filename);
    do partitions <- with_fs (fun fs => parse_input fs (environ h) lines);
    compose h output_filename partitions.

(** ** Concrete files and hosts for the examples *)

Definition file_of_bytes (l : list byte) : file :=
  File (N.of_nat (length l)) (fun i => nth (N.to_nat i) l x00).

Definition file_of_string (s : string) : file :=
  file_of_bytes (map byte_of_ascii (list_ascii_of_string s)).

(** The four programs under their usual names. *)
Definition std_programs : gmap string tool :=
  {[ "dd"%string := ToolDd; "rm"%string := ToolRm;
     "sgdisk"%string := ToolSgdisk; "simg2img"%string := ToolSimg2img ]}.

(** [dd] and [rm] are started by name, [sgdisk] and [simg2img] under the
    names the environment gives them. *)
Definition standard_host (h : host) : Prop :=
  programs h !! "dd"%string = Some ToolDd
  /\ programs h !! "rm"%string = Some ToolRm
  /\ programs h !! sgdisk_name h = Some ToolSgdisk
  /\ programs h !! simg2img_name h = Some ToolSimg2img.

(** A manifest line as [readlines] returns it, with its line feed. *)
Definition line_of (s : string) : string := s +:+ String "010" EmptyString.

(** A host with the usual programs, [OUT=/out], no failing invocation,
    and a [simg2img] that decodes every image to the three bytes [raw]. *)
Definition demo_host : host :=
  Host {[ "OUT"%string := "/out"%string ]} std_programs (fun _ => false)
       (fun _ => Some (file_of_string "raw")) "/tools".

(** A manifest of two partitions between a comment and a line that is not
    a directive; [a.img] starts with the sparse magic, [b.img] does not. *)
Definition demo_files : gmap string file :=
  {[ "image_config"%string :=
       file_of_string (line_of "# partitions" +:+ line_of "b.img vendor 2"
                       +:+ line_of "a.img system 1" +:+ line_of "one two");
     "a.img"%string := file_of_bytes [x3a; xff; x26; xed; x00];
     "b.img"%string := file_of_string "hello" ]}.

Definition demo_state : state :=
  State demo_files ["/tmp/tmp1"; "/tmp/tmp2"]%string [0; 1; 2]%nat [] [].

(** [be_value bs] reads [bs] as one number, most significant byte first. *)
Definition be_value (bs : list byte) : Z :=
  fold_left (fun acc b => 256 * acc + Z.of_N (to_N b)) bs 0.

(** ** The claims about [parse_input], in the specification's words *)

(** The number a directive declares: its third token read as an integer. *)
Definition declared_num (line : list string) : option Z :=
  match line with
  | _ :: _ :: tok :: _ => py_int 10 tok
  | _ => None
  end.



(** A directive that passes every check of the second loop, [used] being
    the numbers of the directives before it. *)
Definition accepted (fs : gmap string file) (total : Z) (used : list Z) (line : list string)
  : Prop :=
  exists n, is_Some (fs !! hd EmptyString line) /\ declared_num line = Some n
            /\ 0 <= n <= total /\ n ∉ used.

(** Every directive of [todo] is accepted in turn. *)
Fixpoint all_accepted (fs : gmap string file) (total : Z) (used : list Z)
    (todo : list (list string)) : Prop :=
  match todo with
  | [] => True
  | line :: rest =>
      accepted fs total used line
      /\ all_accepted fs total (used ++ option_list (declared_num line)) rest
  end.

(** The descriptor the second loop builds for an accepted directive. *)
Definition descriptor (fs : gmap string file) (line : list string) : option partition :=
  match line with
  | line0 :: line1 :: line2 :: _ =>
      match fs !! line0, py_int 10 line2 with
      | Some f, Some n =>
          Some (Partition line0 line1 (py_str (ceil_mb (Z.of_N (fsize f)))) n None None None)
      | _, _ => None
      end
  | _ => None
  end.

(** The label a directive declares: its second token. *)
Definition declared_label (line : list string) : string := nth 1 line EmptyString.

(** ** The claims about sector ranges, in the specification's words *)

(** The placement of a partition, as numbers: [start] and [end] are the
    texts of the two bounds. *)
Definition sector_range (q : partition) (r : Z * Z) : Prop :=
  start q = Some (py_str (fst r)) /\ end_ q = Some (py_str (snd r)).





(** Every file of [fs0] other than [out] is still in [fs], unchanged. *)
Definition keeps (fs0 : gmap string file) (out : string) (fs : gmap string file) : Prop :=
  forall name f, name <> out -> fs0 !! name = Some f -> fs !! name = Some f.

(** An output file of [k] whole MiB, [k] at least 1, that starts with four
    zero bytes. *)
Definition padded_output (fs : gmap string file) (out : string) (k : N) : Prop :=
  exists fo, fs !! out = Some fo /\ fsize fo = (k * MiB)%N /\ (1 <= k)%N
             /\ forall i, (i < 4)%N -> fdata fo i = x00.





(** What [parse_input] returns for the one directive [a.img system 1]. *)
Definition demo_system : partition := Partition "a.img" "system" "1" 1 None None None.

(** What [parse_input] returns for the directive [b.img vendor 2]. *)
Definition demo_vendor : partition := Partition "b.img" "vendor" "1" 2 None None None.

(** [demo_state] after the first padding of the general path. *)
Definition demo_padded : state :=
  snd (shell_command demo_host
         ["dd"; "if=/dev/zero"; "of=/out/combined.img"; "ibs=1024k"; "count=1"]%string
         demo_state).

(** ** The claim about temporary files, in the specification's words *)



(** The temporary files the dictionaries still refer to. *)
Definition pending (placed : list partition) : list (nat * string) :=
  omap (fun q => match fd q with Some d => Some (d, path q) | None => None end) placed.

(** [demo_host] with an [sgdisk --clear] that exits with an error. *)
Definition clear_fails_host : host :=
  Host {[ "OUT"%string := "/out"%string ]} std_programs
       (fun argv => bool_decide (argv = ["sgdisk"; "--clear"; "/out/combined.img"]%string))
       (fun _ => Some (file_of_string "raw")) "/tools".

(** A computation that makes no temporary file, however it ends. *)
Definition silent {A} (m : M A) : Prop :=
  forall s r s', m s = (r, s') -> st_tmp_made s' = st_tmp_made s.

(** A computation that never ends in the exception [e]. *)
Definition never {A} (e : exn) (m : M A) : Prop :=
  forall s s', m s <> (Err e, s').

(** The two exceptions that no program start, size lookup, temporary file
    or descriptor operation ends in. *)
Definition unraised (e : exn) : Prop := e = SystemExit0 \/ e = ValueError.


(** [demo_state] with an empty [b.img]. *)
Definition empty_vendor_state : state :=
  State (<[ "b.img"%string := empty_file ]> demo_files)
        ["/tmp/tmp1"; "/tmp/tmp2"]%string [0; 1; 2]%nat [] [].

(** ** The claim about the fast paths, in the specification's words *)

(** The bytes of [src] are in [img] from byte [off] on. *)
Definition holds_at (img src : file) (off : N) : Prop :=
  forall i, (i < fsize src)%N ->
            (off + i < fsize img)%N /\ fdata img (off + i) = fdata src i.

(** Where the general algorithm places two sources: the first at 1 MiB,
    the second at 1 MiB plus the size of the first rounded up to whole
    MiB. *)
Definition general_layout (img f0 f1 : file) : Prop :=
  holds_at img f0 MiB /\ holds_at img f1 (MiB + padded f0).

(** C5 as it is written, for the shortcut on an output file that exists. *)
Definition shortcut_claim (h : host) (out : string) (p0 p1 : partition) (s : state) : Prop :=
  forall s' f0 f1,
    st_fs s !! path p0 = Some f0 -> st_fs s !! path p1 = Some f1 ->
    shortcut_path h out p0 p1 s = (Err SystemExit0, s') ->
    exists img, st_fs s' !! out = Some img /\ general_layout img f0 f1.

(** A first partition of one byte more than a MiB, all bytes 1, a second
    of one byte 2, and an output file that exists. *)
Definition big_files : gmap string file :=
  {[ "big.img"%string := File 1048577 (fun _ => x01);
     "small.img"%string := File 1 (fun _ => x02);
     "/out/combined.img"%string := empty_file ]}.

Definition big_state : state := State big_files [] [0; 1; 2]%nat [] [].

Definition big_system : partition := Partition "big.img" "system" "2" 1 None None None.

Definition small_vendor : partition := Partition "small.img" "vendor" "1" 2 None None None.

(** Two small sources that are not sparse, and a prebuilt header for
    their sizes in MiB, 1 and 1. *)
Definition plain_files : gmap string file :=
  {[ "x.img"%string := file_of_string "hello";
     "y.img"%string := file_of_string "world!";
     "/tools/prebuilt/gpt/1_1/head.img"%string := file_of_string "HEAD" ]}.

Definition plain_state : state := State plain_files [] [0; 1; 2]%nat [] [].

Definition plain_boot : partition := Partition "x.img" "boot" "1" 1 None None None.

Definition plain_vendor : partition := Partition "y.img" "vendor" "1" 2 None None None.

(** The byte of the file [name] at [i], and zero if there is no such
    file. *)
Definition byte_at (fs : gmap string file) (name : string) (i : N) : byte :=
  match fs !! name with
  | Some f => fdata f i
  | None => x00
  end.

(** ** Vocabulary for the further properties *)

(** A file of at least four bytes that starts with 3a ff 26 ed, the magic
    number of a sparse image in the byte order of the file. *)
Definition starts_with_magic (f : file) : Prop :=
  (4 <= fsize f)%N
  /\ fdata f 0%N = x3a /\ fdata f 1%N = xff /\ fdata f 2%N = x26 /\ fdata f 3%N = xed.

(** A directive that passes the checks of the second loop that look at
    nothing but the directive itself: its source file exists, and its
    third token is an integer between 0 and [total]. *)
Definition well_formed (fs : gmap string file) (total : Z) (line : list string) : Prop :=
  exists n, is_Some (fs !! hd EmptyString line) /\ declared_num line = Some n
            /\ 0 <= n <= total.


(** A line the first loop of [parse_input] drops: blank after [strip()],
    a comment, or not made of exactly three fields. *)
Definition ignored (line : string) : Prop :=
  strip line = EmptyString
  \/ (exists rest, strip line = String "#" rest)
  \/ length (split (strip line)) <> 3%nat.

(** ** The image the general path builds, for any number of partitions *)

(** [fs] is [fs0] but for the output file and the temporary files
    [temps], none of which is a file of [fs0]. *)
Definition agrees (fs0 : gmap string file) (out : string) (temps : list string)
    (fs : gmap string file) : Prop :=
  (forall name, name <> out -> name ∉ temps -> fs !! name = fs0 !! name)
  /\ (forall t, t ∈ temps -> fs0 !! t = None /\ t <> out).

(** The partition of the descriptor [p] lies in [img] in the blocks [k]
    to [k' - 1] of one MiB, and [q] is [p] with these blocks as sectors:
    the blocks hold the raw image of the source (the source itself, or,
    for a source that starts with the sparse magic, what [simg2img]
    decodes it to), then zeros up to the end of the last block. *)
Definition placement (h : host) (fs0 : gmap string file) (img : file)
    (p q : partition) (k k' : N) : Prop :=
  exists f raw,
    fs0 !! path p = Some f
    /\ ((~ starts_with_magic f /\ raw = f)
        \/ (starts_with_magic f /\ sparse_decode h f = Some raw))
    /\ (k' * MiB = k * MiB + padded raw)%N
    /\ num q = num p /\ label q = label p
    /\ sector_range q (Z.of_N k * 2048, Z.of_N k' * 2048 - 1)
    /\ holds_at img raw (k * MiB)
    /\ (forall i, (fsize raw <= i < padded raw)%N -> fdata img (k * MiB + i) = x00).

(** The partitions lie in [img] one after the other from block [k] on,
    and the last one ends before block [k_end]. *)
Fixpoint placements (h : host) (fs0 : gmap string file) (img : file) (k : N)
    (parts placed : list partition) (k_end : N) : Prop :=
  match parts, placed with
  | [], [] => k_end = k
  | p :: parts', q :: placed' =>
      exists k1, placement h fs0 img p q k k1
                 /\ placements h fs0 img k1 parts' placed' k_end
  | _, _ => False
  end.

(** ** What a run starts, however it ends *)

(** A command on the output file [out]: a [dd] that writes [out], a
    [simg2img] of one file into another, or an [sgdisk] on [out]. *)
Definition output_command (h : host) (out : string) (argv : list string) : Prop :=
  (exists src rest, argv = "dd" :: ("if=" +:+ src) :: ("of=" +:+ out) :: rest)%string
  \/ (exists src temp, argv = [simg2img_name h; src; temp])
  \/ (exists args, argv = sgdisk_name h :: args ++ [out]).

(** A computation that starts only commands of [P], and that starts
    nothing more once a command has failed: when it ends in
    [CalledProcessError] for [argv], the command [argv] is the last one
    it started. *)
Definition orderly (P : list string -> Prop) {A} (m : M A) : Prop :=
  forall s r s', m s = (r, s') ->
    exists started,
      st_trace s' = st_trace s ++ started
      /\ Forall P started
      /\ forall argv, r = Err (CalledProcessError argv) -> last started = Some argv.

(** [demo_state] with an output file left by an earlier run. *)
Definition rerun_state : state :=
  State (<[ "/out/combined.img"%string := empty_file ]> demo_files)
        ["/tmp/tmp1"; "/tmp/tmp2"]%string [0; 1; 2]%nat [] [].

(** A text without a dollar sign. *)
Fixpoint dollar_free (s : string) : bool :=
  match s with
  | EmptyString => true
  | String c s' => negb (Ascii.eqb c "$") && dollar_free s'
  end.

(** ** Inputs on which the general path goes through *)




(** A text without white space. *)
Fixpoint no_space (s : string) : bool :=
  match s with
  | EmptyString => true
  | String c s' => negb (py_isspace c) && no_space s'
  end.

(** The errors of a subscript on a dictionary or a list: a key that is
    not there, an index out of range. *)
Definition lookup_error (e : exn) : Prop := e = IndexError \/ exists key, e = KeyError key.

(** A state whose manifest [notes] holds a comment, a blank line and a
    line of two fields, and nothing else. *)
Definition comments_state : state :=
  State {[ "notes"%string :=
             file_of_string (line_of "# nothing to place" +:+ line_of ""
                             +:+ line_of "a.img system") ]}
        [] [0; 1; 2]%nat [] [].

(* ===================================================================== *)
(** * Part II: properties *)
(* ===================================================================== *)

Example py_str_examples :
  py_str 0 = "0"%string /\ py_str 2048 = "2048"%string /\ py_str (-1) = "-1"%string.
Proof. repeat split; reflexivity. Qed.

Example py_int_examples :
  py_int 10 "5" = Some 5 /\ py_int 10 "-3" = Some (-3) /\ py_int 10 "1_000" = Some 1000
  /\ py_int 10 "1__0" = None /\ py_int 10 "x" = None /\ py_int 10 "" = None
  /\ py_int 16 "" = None /\ py_int 16 "ed26ff3a" = Some 3978755898
  /\ py_int 16 "0x" = None /\ py_int 16 "0x1f" = Some 31.
Proof. repeat split; reflexivity. Qed.

Example split_examples :
  split "a.img  system 1" = ["a.img"; "system"; "1"]%string
  /\ strip "  # c " = "# c"%string.
Proof. repeat split; reflexivity. Qed.

Example expandvars_examples :
  let environ := {[ "OUT"%string := "/out"%string ]} : gmap string string in
  expandvars environ "$OUT/system.img" = "/out/system.img"%string
  /\ expandvars environ "${OUT}x$HOME$$OUT" = "/outx$HOME$/out"%string
  /\ expandvars environ "${OUT$OUT" = "${OUT/out"%string.
Proof. repeat split; vm_compute; reflexivity. Qed.

Example parse_example :
  parse_input {[ "a.img"%string := file_of_string "12345" ]} ∅
              [line_of "# c"; line_of "a.img system 1"; line_of ""; line_of "junk"]
  = Ok [Partition "a.img" "system" "1" 1 None None None].
Proof. vm_compute. reflexivity. Qed.

(** ** Decimal and hexadecimal numerals *)

Lemma digits_loop_uint_acc (d : Decimal.uint) (acc : positive) :
  digits_loop 10 (Z.pos acc) true (NilEmpty.string_of_uint d)
  = Some (Z.pos (Pos.of_uint_acc d acc)).
Proof.
  revert acc; induction d; intros acc; simpl; try reflexivity;
    rewrite <- IHd; f_equal; lia.
Qed.

Lemma digits_loop_uint (d : Decimal.uint) (prev : bool) :
  d <> Decimal.Nil ->
  digits_loop 10 0 prev (NilEmpty.string_of_uint d) = Some (Z.of_uint d).
Proof.
  revert prev; induction d; intros prev Hd; try congruence;
    cbn [NilEmpty.string_of_uint digits_loop].
  all: change (Ascii.eqb _ "_") with false; cbv iota.
  all: match goal with
       | |- match digit_of 10 ?c with _ => _ end = _ =>
           let v := eval vm_compute in (digit_of 10 c) in
           change (digit_of 10 c) with v; cbv iota
       end.
  all: try exact (digits_loop_uint_acc d _).
  destruct d; try (apply (IHd true); congruence). reflexivity.
Qed.

Lemma py_int_mag_uint (d : Decimal.uint) :
  d <> Decimal.Nil ->
  py_int_mag 10 (NilEmpty.string_of_uint d) = Some (Z.of_uint d).
Proof.
  intros Hd. pose proof (digits_loop_uint d false Hd) as H.
  destruct d; try congruence; unfold py_int_mag;
    cbn [NilEmpty.string_of_uint] in *; cbv iota; try exact H.
  destruct d; cbn [NilEmpty.string_of_uint] in *; cbv iota; exact H.
Qed.

Lemma py_int_unsigned (d : Decimal.uint) :
  py_int 10 (NilEmpty.string_of_uint d) = py_int_mag 10 (NilEmpty.string_of_uint d).
Proof. destruct d; reflexivity. Qed.

Lemma of_uint_to_uint (p : positive) : Z.of_uint (Pos.to_uint p) = Z.pos p.
Proof. unfold Z.of_uint. rewrite DecimalPos.Unsigned.of_to. reflexivity. Qed.

(** [int(str(z))] is [z]. *)
Lemma py_int_py_str (z : Z) : py_int 10 (py_str z) = Some z.
Proof.
  unfold py_str. destruct z as [|p|p]; try reflexivity;
    cbn [Z.to_int NilEmpty.string_of_int].
  - rewrite py_int_unsigned, py_int_mag_uint by apply Unsigned.to_uint_nonnil.
    now rewrite of_uint_to_uint.
  - cbn [py_int]. rewrite py_int_mag_uint by apply Unsigned.to_uint_nonnil.
    now rewrite of_uint_to_uint.
Qed.

Lemma parse_num_py_str (z : Z) :
  0 <= z -> parse_num (py_str z) = Some (Z.to_N z).
Proof.
  intros Hz. unfold parse_num, py_str.
  rewrite NilEmpty.isi, DecimalZ.of_to.
  destruct (Z.ltb_spec z 0); [lia | reflexivity].
Qed.

Lemma hex_digit_spec (n : N) :
  (n < 16)%N ->
  digit_of 16 (hex_digit n) = Some (Z.of_N n) /\ Ascii.eqb (hex_digit n) "_" = false.
Proof.
  intros Hn. destruct n as [|p]; [split; reflexivity |].
  do 4 (try destruct p as [p|p|]); try (split; reflexivity); lia.
Qed.

Lemma to_N_nibbles (b : byte) :
  (to_N b / 16 < 16)%N /\ (to_N b mod 16 < 16)%N
  /\ Z.of_N (to_N b) = 16 * Z.of_N (to_N b / 16) + Z.of_N (to_N b mod 16).
Proof.
  pose proof (to_N_bounded b) as Hb.
  pose proof (N.Div0.div_mod (to_N b) 16) as Hdm.
  pose proof (N.mod_lt (to_N b) 16 ltac:(lia)) as Hm.
  assert (to_N b / 16 < 16)%N by (apply N.Div0.div_lt_upper_bound; lia).
  repeat split; lia.
Qed.

(** Reading the two digits of one byte multiplies by 256 and adds it. *)
Lemma digits_loop_hex_byte (b : byte) (acc : Z) (prev : bool) (rest : string) :
  digits_loop 16 acc prev (hex_of_byte b +:+ rest)
  = digits_loop 16 (256 * acc + Z.of_N (to_N b)) true rest.
Proof.
  destruct (to_N_nibbles b) as (Hhi & Hlo & Heq).
  destruct (hex_digit_spec _ Hhi) as [Hd1 He1], (hex_digit_spec _ Hlo) as [Hd2 He2].
  unfold hex_of_byte. simpl. rewrite He1, Hd1, He2, Hd2.
  change (EmptyString +:+ rest) with rest. f_equal. lia.
Qed.

Lemma digits_loop_hex_encode (bs : list byte) (acc : Z) (prev : bool) :
  bs <> [] \/ prev = true ->
  digits_loop 16 acc prev (hex_encode bs)
  = Some (fold_left (fun a b => 256 * a + Z.of_N (to_N b)) bs acc).
Proof.
  revert acc prev; induction bs as [|b bs IH]; intros acc prev H.
  - destruct H as [H | ->]; [congruence | reflexivity].
  - cbn [hex_encode fold_left]. rewrite digits_loop_hex_byte. apply IH. now right.
Qed.

Lemma py_int_hex_head (b : byte) (rest : string) :
  py_int 16 (hex_of_byte b +:+ rest) = digits_loop 16 0 false (hex_of_byte b +:+ rest).
Proof. destruct b; reflexivity. Qed.

(** [int(codecs.encode(bs, 'hex'), 16)] is the big-endian value of [bs],
    and fails on no bytes at all. *)
Lemma py_int_hex_encode (bs : list byte) :
  py_int 16 (hex_encode bs) = match bs with [] => None | _ => Some (be_value bs) end.
Proof.
  destruct bs as [|b bs]; [reflexivity |].
  cbn [hex_encode]. rewrite py_int_hex_head.
  change (hex_of_byte b +:+ hex_encode bs) with (hex_encode (b :: bs)).
  apply digits_loop_hex_encode. now left.
Qed.

Lemma read_length (n : N) (f : file) : length (read n f) = N.to_nat (N.min n (fsize f)).
Proof. unfold read. now rewrite length_map, length_seq. Qed.

Lemma read_4_full (f : file) :
  (4 <= fsize f)%N -> read 4 f = [fdata f 0; fdata f 1; fdata f 2; fdata f 3]%N.
Proof.
  intros H. unfold read. replace (N.min 4 (fsize f)) with 4%N by lia. reflexivity.
Qed.

Lemma read_nil (n : N) (f : file) : read n f = [] <-> (n = 0 \/ fsize f = 0)%N.
Proof.
  rewrite <- length_zero_iff_nil, read_length. lia.
Qed.

Lemma to_N_inj (a b : byte) : to_N a = to_N b -> a = b.
Proof.
  intros H. pose proof (of_to_N a) as Ha. rewrite H, of_to_N in Ha. congruence.
Qed.

(** What [check_sparse] returns on a file that exists. *)
Lemma check_sparse_value (fs : gmap string file) (filename : string) (f : file) :
  fs !! filename = Some f ->
  check_sparse fs filename
  = match read 4 f with
    | [] => Err ValueError
    | word => Ok (magic =? be_value (rev word))
    end.
Proof.
  intros Hf. unfold check_sparse. rewrite Hf, py_int_hex_encode.
  destruct (read 4 f) as [|b w] eqn:E; [reflexivity |].
  destruct (rev (b :: w)) eqn:Er; [|reflexivity].
  apply (f_equal (@length byte)) in Er. rewrite length_rev in Er. discriminate.
Qed.

(** C6.  On a file of at least four bytes [check_sparse] answers [True]
    exactly when the first four bytes, reversed and read as one
    hexadecimal number (most significant digit first), are 0xED26FF3A,
    which is 3978755898; that is, when the file starts with the bytes
    3a ff 26 ed.  Every other such file is answered [False]. *)
Theorem check_sparse_magic (fs : gmap string file) (filename : string) (f : file) :
  fs !! filename = Some f ->
  (4 <= fsize f)%N ->
  let word := [fdata f 0; fdata f 1; fdata f 2; fdata f 3]%N in
  check_sparse fs filename = Ok (bool_decide (be_value (rev word) = 0xED26FF3A))
  /\ 0xED26FF3A = 3978755898
  /\ (be_value (rev word) = 0xED26FF3A <-> word = [x3a; xff; x26; xed]).
Proof.
  intros Hf Hsize word. split; [|split].
  - rewrite (check_sparse_value _ _ _ Hf), (read_4_full _ Hsize). fold word.
    cbv iota. f_equal. unfold magic.
    destruct (Z.eqb_spec 3978755898 (be_value (rev word))) as [E | E].
    + symmetry. apply bool_decide_eq_true. now rewrite <- E.
    + symmetry. apply bool_decide_eq_false. intros E'. apply E. now rewrite E'.
  - reflexivity.
  - subst word. unfold be_value. cbn [rev app fold_left]. split.
    + intros H.
      pose proof (to_N_bounded (fdata f 0)). pose proof (to_N_bounded (fdata f 1)).
      pose proof (to_N_bounded (fdata f 2)). pose proof (to_N_bounded (fdata f 3)).
      assert (to_N (fdata f 0) = to_N x3a) as E0 by (cbn; lia).
      assert (to_N (fdata f 1) = to_N xff) as E1 by (cbn; lia).
      assert (to_N (fdata f 2) = to_N x26) as E2 by (cbn; lia).
      assert (to_N (fdata f 3) = to_N xed) as E3 by (cbn; lia).
      apply to_N_inj in E0, E1, E2, E3. congruence.
    + intros H. injection H as -> -> -> ->. reflexivity.
Qed.

Lemma check_sparse_magic_witness :
  check_sparse {[ "s.img"%string := file_of_bytes [x3a; xff; x26; xed; x01] ]} "s.img"
  = Ok true.
Proof.
  destruct (check_sparse_magic
              {[ "s.img"%string := file_of_bytes [x3a; xff; x26; xed; x01] ]} "s.img"
              (file_of_bytes [x3a; xff; x26; xed; x01]))
    as (H & _ & _); [reflexivity | cbn; lia | ].
  rewrite H. reflexivity.
Defined.

(** ** parse_input *)

Lemma expand_loop_fst (environ : gmap string string) (params seen : list string)
    (v : option string) :
  fst (fold_left (fun st tok => (fst st, Some (expandvars environ tok))) params (seen, v))
  = seen.
Proof.
  revert v; induction params as [|tok rest IH]; intros v; [reflexivity |].
  cbn [fold_left fst]. apply IH.
Qed.

(** The loop over [params] leaves the list as it was. *)
Lemma expand_params_fst (environ : gmap string string) (params : list string) :
  fst (expand_params environ params) = params.
Proof. apply expand_loop_fst. Qed.

(** What the first loop keeps of a line: the tokens as they were split. *)
Lemma directive_tokens (environ : gmap string string) (line : string) (params : list string) :
  directive environ line = Some params -> params = split (strip line) /\ length params = 3%nat.
Proof.
  unfold directive. destruct (strip line) as [|c s] eqn:E; [discriminate |].
  destruct (Ascii.eqb c "#"); [discriminate |].
  destruct (Nat.eqb_spec (length (split (String c s))) 3); [|discriminate].
  rewrite expand_params_fst. intros [= <-]. split; [reflexivity | assumption].
Qed.

Lemma directive_environ (environ1 environ2 : gmap string string) (line : string) :
  directive environ1 line = directive environ2 line.
Proof.
  unfold directive. destruct (strip line) as [|c s]; [reflexivity |].
  now rewrite !expand_params_fst.
Qed.

(** The environment has no influence on what [parse_input] returns. *)
Lemma parse_input_environ (fs : gmap string file) (environ1 environ2 : gmap string string)
    (lines : list string) :
  parse_input fs environ1 lines = parse_input fs environ2 lines.
Proof.
  unfold parse_input, parsed_lines.
  replace (omap (directive environ1) lines) with (omap (directive environ2) lines);
    [reflexivity |].
  induction lines as [|l ls IH]; [reflexivity |].
  cbn [omap list_omap]. rewrite IH, (directive_environ environ1 environ2). reflexivity.
Qed.

(** C4.  The manifest line [$OUT/system.img system 1] with [OUT=/out]:
    the descriptor keeps the token [$OUT/system.img], which is not its
    expansion [/out/system.img]; and when only [/out/system.img] exists
    the size lookup fails on the unexpanded name. *)
Theorem parse_input_keeps_unexpanded_path :
  let environ := {[ "OUT"%string := "/out"%string ]} : gmap string string in
  let img := file_of_string "data" in
  let lines := ["$OUT/system.img system 1" +:+ String "010" EmptyString]%string in
  expandvars environ "$OUT/system.img" = "/out/system.img"%string
  /\ parse_input {[ "$OUT/system.img"%string := img; "/out/system.img"%string := img ]}
                 environ lines
     = Ok [Partition "$OUT/system.img" "system" "1" 1 None None None]
  /\ parse_input {[ "/out/system.img"%string := img ]} environ lines
     = Err (FileNotFoundError "$OUT/system.img").
Proof. repeat split; vm_compute; reflexivity. Qed.

(** C8.  A one-line manifest that declares number 0 is accepted, while
    the message of the range check names the range from 1. *)
Theorem parse_input_accepts_zero :
  let lines := ["a.img system 0" +:+ String "010" EmptyString]%string in
  parse_input {[ "a.img"%string := file_of_string "data" ]} ∅ lines
  = Ok [Partition "a.img" "system" "1" 0 None None None]
  /\ exit_message (PartitionNumberOutOfRange (-1) 1)
     = Some "Invalid partition number: -1, range [1..1]"%string.
Proof. split; vm_compute; reflexivity. Qed.

(** One pass of the second loop, when it goes through. *)
Lemma add_directive_ok (fs : gmap string file) (total : Z) (ps : list partition)
    (used : gset Z) (line : list string) (st' : list partition * gset Z) :
  add_directive fs total (ps, used) line = Ok st' <->
  exists p, descriptor fs line = Some p /\ 0 <= num p <= total /\ (num p ∉ used)
            /\ st' = (ps ++ [p], {[num p]} ∪ used).
Proof.
  unfold add_directive, descriptor, getsize.
  destruct line as [|line0 [|line1 [|line2 rest]]];
    try (split; [discriminate | intros (p & [=] & _)]).
  destruct (fs !! line0) as [f|]; cbn [rbind];
    [|split; [discriminate | intros (p & [=] & _)]].
  destruct (py_int 10 line2) as [n|];
    [|split; [discriminate | intros (p & [=] & _)]].
  destruct (Z.gtb_spec n total), (Z.ltb_spec n 0); cbn [orb];
    try (split; [discriminate | intros (p & [= <-] & Hr & _); cbn in Hr; lia]).
  destruct (bool_decide_reflect (n ∈ used)).
  - split; [discriminate | intros (p & [= <-] & _ & Hn & _); cbn in Hn; tauto].
  - split.
    + intros [= <-]. eexists; repeat split; cbn; try lia; assumption.
    + intros (p & [= <-] & _ & _ & ->). reflexivity.
Qed.


(** The second loop fails exactly at its first failing pass. *)
Lemma add_directives_err (fs : gmap string file) (total : Z) (todo : list (list string))
    (st : list partition * gset Z) (e : exn) :
  add_directives fs total st todo = Err e <->
  exists pre line post st1,
    todo = pre ++ line :: post
    /\ add_directives fs total st pre = Ok st1
    /\ add_directive fs total st1 line = Err e.
Proof.
  revert st; induction todo as [|l rest IH]; intros st; cbn [add_directives].
  - split; [discriminate | intros (pre & line & post & st1 & H & _)].
    destruct pre; discriminate.
  - destruct (add_directive fs total st l) as [st'|e'] eqn:E; cbn [rbind].
    + rewrite IH. split.
      * intros (pre & line & post & st1 & -> & Hpre & Hline).
        exists (l :: pre), line, post, st1. cbn [add_directives app].
        rewrite E. cbn [rbind]. auto.
      * intros (pre & line & post & st1 & Htodo & Hpre & Hline).
        destruct pre as [|l' pre]; cbn [app] in Htodo; injection Htodo as <- ->.
        -- cbn in Hpre. injection Hpre as <-. congruence.
        -- cbn [add_directives] in Hpre. rewrite E in Hpre. cbn [rbind] in Hpre.
           exists pre, line, post, st1. auto.
    + split.
      * intros [= <-]. exists [], l, rest, st. cbn. auto.
      * intros (pre & line & post & st1 & Htodo & Hpre & Hline).
        destruct pre as [|l' pre]; cbn [app] in Htodo; injection Htodo as <- ->.
        -- cbn in Hpre. injection Hpre as <-. congruence.
        -- cbn [add_directives] in Hpre. rewrite E in Hpre. discriminate.
Qed.

Lemma descriptor_declared (fs : gmap string file) (line : list string) (p : partition) :
  descriptor fs line = Some p ->
  declared_num line = Some (num p) /\ is_Some (fs !! hd EmptyString line)
  /\ path p = hd EmptyString line /\ label p = declared_label line.
Proof.
  unfold descriptor, declared_num.
  destruct line as [|line0 [|line1 [|line2 rest]]]; try discriminate.
  cbn [hd]. destruct (fs !! line0); [|discriminate].
  destruct (py_int 10 line2); [|discriminate].
  intros [= <-]. cbn. eauto.
Qed.

Lemma accepted_descriptor (fs : gmap string file) (total : Z) (used : list Z)
    (line : list string) :
  accepted fs total used line <->
  exists p, descriptor fs line = Some p /\ 0 <= num p <= total /\ num p ∉ used.
Proof.
  unfold accepted, descriptor, declared_num. split.
  - intros (n & [f Hf] & Hn & Hr & Hu).
    destruct line as [|line0 [|line1 [|line2 rest]]]; try discriminate.
    cbn [hd] in Hf. rewrite Hf, Hn. eexists; repeat split; cbn; try lia; assumption.
  - intros (p & Hp & Hr & Hu).
    destruct line as [|line0 [|line1 [|line2 rest]]]; try discriminate.
    cbn [hd]. destruct (fs !! line0) as [f|]; [|discriminate].
    destruct (py_int 10 line2) as [n|]; [|discriminate].
    injection Hp as <-. cbn in *. exists n. eauto.
Qed.

(** The second loop goes through exactly when every directive is
    accepted in turn; it then holds one descriptor per directive, in the
    order of the file. *)
Lemma add_directives_ok (fs : gmap string file) (total : Z) (todo : list (list string))
    (ps : list partition) (used : list Z) (st' : list partition * gset Z) :
  add_directives fs total (ps, list_to_set used) todo = Ok st' <->
  all_accepted fs total used todo
  /\ st' = (ps ++ omap (descriptor fs) todo,
            list_to_set (used ++ omap declared_num todo)).
Proof.
  revert ps used st'; induction todo as [|l rest IH]; intros ps used st';
    cbn [add_directives all_accepted omap list_omap].
  - rewrite !app_nil_r. split; [intros [= <-]; auto | intros [_ ->]; reflexivity].
  - split.
    + destruct (add_directive fs total (ps, list_to_set used) l) as [st1|] eqn:E;
        cbn [rbind]; [|discriminate].
      apply add_directive_ok in E as (p & Hp & Hr & Hu & ->).
      destruct (descriptor_declared _ _ _ Hp) as (Hn & _).
      replace ({[num p]} ∪ list_to_set used : gset Z)
        with (list_to_set (used ++ [num p]) : gset Z)
        by (rewrite list_to_set_app_L; set_solver).
      rewrite IH. intros [Hrest ->]. rewrite Hp, Hn. cbn [option_list].
      rewrite <- !app_assoc. repeat split; try assumption.
      apply accepted_descriptor. exists p. rewrite elem_of_list_to_set in Hu. auto.
    + intros [[Hacc Hrest] ->].
      apply accepted_descriptor in Hacc as (p & Hp & Hr & Hu).
      destruct (descriptor_declared _ _ _ Hp) as (Hn & _).
      assert (add_directive fs total (ps, list_to_set used) l
              = Ok (ps ++ [p], {[num p]} ∪ list_to_set used)) as ->.
      { apply add_directive_ok. exists p. rewrite elem_of_list_to_set. auto. }
      cbn [rbind].
      replace ({[num p]} ∪ list_to_set used : gset Z)
        with (list_to_set (used ++ [num p]) : gset Z)
        by (rewrite list_to_set_app_L; set_solver).
      rewrite IH. rewrite Hn in Hrest. cbn [option_list] in Hrest.
      rewrite Hp, Hn. cbn [option_list]. rewrite <- !app_assoc. auto.
Qed.

Lemma parse_input_ok (fs : gmap string file) (environ : gmap string string)
    (lines : list string) (parts : list partition) :
  parse_input fs environ lines = Ok parts <->
  all_accepted fs (Z.of_nat (length lines)) [] (parsed_lines environ lines)
  /\ parts = merge_sort num_le (omap (descriptor fs) (parsed_lines environ lines)).
Proof.
  unfold parse_input. change (∅ : gset Z) with (list_to_set [] : gset Z).
  destruct (add_directives fs (Z.of_nat (length lines)) ([], list_to_set [])
              (parsed_lines environ lines)) as [st|e] eqn:E; cbn [rbind].
  - apply add_directives_ok in E as [Hacc ->]. cbn [fst app]. split.
    + intros [= <-]. auto.
    + intros [_ ->]. reflexivity.
  - split; [discriminate |]. intros [Hacc _].
    assert (exists st, add_directives fs (Z.of_nat (length lines)) ([], list_to_set [])
                         (parsed_lines environ lines) = Ok st) as [st Hst].
    { eexists. apply add_directives_ok. split; [exact Hacc | reflexivity]. }
    congruence.
Qed.

Lemma parse_input_err (fs : gmap string file) (environ : gmap string string)
    (lines : list string) (e : exn) :
  parse_input fs environ lines = Err e <->
  add_directives fs (Z.of_nat (length lines)) ([], ∅) (parsed_lines environ lines) = Err e.
Proof.
  unfold parse_input.
  destruct (add_directives _ _ _ _); cbn [rbind]; split; congruence.
Qed.




(** The same claim fails on one line when the source file is missing:
    its size is looked up before its number is read. *)
Example out_of_range_missing_source :
  parse_input ∅ ∅ [line_of "a.img system 5"] = Err (FileNotFoundError "a.img").
Proof. vm_compute. reflexivity. Qed.

Lemma all_accepted_descriptors (fs : gmap string file) (total : Z) (todo : list (list string))
    (used : list Z) :
  all_accepted fs total used todo ->
  Forall (fun line => exists p, descriptor fs line = Some p /\ 0 <= num p <= total) todo
  /\ omap declared_num todo = num <$> omap (descriptor fs) todo
  /\ (NoDup used -> NoDup (used ++ omap declared_num todo)).
Proof.
  revert used; induction todo as [|l rest IH]; intros used; cbn [all_accepted].
  - intros _. cbn. rewrite app_nil_r. auto.
  - intros [Hacc Hrest].
    apply accepted_descriptor in Hacc as (p & Hp & Hr & Hu).
    destruct (descriptor_declared _ _ _ Hp) as (Hn & _).
    rewrite Hn in Hrest. cbn [option_list] in Hrest.
    destruct (IH _ Hrest) as (Hall & Hnums & Hnodup).
    cbn [omap list_omap]. rewrite Hp, Hn. cbn [fmap list_fmap]. split; [|split].
    + constructor; eauto.
    + f_equal. exact Hnums.
    + intros Hused. rewrite <- app_assoc in Hnodup. apply Hnodup.
      apply NoDup_app. repeat split; try assumption.
      * intros x Hx Hx'. apply list_elem_of_singleton in Hx'. subst x. contradiction.
      * apply NoDup_singleton.
Qed.

Global Instance num_le_total : Total num_le.
Proof. intros p q. unfold num_le. lia. Qed.

Global Instance num_le_trans : Transitive num_le.
Proof. intros p q r. unfold num_le. lia. Qed.

Lemma sorted_nodup_strict (l : list partition) :
  StronglySorted num_le l -> NoDup (num <$> l) -> StronglySorted Z.lt (num <$> l).
Proof.
  induction 1 as [|a l Hl IH Ha]; cbn [fmap list_fmap]; intros Hnd; constructor.
  - apply IH. now apply NoDup_cons in Hnd as [_ Hnd].
  - apply NoDup_cons in Hnd as [Hnotin _].
    apply Forall_fmap. rewrite Forall_forall in Ha |- *. intros q Hq.
    specialize (Ha q Hq). unfold num_le in Ha. cbn.
    assert (num a <> num q); [|lia].
    intros E. apply Hnotin. rewrite E. apply list_elem_of_fmap. eauto.
Qed.

(** What a manifest that parses parses to: one descriptor per directive,
    every number between 0 and the number of lines of the file, the
    numbers distinct, the list in strictly ascending order of number. *)
Lemma parse_input_sorted (fs : gmap string file) (environ : gmap string string)
    (lines : list string) (parts : list partition) :
  parse_input fs environ lines = Ok parts ->
  parts ≡ₚ omap (descriptor fs) (parsed_lines environ lines)
  /\ Forall (fun line => is_Some (descriptor fs line)) (parsed_lines environ lines)
  /\ Forall (fun p => 0 <= num p <= Z.of_nat (length lines)) parts
  /\ StronglySorted Z.lt (num <$> parts).
Proof.
  intros H. apply parse_input_ok in H as [Hacc ->].
  destruct (all_accepted_descriptors _ _ _ _ Hacc) as (Hall & Hnums & Hnodup).
  pose proof (merge_sort_Permutation num_le
                (omap (descriptor fs) (parsed_lines environ lines))) as Hperm.
  split; [exact Hperm |]. split; [|split].
  - eapply Forall_impl; [exact Hall |]. intros l (p & Hp & _). rewrite Hp. eauto.
  - rewrite Hperm. apply Forall_forall. intros p Hp.
    apply list_elem_of_omap in Hp as (l & Hl & Hp).
    rewrite Forall_forall in Hall. destruct (Hall l Hl) as (p' & Hp' & Hr).
    congruence.
  - apply sorted_nodup_strict.
    + apply StronglySorted_merge_sort; apply _.
    + rewrite Hperm, <- Hnums. apply (Hnodup (NoDup_nil_2)).
Qed.

(** ** Running the monad *)

Lemma bind_inv {A B} (m : M A) (k : A -> M B) (s s' : state) (r : result B) :
  bind m k s = (r, s') ->
  (exists a s1, m s = (Ok a, s1) /\ k a s1 = (r, s'))
  \/ (exists e, m s = (Err e, s') /\ r = Err e).
Proof.
  unfold bind. destruct (m s) as [[a|e] s1]; intros H.
  - left. eauto.
  - right. injection H as <- <-. eauto.
Qed.

Lemma bind_ok {A B} (m : M A) (k : A -> M B) (s s' : state) (b : B) :
  bind m k s = (Ok b, s') ->
  exists a s1, m s = (Ok a, s1) /\ k a s1 = (Ok b, s').
Proof.
  intros H. apply bind_inv in H as [H | (e & _ & [=])]. exact H.
Qed.

Lemma with_fs_ok {A} (f : gmap string file -> result A) (s s' : state) (a : A) :
  with_fs f s = (Ok a, s') -> s' = s /\ f (st_fs s) = Ok a.
Proof. unfold with_fs. intros [= H <-]. auto. Qed.

Lemma ret_ok {A} (a b : A) (s s' : state) : ret a s = (Ok b, s') -> b = a /\ s' = s.
Proof. unfold ret. intros [= <- <-]. auto. Qed.

Lemma run_pair {A} (m : M A) (s : state) (r : result A) :
  fst (m s) = r -> m s = (r, snd (m s)).
Proof. destruct (m s); cbn; congruence. Qed.

(** Peels the first step off a computation that returned. *)
Ltac step H :=
  let a := fresh "a" in
  let s1 := fresh "s" in
  let H1 := fresh "Hstep" in
  apply bind_ok in H as (a & s1 & H1 & H).

(** What a command that exited with status 0 did. *)
Lemma shell_command_ok (h : host) (argv : list string) (s s' : state) (u : unit) :
  shell_command h argv s = (Ok u, s') ->
  exists prog args t fs',
    argv = prog :: args /\ programs h !! prog = Some t
    /\ run_tool h t (st_fs s) args = Some fs'
    /\ s' = State fs' (st_tmp_names s) (st_fds s) (st_trace s ++ [argv]) (st_tmp_made s).
Proof.
  unfold shell_command. destruct u, argv as [|prog args]; [discriminate |].
  destruct (programs h !! prog) as [t|] eqn:Ep; [|discriminate].
  destruct (faulty h (prog :: args)); [discriminate |].
  cbn [log_command st_fs]. destruct (run_tool h t (st_fs s) args) as [fs'|] eqn:E;
    [|discriminate].
  intros [= <-]. exists prog, args, t, fs'. auto.
Qed.

(** Whatever happens, a command is logged and touches nothing but files. *)
Lemma shell_command_frame (h : host) (argv : list string) (s s' : state) (r : result unit) :
  shell_command h argv s = (r, s') ->
  st_trace s' = st_trace s ++ [argv] /\ st_tmp_names s' = st_tmp_names s
  /\ st_fds s' = st_fds s /\ st_tmp_made s' = st_tmp_made s.
Proof.
  unfold shell_command. destruct argv as [|prog args]; [intros [= <- <-]; auto |].
  destruct (programs h !! prog) as [t|]; [|intros [= <- <-]; auto].
  destruct (faulty h (prog :: args)); [intros [= <- <-]; auto |].
  destruct (run_tool h t _ args); intros [= <- <-]; auto.
Qed.

Lemma mkstemp_ok (s s' : state) (d : nat) (name : string) :
  mkstemp s = (Ok (d, name), s') ->
  st_fs s !! name = None /\ (d ∉ st_fds s)
  /\ s' = State (<[name := empty_file]> (st_fs s))
                (st_tmp_names s') (d :: st_fds s) (st_trace s)
                (st_tmp_made s ++ [(d, name)]).
Proof.
  unfold mkstemp.
  destruct (pick_tmp (st_fs s) (st_tmp_names s)) as [[n rest]|] eqn:E; [|discriminate].
  intros [= <- <- <-]. cbn. split; [|split; [|reflexivity]].
  - revert E. induction (st_tmp_names s) as [|c cs IH]; cbn; [discriminate |].
    unfold exists_ at 1. destruct (st_fs s !! c) eqn:Ec; [exact IH |].
    intros [= <- _]. exact Ec.
  - unfold fresh_fd. intros Hin.
    assert (forall l x, x ∈ l -> (x <= foldr Nat.max 0 l)%nat) as Hmax.
    { induction l as [|y l IH]; intros x Hx; [inversion Hx |].
      apply elem_of_cons in Hx as [-> | Hx]; cbn; [lia |].
      specialize (IH x Hx). lia. }
    specialize (Hmax _ _ Hin). lia.
Qed.

Lemma os_close_ok (d : nat) (s s' : state) (u : unit) :
  os_close d s = (Ok u, s') ->
  d ∈ st_fds s
  /\ s' = State (st_fs s) (st_tmp_names s) (filter (fun x => x ≠ d) (st_fds s))
                (st_trace s) (st_tmp_made s).
Proof.
  unfold os_close. destruct (bool_decide_reflect (d ∈ st_fds s)); [|discriminate].
  intros [= <-]. auto.
Qed.

Lemma os_remove_ok (name : string) (s s' : state) (u : unit) :
  os_remove name s = (Ok u, s') ->
  is_Some (st_fs s !! name) /\ s' = set_fs (delete name (st_fs s)) s.
Proof.
  unfold os_remove, exists_. destruct (st_fs s !! name) eqn:E; [|discriminate].
  intros [= <-]. eauto.
Qed.

Lemma for_each_cons_ok {A B} (body : A -> M B) (a : A) (l : list A) (s s' : state)
    (bs : list B) :
  for_each body (a :: l) s = (Ok bs, s') ->
  exists b bs' s1, body a s = (Ok b, s1) /\ for_each body l s1 = (Ok bs', s')
                   /\ bs = b :: bs'.
Proof.
  cbn [for_each]. intros H. step H. step H. apply ret_ok in H as [-> ->]. eauto 6.
Qed.

Lemma for_each_nil_ok {A B} (body : A -> M B) (s s' : state) (bs : list B) :
  for_each body [] s = (Ok bs, s') -> bs = [] /\ s' = s.
Proof. cbn [for_each]. apply ret_ok. Qed.

(** ** The partition table *)

Lemma item_ok (key : string) (v : option string) (s s' : state) (x : string) :
  item key v s = (Ok x, s') -> v = Some x /\ s' = s.
Proof. destruct v; cbn; [intros [= <- <-]; auto | discriminate]. Qed.

Lemma add_partition_ok (h : host) (p : partition) (out : string) (s s' : state) (u : unit) :
  add_partition h p out s = (Ok u, s') ->
  exists a b, start p = Some a /\ end_ p = Some b
              /\ shell_command h (add_partition_argv h (num p) (label p) a b out) s
                 = (Ok u, s').
Proof.
  unfold add_partition. intros H. step H. step H.
  apply item_ok in Hstep as [Ha ->], Hstep0 as [Hb ->]. eauto.
Qed.

Lemma add_and_clean_trace (h : host) (out : string) (p : partition) (s s' : state)
    (u : unit) :
  add_and_clean h out p s = (Ok u, s') ->
  exists a b, start p = Some a /\ end_ p = Some b
              /\ st_trace s' = st_trace s
                   ++ [add_partition_argv h (num p) (label p) a b out].
Proof.
  unfold add_and_clean. intros H. step H.
  apply add_partition_ok in Hstep as (a' & b & Ha & Hb & Hrun).
  apply shell_command_frame in Hrun as (Ht & _).
  exists a', b. repeat split; try assumption.
  destruct (fd p) as [d|].
  - step H. apply os_close_ok in Hstep as [_ ->].
    apply os_remove_ok in H as [_ ->]. exact Ht.
  - apply ret_ok in H as [_ ->]. exact Ht.
Qed.

(** The second loop logs one [sgdisk] invocation per dictionary, in the
    order of the list. *)
Lemma table_loop_trace (h : host) (out : string) (placed : list partition) (s s' : state)
    (us : list unit) :
  for_each (add_and_clean h out) placed s = (Ok us, s') ->
  exists entries,
    st_trace s' = st_trace s ++ entries
    /\ Forall2 (fun p argv => exists a b,
                  start p = Some a /\ end_ p = Some b
                  /\ argv = add_partition_argv h (num p) (label p) a b out)
               placed entries.
Proof.
  revert s us; induction placed as [|p rest IH]; intros s us H.
  - apply for_each_nil_ok in H as [_ ->]. exists []. rewrite app_nil_r. auto.
  - apply for_each_cons_ok in H as (u & us' & s1 & Hp & Hrest & _).
    apply add_and_clean_trace in Hp as (a & b & Ha & Hb & Ht).
    destruct (IH _ _ Hrest) as (entries & Ht' & Hall).
    exists (add_partition_argv h (num p) (label p) a b out :: entries). split.
    + rewrite Ht', Ht, <- app_assoc. reflexivity.
    + constructor; eauto.
Qed.

(** ** The first loop *)

Lemma unsparse_partition_fields (h : host) (p p' : partition) (s s' : state) :
  unsparse_partition h p s = (Ok p', s') ->
  num p' = num p /\ label p' = label p /\ start p' = start p /\ end_ p' = end_ p
  /\ sizeByMb p' = sizeByMb p.
Proof.
  unfold unsparse_partition. intros H. step H. step H.
  apply ret_ok in H as [-> _]. cbn. auto.
Qed.

Lemma before_copy_fields (h : host) (out : string) (p p' : partition) (off : Z)
    (s s' : state) :
  before_copy h out p s = (Ok (p', off), s') ->
  num p' = num p /\ label p' = label p /\ sizeByMb p' = sizeByMb p
  /\ getsize (st_fs s) out = Ok off
  /\ start p' = Some (py_str (off / 512)).
Proof.
  unfold before_copy. intros H. step H. apply with_fs_ok in Hstep as [-> Hsize].
  step H. apply with_fs_ok in Hstep as [-> _]. step H.
  apply ret_ok in H as [[= -> ->] _].
  destruct a0.
  - apply unsparse_partition_fields in Hstep as (-> & -> & -> & _ & ->). cbn. auto.
  - apply ret_ok in Hstep as [-> _]. cbn. auto.
Qed.

Lemma copy_and_close_fields (h : host) (out : string) (p p' : partition) (off : Z)
    (s s' : state) :
  copy_and_close h out p off s = (Ok p', s') ->
  write_partition h p out (off / 1024 / 1024) s = (Ok tt, s')
  /\ exists size, getsize (st_fs s') out = Ok size /\ p' = set_end (py_str (size / 512 - 1)) p.
Proof.
  unfold copy_and_close. intros H. step H. destruct a.
  step H. apply with_fs_ok in Hstep0 as [-> Hsize].
  apply ret_ok in H as [-> ->]. eauto.
Qed.

Lemma compose_one_fields (h : host) (out : string) (p p' : partition) (s s' : state) :
  compose_one h out p s = (Ok p', s') ->
  num p' = num p /\ label p' = label p /\ sizeByMb p' = sizeByMb p
  /\ is_Some (start p') /\ is_Some (end_ p').
Proof.
  unfold compose_one. intros H. step H. destruct a as [p1 off].
  apply before_copy_fields in Hstep as (Hn & Hl & Hs & _ & Hst).
  apply copy_and_close_fields in H as (_ & size & _ & ->). cbn in *.
  rewrite Hst. repeat split; eauto.
Qed.

Lemma compose_loop_fields (h : host) (out : string) (parts placed : list partition)
    (s s' : state) :
  for_each (compose_one h out) parts s = (Ok placed, s') ->
  Forall2 (fun p q => num q = num p /\ label q = label p) parts placed.
Proof.
  revert s placed; induction parts as [|p rest IH]; intros s placed H.
  - apply for_each_nil_ok in H as [-> _]. constructor.
  - apply for_each_cons_ok in H as (q & qs & s1 & Hp & Hrest & ->).
    apply compose_one_fields in Hp as (Hn & Hl & _). constructor; eauto.
Qed.

(** ** The three paths *)

(** The steps of a general path that returned. *)
Lemma general_path_ok (h : host) (out : string) (parts placed : list partition)
    (s s' : state) :
  general_path h out parts s = (Ok placed, s') ->
  exists s1 s2 s3 s4 size us,
    shell_command h ["dd"; "if=/dev/zero"; "of=" +:+ out; "ibs=1024k"; "count=1"]%string s
    = (Ok tt, s1)
    /\ for_each (compose_one h out) parts s1 = (Ok placed, s2)
    /\ getsize (st_fs s2) out = Ok size
    /\ shell_command h ["dd"; "if=/dev/zero"; "of=" +:+ out; "conv=notrunc"; "bs=1024k";
                        "count=1"; "seek=" +:+ py_str (size / 1024 / 1024)]%string s2
       = (Ok tt, s3)
    /\ clear_partition_table h out s3 = (Ok tt, s4)
    /\ for_each (add_and_clean h out) placed s4 = (Ok us, s').
Proof.
  unfold general_path. intros H. step H. destruct a. step H. step H.
  apply with_fs_ok in Hstep1 as [-> Hsize]. step H. destruct a1. step H. destruct a1.
  step H. apply ret_ok in H as [-> ->]. eauto 12.
Qed.

Lemma shortcut_path_exits (h : host) (out : string) (p0 p1 : partition) (s s' : state)
    (u : unit) :
  shortcut_path h out p0 p1 s <> (Ok u, s').
Proof.
  unfold shortcut_path. intros H. step H. step H. discriminate.
Qed.

Lemma size_mb_ok (p : partition) (s s' : state) (n : Z) :
  size_mb p s = (Ok n, s') -> py_int 10 (sizeByMb p) = Some n /\ s' = s.
Proof.
  unfold size_mb. destruct (py_int 10 (sizeByMb p)); cbn; [|discriminate].
  intros [= <- <-]. auto.
Qed.

Lemma template_path_exits (h : host) (out : string) (p0 p1 : partition) (s s' : state)
    (u : unit) :
  template_path h out p0 p1 s <> (Ok u, s').
Proof.
  unfold template_path. intros H. do 7 step H. discriminate.
Qed.

(** A run of [compose] that returned took the general path. *)
Lemma compose_ok (h : host) (out : string) (parts : list partition) (s s' : state)
    (u : unit) :
  compose h out parts s = (Ok u, s') ->
  exists placed, general_path h out parts s = (Ok placed, s').
Proof.
  unfold compose. intros H. step H. apply with_fs_ok in Hstep as [-> _].
  assert (forall s0, (do_ general_path h out parts; ret tt) s0 = (Ok u, s') ->
                     exists placed, general_path h out parts s0 = (Ok placed, s')) as Hgen.
  { intros s0 H0. step H0. apply ret_ok in H0 as [_ ->]. eauto. }
  destruct parts as [|p0 [|p1 [|p2 rest]]]; try (apply Hgen; exact H).
  destruct a.
  - exfalso. eapply shortcut_path_exits; exact H.
  - step H. apply with_fs_ok in Hstep as [-> _]. step H.
    destruct a.
    + exfalso. eapply template_path_exits; exact Hstep.
    + apply ret_ok in Hstep as [_ ->]. apply Hgen. exact H.
Qed.

(** A run of [main] that returned read the manifest, parsed it, and took
    the general path on what it parsed. *)
Lemma main_ok (h : host) (arg_input arg_output : option string) (s s' : state) (u : unit) :
  main h arg_input arg_output s = (Ok u, s') ->
  exists s1 lines parts placed,
    shell_command h ["rm"; "-rf"; output_name h arg_output +:+ ".qcow2"]%string s
    = (Ok tt, s1)
    /\ readlines (st_fs s1) (config_name arg_input) = Ok lines
    /\ parse_input (st_fs s1) (environ h) lines = Ok parts
    /\ general_path h (output_name h arg_output) parts s1 = (Ok placed, s').
Proof.
  unfold main. intros H. step H. destruct a. step H.
  apply with_fs_ok in Hstep0 as [-> _].
  destruct (negb a); [discriminate |].
  step H. apply with_fs_ok in Hstep0 as [-> Hlines].
  step H. apply with_fs_ok in Hstep0 as [-> Hparse].
  apply compose_ok in H as [placed H]. eauto 8.
Qed.

Lemma parse_input_declared (fs : gmap string file) (environ : gmap string string)
    (lines : list string) (parts : list partition) (n : Z) (l : string) :
  parse_input fs environ lines = Ok parts ->
  (exists p, p ∈ parts /\ num p = n /\ label p = l) <->
  (exists line, line ∈ parsed_lines environ lines /\ declared_num line = Some n
                /\ declared_label line = l).
Proof.
  intros H. apply parse_input_sorted in H as (Hperm & Hall & _). split.
  - intros (p & Hp & <- & <-). rewrite Hperm in Hp.
    apply list_elem_of_omap in Hp as (line & Hline & Hd).
    apply descriptor_declared in Hd as (Hn & _ & _ & Hl). eauto.
  - intros (line & Hline & Hn & <-).
    rewrite Forall_forall in Hall. destruct (Hall line Hline) as [p Hp].
    exists p. rewrite Hperm. split.
    + apply list_elem_of_omap. eauto.
    + apply descriptor_declared in Hp as (Hn' & _ & _ & Hl). split; congruence.
Qed.

(** C1.  When [main] returns (the manifest parsed, the general path was
    taken and every program succeeded), the log of started programs ends
    with the [sgdisk --clear] of the output followed by exactly one
    [sgdisk] invocation per partition of the manifest, in strictly
    ascending order of partition number; each carries the partition's
    number, the sector bounds the first loop recorded for it, type code
    8300 and its label as written in the manifest.  The numbers and labels
    so written are those the manifest declares. *)
Theorem main_writes_one_entry_per_partition (h : host)
    (arg_input arg_output : option string) (s s' : state) :
  main h arg_input arg_output s = (Ok tt, s') ->
  let out := output_name h arg_output in
  exists s0 lines parts placed s1 s2 before entries,
    shell_command h ["rm"; "-rf"; out +:+ ".qcow2"]%string s = (Ok tt, s0)
    /\ readlines (st_fs s0) (config_name arg_input) = Ok lines
    /\ parse_input (st_fs s0) (environ h) lines = Ok parts
    /\ general_path h out parts s0 = (Ok placed, s')
    /\ for_each (compose_one h out) parts s1 = (Ok placed, s2)
    /\ st_trace s' = before ++ [sgdisk_name h; "--clear"%string; out] :: entries
    /\ Forall2 (fun q argv => exists a b,
                  start q = Some a /\ end_ q = Some b
                  /\ argv = [sgdisk_name h;
                             "--new=" +:+ py_str (num q) +:+ ":" +:+ a +:+ ":" +:+ b;
                             "--type=" +:+ py_str (num q) +:+ ":8300";
                             "--change-name=" +:+ py_str (num q) +:+ ":" +:+ label q;
                             out]%string)
               placed entries
    /\ Forall2 (fun p q => num q = num p /\ label q = label p) parts placed
    /\ StronglySorted Z.lt (num <$> parts)
    /\ forall n l,
         (exists p, p ∈ parts /\ num p = n /\ label p = l) <->
         (exists line, line ∈ parsed_lines (environ h) lines
                       /\ declared_num line = Some n /\ declared_label line = l).
Proof.
  intros H out. apply main_ok in H as (s0 & lines & parts & placed & Hrm & Hl & Hp & H).
  pose proof H as Hgen.
  apply general_path_ok in H as (s1 & s2 & s3 & s4 & size & us & _ & Hloop & _ & _ & Hc & Ht).
  fold out in Hloop, Hc, Ht, Hgen, Hrm. unfold clear_partition_table in Hc.
  apply shell_command_frame in Hc as (Hc & _).
  apply table_loop_trace in Ht as (entries & Ht & Hentries).
  exists s0, lines, parts, placed, s1, s2, (st_trace s3), entries.
  split; [exact Hrm |]. split; [exact Hl |]. split; [exact Hp |]. split; [exact Hgen |].
  split; [exact Hloop |].
  split; [rewrite Ht, Hc, <- app_assoc; reflexivity |].
  split; [exact Hentries |].
  split; [eapply compose_loop_fields; exact Hloop |].
  split; [apply parse_input_sorted in Hp; tauto |].
  intros n l. exact (parse_input_declared _ _ _ _ n l Hp).
Qed.

(** The programs the demonstration run starts, in order. *)
Example demo_trace :
  main demo_host None None demo_state = (Ok tt, snd (main demo_host None None demo_state))
  /\ st_trace (snd (main demo_host None None demo_state))
     = [["rm"; "-rf"; "/out/combined.img.qcow2"];
        ["dd"; "if=/dev/zero"; "of=/out/combined.img"; "ibs=1024k"; "count=1"];
        ["simg2img"; "a.img"; "/tmp/tmp1"];
        ["dd"; "if=/tmp/tmp1"; "of=/out/combined.img"; "conv=notrunc,sync";
         "ibs=1024k"; "obs=1024k"; "seek=1"];
        ["dd"; "if=b.img"; "of=/out/combined.img"; "conv=notrunc,sync";
         "ibs=1024k"; "obs=1024k"; "seek=2"];
        ["dd"; "if=/dev/zero"; "of=/out/combined.img"; "conv=notrunc"; "bs=1024k";
         "count=1"; "seek=3"];
        ["sgdisk"; "--clear"; "/out/combined.img"];
        ["sgdisk"; "--new=1:2048:4095"; "--type=1:8300"; "--change-name=1:system";
         "/out/combined.img"];
        ["sgdisk"; "--new=2:4096:6143"; "--type=2:8300"; "--change-name=2:vendor";
         "/out/combined.img"]]%string.
Proof. split; [apply run_pair |]; vm_compute; reflexivity. Qed.

Lemma main_writes_one_entry_per_partition_witness :
  exists s',
    main demo_host None None demo_state = (Ok tt, s')
    /\ exists before entries,
         st_trace s' = before ++ ["sgdisk"; "--clear"; "/out/combined.img"]%string :: entries.
Proof.
  destruct demo_trace as [Hrun _]. revert Hrun.
  generalize (snd (main demo_host None None demo_state)). intros s' Hrun.
  exists s'. split; [exact Hrun |].
  destruct (main_writes_one_entry_per_partition _ _ _ _ _ Hrun)
    as (s0 & lines & parts & placed & s1 & s2 & before & entries
        & _ & _ & _ & _ & _ & Ht & _).
  assert (sgdisk_name demo_host = "sgdisk"%string) as E1 by (vm_compute; reflexivity).
  assert (output_name demo_host None = "/out/combined.img"%string) as E2
    by (vm_compute; reflexivity).
  rewrite E1, E2 in Ht. exists before, entries. exact Ht.
Defined.

(** ** The unsparse step *)

(** What [unsparse_partition] did when it returned, on a host where the
    name from the environment starts [simg2img]: one new temporary file,
    holding the decoded image, and one new open descriptor. *)
Lemma unsparse_partition_ok (h : host) (p p' : partition) (s s' : state) :
  programs h !! simg2img_name h = Some ToolSimg2img ->
  unsparse_partition h p s = (Ok p', s') ->
  exists d temp src raw,
    st_fs s !! temp = None /\ (d ∉ st_fds s)
    /\ <[temp := empty_file]> (st_fs s) !! path p = Some src
    /\ sparse_decode h src = Some raw
    /\ p' = set_path temp (set_fd d p)
    /\ st_fs s' = <[temp := raw]> (st_fs s)
    /\ st_fds s' = d :: st_fds s
    /\ st_tmp_made s' = st_tmp_made s ++ [(d, temp)]
    /\ st_trace s' = st_trace s ++ [[simg2img_name h; path p; temp]].
Proof.
  intros Htool. unfold unsparse_partition. intros H. step H. destruct a as [d temp].
  apply mkstemp_ok in Hstep as (Hfresh & Hd & Hs0). step H. destruct a.
  apply ret_ok in H as [-> ->]. cbn [fst snd set_fd path] in Hstep.
  apply shell_command_ok in Hstep as (prog & args & t & fs' & [= <- <-] & Hp & Hrun & ->).
  rewrite Htool in Hp. injection Hp as <-. rewrite Hs0 in Hrun.
  cbn [run_tool run_simg2img st_fs] in Hrun.
  destruct (<[temp:=empty_file]> (st_fs s) !! path p) as [src|] eqn:Esrc; [|discriminate].
  destruct (sparse_decode h src) as [raw|] eqn:Eraw; [|discriminate].
  injection Hrun as <-. exists d, temp, src, raw. rewrite Hs0. cbn.
  rewrite insert_insert_eq. repeat split; auto.
Qed.

(** The unsparse step leaves every file that existed as it was. *)
Lemma unsparse_partition_keeps (h : host) (p p' : partition) (s s' : state) (name : string) :
  programs h !! simg2img_name h = Some ToolSimg2img ->
  unsparse_partition h p s = (Ok p', s') ->
  is_Some (st_fs s !! name) ->
  st_fs s' !! name = st_fs s !! name.
Proof.
  intros Htool H [f Hf].
  apply (unsparse_partition_ok _ _ _ _ _ Htool) in H
    as (d & temp & src & raw & Hfresh & _ & _ & _ & _ & -> & _).
  apply lookup_insert_ne. congruence.
Qed.

Lemma getsize_ok (fs : gmap string file) (name : string) (n : Z) :
  getsize fs name = Ok n <-> exists f, fs !! name = Some f /\ n = Z.of_N (fsize f).
Proof.
  unfold getsize. destruct (fs !! name) as [f|]; split.
  - intros [= <-]. eauto.
  - intros (f' & [= <-] & ->). reflexivity.
  - discriminate.
  - intros (f' & [=] & _).
Qed.

(** Lines 162-166 do not change the output file. *)
Lemma before_copy_keeps_output (h : host) (out : string) (p p1 : partition) (off : Z)
    (s s1 : state) :
  programs h !! simg2img_name h = Some ToolSimg2img ->
  before_copy h out p s = (Ok (p1, off), s1) ->
  st_fs s1 !! out = st_fs s !! out.
Proof.
  intros Htool. unfold before_copy. intros H. step H.
  apply with_fs_ok in Hstep as [-> Hsize]. apply getsize_ok in Hsize as (f & Hf & _).
  step H. apply with_fs_ok in Hstep as [-> _]. step H.
  apply ret_ok in H as [_ ->]. destruct a0.
  - eapply unsparse_partition_keeps; eauto.
  - apply ret_ok in Hstep as [_ ->]. reflexivity.
Qed.

(** C2.  For a partition the first loop went through, on a host where
    the name from the environment starts [simg2img]: [start] is the text
    of the size of the output file just before the copy divided by 512,
    and [end] is the text of its size just after the copy divided by 512,
    minus one; both divisions round down. *)
Theorem compose_one_sectors (h : host) (out : string) (p p' : partition) (s s' : state) :
  programs h !! simg2img_name h = Some ToolSimg2img ->
  compose_one h out p s = (Ok p', s') ->
  exists p1 off s1 size_before size_after,
    before_copy h out p s = (Ok (p1, off), s1)
    /\ write_partition h p1 out (off / 1024 / 1024) s1 = (Ok tt, s')
    /\ getsize (st_fs s1) out = Ok size_before
    /\ getsize (st_fs s') out = Ok size_after
    /\ start p' = Some (py_str (size_before / 512))
    /\ end_ p' = Some (py_str (size_after / 512 - 1)).
Proof.
  intros Htool. unfold compose_one. intros H. step H. destruct a as [p1 off].
  cbn [fst snd] in H.
  pose proof (before_copy_keeps_output _ _ _ _ _ _ _ Htool Hstep) as Hout.
  pose proof (before_copy_fields _ _ _ _ _ _ _ Hstep) as (_ & _ & _ & Hsize & Hstart).
  apply copy_and_close_fields in H as (Hw & size & Hafter & ->).
  exists p1, off, s0, off, size. repeat split; try assumption.
  unfold getsize in *. rewrite Hout. exact Hsize.
Qed.

Example demo_compose_one :
  fst (compose_one demo_host "/out/combined.img" demo_system demo_padded)
  = Ok (Partition "/tmp/tmp1" "system" "1" 1 (Some "2048") (Some "4095") (Some 3%nat)).
Proof. vm_compute. reflexivity. Qed.

Lemma compose_one_sectors_witness :
  exists p' s' size_before size_after,
    compose_one demo_host "/out/combined.img" demo_system demo_padded = (Ok p', s')
    /\ start p' = Some (py_str (size_before / 512))
    /\ end_ p' = Some (py_str (size_after / 512 - 1))
    /\ start p' = Some "2048"%string /\ end_ p' = Some "4095"%string.
Proof.
  pose proof (run_pair _ _ _ demo_compose_one) as Hrun. revert Hrun.
  generalize (snd (compose_one demo_host "/out/combined.img" demo_system demo_padded)).
  intros s' Hrun.
  destruct (compose_one_sectors demo_host _ _ _ _ _ eq_refl Hrun)
    as (p1 & off & s1 & size_before & size_after & _ & _ & _ & _ & Hs & He).
  eexists _, s', size_before, size_after. split; [exact Hrun |].
  split; [exact Hs |]. split; [exact He |]. split; reflexivity.
Defined.

(** ** What [dd] does on the argument vectors of the script *)

Lemma opt_num_py_str (key : string) (args : list string) (k : Z) :
  operand key args = Some (py_str k) -> 0 <= k ->
  opt_num key args = Some (Some (Z.to_N k)).
Proof.
  intros H Hk. unfold opt_num. now rewrite H, parse_num_py_str.
Qed.

(** A copy of a whole file in blocks of one MiB with [conv=notrunc,sync],
    [k] blocks into the output. *)
Lemma run_dd_copy (fs fs' : gmap string file) (args : list string) (src out : string) (k : Z) :
  block_size "ibs" args = Some MiB -> block_size "obs" args = Some MiB ->
  opt_num "count" args = Some None -> operand "seek" args = Some (py_str k) ->
  operand "of" args = Some out -> operand "if" args = Some src ->
  has_conv "sync" args = true -> has_conv "notrunc" args = true ->
  0 <= k ->
  run_dd fs args = Some fs' ->
  src <> out
  /\ exists f, fs !! src = Some f
     /\ fs' = <[out := dd_output (default empty_file (fs !! out)) true
                                 (Z.to_N k * MiB) (padded f) (zero_extended f)]> fs.
Proof.
  intros Hi Ho Hc Hs Hof Hif Hsync Hnt Hk. unfold run_dd, dd_input.
  rewrite Hi, Ho, Hc, (opt_num_py_str _ _ _ Hs Hk), Hof, Hif, Hsync, Hnt.
  change ((MiB =? 0) || (MiB =? 0))%N with false. cbv iota.
  destruct (bool_decide_reflect (Some src = Some out)) as [|Hne]; [discriminate |].
  destruct (String.eqb src "/dev/zero"); [discriminate |].
  destruct (fs !! src) as [f|]; [|discriminate].
  intros [= <-]. split; [congruence |]. exists f. split; reflexivity.
Qed.

(** The first padding: the output becomes one MiB of zeros. *)
Lemma run_dd_pad_first (fs fs' : gmap string file) (out : string) :
  run_dd fs ["if=/dev/zero"; "of=" +:+ out; "ibs=1024k"; "count=1"]%string = Some fs' ->
  fs' = <[out := dd_output (default empty_file (fs !! out)) false 0 MiB (fun _ => x00)]> fs.
Proof.
  unfold run_dd, dd_input.
  change (block_size "ibs" _) with (Some MiB). change (block_size "obs" _) with (Some 512%N).
  change (opt_num "count" _) with (Some (Some 1%N)).
  change (opt_num "seek" _) with (@Some (option N) None).
  change (operand "of" _) with (Some out).
  change (operand "if" _) with (Some "/dev/zero"%string).
  change ((MiB =? 0) || (512 =? 0))%N with false. cbv iota.
  destruct (bool_decide _); [discriminate |].
  change (String.eqb "/dev/zero" "/dev/zero") with true. cbv iota.
  change (has_conv "notrunc" _) with false.
  intros [= <-]. reflexivity.
Qed.

(** The last padding: one MiB of zeros, [k] blocks into the output. *)
Lemma run_dd_pad_last (fs fs' : gmap string file) (out : string) (k : Z) :
  0 <= k ->
  run_dd fs ["if=/dev/zero"; "of=" +:+ out; "conv=notrunc"; "bs=1024k"; "count=1";
             "seek=" +:+ py_str k]%string = Some fs' ->
  fs' = <[out := dd_output (default empty_file (fs !! out)) true (Z.to_N k * MiB) MiB
                           (fun _ => x00)]> fs.
Proof.
  intros Hk. unfold run_dd, dd_input.
  change (block_size "ibs" _) with (Some MiB). change (block_size "obs" _) with (Some MiB).
  change (opt_num "count" _) with (Some (Some 1%N)).
  match goal with
  | |- context [opt_num "seek" ?a] =>
      rewrite (opt_num_py_str "seek" a k (eq_refl (Some (py_str k))) Hk)
  end.
  change (operand "of" _) with (Some out).
  change (operand "if" _) with (Some "/dev/zero"%string).
  change ((MiB =? 0) || (MiB =? 0))%N with false. cbv iota.
  destruct (bool_decide _); [discriminate |].
  change (String.eqb "/dev/zero" "/dev/zero") with true. cbv iota.
  change (has_conv "notrunc" _) with true.
  intros [= <-]. reflexivity.
Qed.

(** ** Sizes and bytes after a copy *)

Lemma padded_spec (f : file) :
  exists blocks : N, padded f = (blocks * MiB)%N
                     /\ (fsize f <= padded f)%N
                     /\ (fsize f = 0 -> blocks = 0)%N /\ (0 < fsize f -> 1 <= blocks)%N.
Proof.
  unfold padded. exists ((fsize f + MiB - 1) / MiB)%N. unfold MiB.
  pose proof (N.Div0.div_mod (fsize f + 1048576 - 1) 1048576) as Hdm.
  pose proof (N.mod_lt (fsize f + 1048576 - 1) 1048576 ltac:(lia)) as Hm.
  repeat split; try lia.
  - intros ->. reflexivity.
Qed.

Lemma dd_output_size (old : file) (off len : N) (data : N -> byte) :
  fsize (dd_output old true off len data)
  = if (len =? 0)%N then fsize old else N.max (fsize old) (off + len).
Proof. reflexivity. Qed.

Lemma dd_output_inside (old : file) (notrunc : bool) (off len i : N) (data : N -> byte) :
  (off <= i < off + len)%N ->
  fdata (dd_output old notrunc off len data) i = data (i - off)%N.
Proof.
  intros H. cbn [dd_output fdata].
  destruct (N.leb_spec off i), (N.ltb_spec i (off + len)); try lia. reflexivity.
Qed.

Lemma dd_output_below (old : file) (off len i : N) (data : N -> byte) :
  (i < off)%N -> (i < fsize old)%N ->
  fdata (dd_output old true off len data) i = fdata old i.
Proof.
  intros H1 H2. cbn [dd_output fdata].
  destruct (N.leb_spec off i), (N.ltb_spec i (fsize old)); try lia. reflexivity.
Qed.

(** ** One pass of the first loop *)

(** The copy of one partition, on a host where [dd] is [dd]. *)
Lemma write_partition_ok (h : host) (p : partition) (out : string) (k : Z) (s s' : state)
    (u : unit) :
  programs h !! "dd"%string = Some ToolDd ->
  0 <= k ->
  write_partition h p out k s = (Ok u, s') ->
  path p <> out
  /\ exists f, st_fs s !! path p = Some f
     /\ st_fs s' = <[out := dd_output (default empty_file (st_fs s !! out)) true
                                      (Z.to_N k * MiB) (padded f) (zero_extended f)]> (st_fs s)
     /\ st_fds s' = st_fds s /\ st_tmp_made s' = st_tmp_made s.
Proof.
  intros Hdd Hk. unfold write_partition. intros H.
  apply shell_command_ok in H as (prog & args & t & fs' & [= <- <-] & Hp & Hrun & ->).
  rewrite Hdd in Hp. injection Hp as <-. cbn [run_tool] in Hrun.
  apply (run_dd_copy _ _ _ (path p) out k) in Hrun as (Hne & f & Hf & ->);
    try reflexivity; try assumption.
  split; [exact Hne |]. exists f. auto.
Qed.

(** Lines 162-166 in full, on a host where the name from the environment
    starts [simg2img]. *)
Lemma before_copy_inv (h : host) (out : string) (p p1 : partition) (off : Z) (s s1 : state) :
  programs h !! simg2img_name h = Some ToolSimg2img ->
  before_copy h out p s = (Ok (p1, off), s1) ->
  getsize (st_fs s) out = Ok off
  /\ ((check_sparse (st_fs s) (path p) = Ok false
       /\ p1 = set_start (py_str (off / 512)) p /\ s1 = s)
      \/ (check_sparse (st_fs s) (path p) = Ok true
          /\ exists d temp src raw,
               st_fs s !! temp = None /\ (d ∉ st_fds s)
               /\ st_fs s !! path p = Some src /\ sparse_decode h src = Some raw
               /\ p1 = set_path temp (set_fd d (set_start (py_str (off / 512)) p))
               /\ st_fs s1 = <[temp := raw]> (st_fs s)
               /\ st_fds s1 = d :: st_fds s
               /\ st_tmp_made s1 = st_tmp_made s ++ [(d, temp)])).
Proof.
  intros Htool. unfold before_copy. intros H. step H.
  apply with_fs_ok in Hstep as [-> Hsize]. step H.
  apply with_fs_ok in Hstep as [-> Hsp]. cbn [path set_start] in Hsp. step H.
  apply ret_ok in H as [[= -> ->] ->]. split; [exact Hsize |]. destruct a0.
  - right. split; [exact Hsp |].
    apply (unsparse_partition_ok _ _ _ _ _ Htool) in Hstep
      as (d & temp & src & raw & Hfresh & Hd & Hsrc & Hraw & -> & Hfs & Hfds & Hm & _).
    exists d, temp, src, raw. cbn [path set_start] in Hsrc.
    assert (path p <> temp) as Hne.
    { intros E. unfold check_sparse in Hsp. rewrite E, Hfresh in Hsp. discriminate. }
    rewrite lookup_insert_ne in Hsrc by congruence. auto 10.
  - left. apply ret_ok in Hstep as [-> ->]. auto.
Qed.

Lemma sectors_of_blocks (k : N) :
  Z.of_N (k * MiB) / 512 = Z.of_N k * 2048
  /\ Z.of_N (k * MiB) / 1024 / 1024 = Z.of_N k.
Proof.
  unfold MiB. rewrite N2Z.inj_mul. change (Z.of_N 1048576) with (2048 * 512) at 1.
  rewrite Z.mul_assoc, Z.div_mul by lia. split; [reflexivity |].
  rewrite Z.div_div by lia. apply Z.div_mul. lia.
Qed.

Lemma padded_output_not_sparse (fs : gmap string file) (out : string) (k : N) :
  padded_output fs out k -> check_sparse fs out = Ok false.
Proof.
  intros (fo & Hfo & Hsize & Hk & Hzero).
  rewrite (check_sparse_value _ _ _ Hfo), read_4_full by (unfold MiB in Hsize; lia).
  rewrite !Hzero by lia. reflexivity.
Qed.

(** One pass of the first loop on an output of [k] whole MiB, for a
    source [f] of [fs0]: the output grows to [k'] whole MiB, the sectors
    recorded are those of the blocks [k] to [k' - 1], and no other file of
    [fs0] changes.  When neither [f] nor what it decodes to is empty,
    [k < k']. *)
Lemma compose_one_step (h : host) (out : string) (fs0 : gmap string file)
    (p p' : partition) (s s' : state) (k : N) (f : file) :
  programs h !! "dd"%string = Some ToolDd ->
  programs h !! simg2img_name h = Some ToolSimg2img ->
  keeps fs0 out (st_fs s) ->
  padded_output (st_fs s) out k ->
  fs0 !! path p = Some f ->
  compose_one h out p s = (Ok p', s') ->
  exists k' : N,
    (k <= k')%N
    /\ ((0 < fsize f)%N ->
        (forall raw, sparse_decode h f = Some raw -> (0 < fsize raw)%N) -> (k < k')%N)
    /\ keeps fs0 out (st_fs s')
    /\ padded_output (st_fs s') out k'
    /\ sector_range p' (Z.of_N k * 2048, Z.of_N k' * 2048 - 1).
Proof.
  intros Hdd Htool Hkeep Hpad Hf.
  pose proof (padded_output_not_sparse _ _ _ Hpad) as Hns.
  destruct Hpad as (fo & Hfo & Hsize & Hk & Hzero).
  unfold compose_one. intros H.
  apply bind_ok in H as ([p1 off] & s0 & Hbefore & H). cbn [fst snd] in H.
  apply (before_copy_inv _ _ _ _ _ _ _ Htool) in Hbefore as (Hoff & Hcase).
  apply getsize_ok in Hoff as (fo_ & Hfo_ & ->). rewrite Hfo in Hfo_. injection Hfo_ as <-.
  rewrite Hsize in *. destruct (sectors_of_blocks k) as [Hsec Hblk].
  apply copy_and_close_fields in H as (Hw & size & Hafter & ->).
  rewrite Hblk in Hw.
  apply (write_partition_ok _ _ _ _ _ _ _ Hdd) in Hw
    as (Hne & src & Hsrc & Hfs' & _); [|lia].
  rewrite N2Z.id in Hfs'.
  assert (exists copied : file,
             (copied = f \/ sparse_decode h f = Some copied)
             /\ st_fs s' = <[out := dd_output fo true (k * MiB) (padded copied)
                                              (zero_extended copied)]> (st_fs s0)
             /\ keeps fs0 out (st_fs s0)
             /\ start p1 = Some (py_str (Z.of_N k * 2048))) as (c & Hc & Hs' & Hkeep0 & Hst).
  { destruct Hcase as [(Hsp & -> & ->) | (Hsp & d & temp & src' & raw & Hfresh & _ & Hsrc'
                                          & Hdec & -> & Hfs0 & _)].
    - cbn [path set_start] in *. exists src.
      rewrite Hfo in Hfs'. cbn [default] in Hfs'.
      rewrite (Hkeep _ _ Hne Hf) in Hsrc. injection Hsrc as <-.
      rewrite Hsec. auto.
    - cbn [path set_start set_fd set_path start] in *. exists src.
      assert (temp <> out) as Hto by congruence.
      assert (path p <> out) as Hpo by (intros E; rewrite E in Hsp; congruence).
      rewrite (Hkeep _ _ Hpo Hf) in Hsrc'. injection Hsrc' as <-.
      rewrite Hfs0, lookup_insert_ne, Hfo in Hfs' by congruence. cbn [default] in Hfs'.
      rewrite Hfs0, lookup_insert_eq in Hsrc. injection Hsrc as <-.
      rewrite Hsec. split; [auto |]. split; [rewrite Hfs0; exact Hfs' |].
      split; [|reflexivity].
      intros name g Hname Hg. rewrite Hfs0. rewrite lookup_insert_ne; [eauto |].
      intros <-. rewrite (Hkeep _ _ Hname Hg) in Hfresh. discriminate. }
  destruct (padded_spec c) as (blocks & Hpadded & _ & _ & Hblocks).
  exists (k + blocks)%N.
  assert (fsize (dd_output fo true (k * MiB) (padded c) (zero_extended c))
          = ((k + blocks) * MiB)%N) as Hnew.
  { rewrite dd_output_size, Hsize, Hpadded. unfold MiB.
    destruct (N.eqb_spec (blocks * 1048576) 0); lia. }
  split; [lia |]. split; [|split; [|split]].
  - intros Hpos Hraw. assert (0 < fsize c)%N as Hcpos; [|specialize (Hblocks Hcpos); lia].
    destruct Hc as [-> | Hc]; [exact Hpos | exact (Hraw _ Hc)].
  - intros name g Hname Hg. rewrite Hs'. rewrite lookup_insert_ne by congruence. eauto.
  - eexists. rewrite Hs', lookup_insert_eq. split; [reflexivity |].
    split; [exact Hnew |]. split; [lia |].
    intros i Hi. rewrite dd_output_below; [auto | unfold MiB; lia | unfold MiB in *; lia].
  - apply getsize_ok in Hafter as (fo' & Hfo' & ->).
    rewrite Hs', lookup_insert_eq in Hfo'. injection Hfo' as <-. rewrite Hnew.
    destruct (sectors_of_blocks (k + blocks)) as [-> _].
    split; [exact Hst |]. cbn [fst snd set_end start end_]. reflexivity.
Qed.

(** ** The first loop as a whole *)



(** The first padding leaves one MiB of zeros and touches nothing else. *)
Lemma pad_first_ok (h : host) (out : string) (s s1 : state) (u : unit) :
  programs h !! "dd"%string = Some ToolDd ->
  shell_command h ["dd"; "if=/dev/zero"; "of=" +:+ out; "ibs=1024k"; "count=1"]%string s
  = (Ok u, s1) ->
  keeps (st_fs s) out (st_fs s1) /\ padded_output (st_fs s1) out 1
  /\ st_fds s1 = st_fds s /\ st_tmp_made s1 = st_tmp_made s.
Proof.
  intros Hdd H.
  apply shell_command_ok in H as (prog & args & t & fs' & [= <- <-] & Hp & Hrun & ->).
  rewrite Hdd in Hp. injection Hp as <-. cbn [run_tool] in Hrun.
  apply run_dd_pad_first in Hrun as ->. cbn [st_fs st_fds st_tmp_made].
  split; [|split; [|auto]].
  - intros name f Hname Hf. rewrite lookup_insert_ne by congruence. exact Hf.
  - eexists. rewrite lookup_insert_eq. split; [reflexivity |].
    split; [reflexivity |]. split; [lia |].
    intros i Hi. rewrite dd_output_inside; [reflexivity | unfold MiB; lia].
Qed.







(** ** Temporary files *)


Lemma never_bind {A B} (e : exn) (m : M A) (k : A -> M B) :
  never e m -> (forall a, never e (k a)) -> never e (bind m k).
Proof.
  intros Hm Hk s s' H. apply bind_inv in H as [(a & s1 & H1 & H2) | (e' & H1 & [= <-])].
  - eapply Hk. exact H2.
  - eapply Hm. exact H1.
Qed.



Lemma never_shell_command (e : exn) (h : host) (argv : list string) :
  unraised e -> never e (shell_command h argv).
Proof.
  intros He s s'. unfold shell_command.
  destruct argv as [|prog args]; [destruct He as [-> | ->]; discriminate |].
  destruct (programs h !! prog); [|destruct He as [-> | ->]; discriminate].
  destruct (faulty h _); [destruct He as [-> | ->]; discriminate |].
  destruct (run_tool h _ _ _); destruct He as [-> | ->]; discriminate.
Qed.

Lemma silent_with_fs {A} (f : gmap string file -> result A) : silent (with_fs f).
Proof. intros s r s'. unfold with_fs. intros [= _ <-]. reflexivity. Qed.

Lemma never_with_fs {A} (e : exn) (f : gmap string file -> result A) :
  (forall fs, f fs <> Err e) -> never e (with_fs f).
Proof. intros Hf s s'. unfold with_fs. intros [= H _]. eapply Hf. exact H. Qed.


Lemma never_ret {A} (e : exn) (a : A) : never e (ret a).
Proof. intros s s'. discriminate. Qed.



Lemma getsize_never (e : exn) (name : string) (fs : gmap string file) :
  unraised e -> getsize fs name <> Err e.
Proof. intros [-> | ->]; unfold getsize; destruct (fs !! name); discriminate. Qed.

Lemma check_sparse_quiet (name : string) (fs : gmap string file) :
  check_sparse fs name <> Err SystemExit0.
Proof.
  unfold check_sparse. destruct (fs !! name); [|discriminate].
  destruct (py_int 16 _); discriminate.
Qed.

Lemma never_for_each {A B} (e : exn) (body : A -> M B) (l : list A) :
  (forall a, never e (body a)) -> never e (for_each body l).
Proof.
  intros Hb. induction l as [|a l IH]; cbn [for_each]; [apply never_ret |].
  apply never_bind; [apply Hb |]. intros b.
  apply never_bind; [exact IH |]. intros bs. apply never_ret.
Qed.

Lemma never_mkstemp (e : exn) : unraised e -> never e mkstemp.
Proof.
  intros He s s'. unfold mkstemp.
  destruct (pick_tmp _ _) as [[? ?]|]; destruct He as [-> | ->]; discriminate.
Qed.

Lemma never_unsparse_partition (e : exn) (h : host) (p : partition) :
  unraised e -> never e (unsparse_partition h p).
Proof.
  intros He. unfold unsparse_partition.
  apply never_bind; [apply never_mkstemp; exact He | intros r].
  apply never_bind; [apply never_shell_command; exact He | intros u]. apply never_ret.
Qed.

Lemma never_copy_and_close (e : exn) (h : host) (out : string) (p : partition) (off : Z) :
  unraised e -> never e (copy_and_close h out p off).
Proof.
  intros He. unfold copy_and_close, write_partition.
  apply never_bind; [apply never_shell_command; exact He | intros u].
  apply never_bind; [|intros size; apply never_ret].
  apply never_with_fs. intros fs. apply getsize_never. exact He.
Qed.

Lemma quiet_compose_one (h : host) (out : string) (p : partition) :
  never SystemExit0 (compose_one h out p).
Proof.
  assert (unraised SystemExit0) as He by (left; reflexivity).
  unfold compose_one, before_copy.
  apply never_bind; [|intros r; apply never_copy_and_close; exact He].
  apply never_bind; [apply never_with_fs; intros fs; apply getsize_never; exact He |].
  intros off.
  apply never_bind; [apply never_with_fs; intros fs; apply check_sparse_quiet |].
  intros sparse. apply never_bind; [|intros q; apply never_ret].
  destruct sparse; [apply never_unsparse_partition; exact He | apply never_ret].
Qed.

Lemma never_add_and_clean (e : exn) (h : host) (out : string) (p : partition) :
  unraised e -> never e (add_and_clean h out p).
Proof.
  intros He. unfold add_and_clean, add_partition, item.
  repeat first
    [ apply never_bind; [|intros ?]
    | apply never_shell_command; exact He
    | apply never_ret
    | match goal with |- never _ (match ?b with _ => _ end) => destruct b end
    | (intros s s'; unfold raise; destruct He as [-> | ->]; discriminate)
    | (intros s s'; unfold os_close; destruct (bool_decide _);
       destruct He as [-> | ->]; discriminate)
    | (intros s s'; unfold os_remove; destruct (exists_ _ _);
       destruct He as [-> | ->]; discriminate) ].
Qed.

(** What follows the first loop in the general path ends in neither of
    the two. *)
Lemma never_table_stage (e : exn) (h : host) (out : string) (placed : list partition) :
  unraised e ->
  never e (do size <- with_fs (fun fs => getsize fs out);
           do_ shell_command h ["dd"; "if=/dev/zero"; "of=" +:+ out; "conv=notrunc";
                                "bs=1024k"; "count=1";
                                "seek=" +:+ py_str (size / 1024 / 1024)]%string;
           do_ clear_partition_table h out;
           do_ for_each (add_and_clean h out) placed;
           ret placed).
Proof.
  intros He. unfold clear_partition_table.
  apply never_bind; [apply never_with_fs; intros fs; apply getsize_never; exact He |].
  intros size. apply never_bind; [apply never_shell_command; exact He | intros u].
  apply never_bind; [apply never_shell_command; exact He | intros u'].
  apply never_bind; [|intros us; apply never_ret].
  apply never_for_each. intros q. apply never_add_and_clean. exact He.
Qed.

Lemma quiet_general_path (h : host) (out : string) (parts : list partition) :
  never SystemExit0 (general_path h out parts).
Proof.
  assert (unraised SystemExit0) as He by (left; reflexivity).
  unfold general_path.
  apply never_bind; [apply never_shell_command; exact He | intros u].
  apply never_bind; [apply never_for_each; intros p; apply quiet_compose_one |].
  intros placed. apply never_table_stage. exact He.
Qed.



Lemma add_directive_quiet (fs : gmap string file) (total : Z)
    (st : list partition * gset Z) (line : list string) :
  add_directive fs total st line <> Err SystemExit0.
Proof.
  destruct st as [ps used]. unfold add_directive, getsize.
  destruct line as [|l0 [|l1 [|l2 rest]]]; try discriminate.
  destruct (fs !! l0); cbn [rbind]; [|discriminate].
  destruct (py_int 10 l2); [|discriminate].
  destruct (_ || _); [discriminate |]. destruct (bool_decide _); discriminate.
Qed.

Lemma parse_input_quiet (fs : gmap string file) (environ : gmap string string)
    (lines : list string) :
  parse_input fs environ lines <> Err SystemExit0.
Proof.
  intros H. apply parse_input_err, add_directives_err in H
    as (pre & line & post & st1 & _ & _ & H).
  eapply add_directive_quiet. exact H.
Qed.

Lemma readlines_quiet (name : string) (fs : gmap string file) :
  readlines fs name <> Err SystemExit0.
Proof. unfold readlines. destruct (fs !! name); discriminate. Qed.






(** One pass of the second loop, on a host where the name from the
    environment starts [sgdisk]: files and descriptors only go away, and
    the temporary file of the dictionary and its descriptor do. *)
Lemma add_and_clean_ok (h : host) (out : string) (q : partition) (s s' : state) (u : unit) :
  programs h !! sgdisk_name h = Some ToolSgdisk ->
  add_and_clean h out q s = (Ok u, s') ->
  (forall name, st_fs s !! name = None -> st_fs s' !! name = None)
  /\ (forall d, d ∉ st_fds s -> d ∉ st_fds s')
  /\ (forall d, fd q = Some d -> st_fs s' !! path q = None /\ (d ∉ st_fds s'))
  /\ st_tmp_made s' = st_tmp_made s.
Proof.
  intros Htool. unfold add_and_clean. intros H. step H.
  apply add_partition_ok in Hstep as (a' & b & _ & _ & Hrun).
  apply shell_command_ok in Hrun as (prog & args & t & fs' & [= <- <-] & Hp & Hrun & ->).
  rewrite Htool in Hp. injection Hp as <-. cbn [run_tool] in Hrun.
  unfold run_sgdisk in Hrun. destruct (last _); [|discriminate].
  destruct (exists_ _ _); [|discriminate]. injection Hrun as <-.
  destruct (fd q) as [d|].
  - step H. apply os_close_ok in Hstep as [_ ->]. apply os_remove_ok in H as [_ ->].
    cbn. repeat split.
    + intros name Hn. rewrite lookup_delete_None. auto.
    + intros d0 Hd0 Hin. apply list_elem_of_filter in Hin as [_ Hin]. contradiction.
    + injection H as <-. apply lookup_delete_eq.
    + injection H as <-. intros Hin. apply list_elem_of_filter in Hin as [Hne _].
      contradiction.
  - apply ret_ok in H as [_ ->]. cbn. repeat split; auto; discriminate.
Qed.

Lemma table_loop_cleans (h : host) (out : string) (placed : list partition) (s s' : state)
    (us : list unit) :
  programs h !! sgdisk_name h = Some ToolSgdisk ->
  for_each (add_and_clean h out) placed s = (Ok us, s') ->
  (forall name, st_fs s !! name = None -> st_fs s' !! name = None)
  /\ (forall d, d ∉ st_fds s -> d ∉ st_fds s')
  /\ (forall d name, (d, name) ∈ pending placed -> st_fs s' !! name = None /\ (d ∉ st_fds s'))
  /\ st_tmp_made s' = st_tmp_made s.
Proof.
  intros Htool. revert s us. induction placed as [|q rest IH]; intros s us H.
  - apply for_each_nil_ok in H as [_ ->].
    split; [auto |]. split; [auto |]. split; [|reflexivity].
    intros d name Hin. inversion Hin.
  - apply for_each_cons_ok in H as (u & us' & s1 & Hq & Hrest & _).
    apply (add_and_clean_ok _ _ _ _ _ _ Htool) in Hq as (Hfs & Hfds & Hq & Hm).
    apply IH in Hrest as (Hfs' & Hfds' & Hrest & Hm').
    split; [auto |]. split; [auto |]. split; [|congruence].
    intros d name Hin. unfold pending in Hin. cbn [omap list_omap] in Hin.
    destruct (fd q) as [d0|] eqn:Efd.
    + apply elem_of_cons in Hin as [[= -> ->] | Hin]; [|apply Hrest; exact Hin].
      destruct (Hq d0 eq_refl). auto.
    + apply Hrest. exact Hin.
Qed.

Lemma descriptor_fresh (fs : gmap string file) (line : list string) (p : partition) :
  descriptor fs line = Some p -> fd p = None /\ start p = None /\ end_ p = None.
Proof.
  unfold descriptor. destruct line as [|l0 [|l1 [|l2 rest]]]; try discriminate.
  destruct (fs !! l0); [|discriminate]. destruct (py_int 10 l2); [|discriminate].
  intros [= <-]. auto.
Qed.




(** The temporary file of the demonstration run is made and removed. *)
Example demo_temp_removed :
  let s' := snd (main demo_host None None demo_state) in
  st_tmp_made s' = [(3%nat, "/tmp/tmp1"%string)]
  /\ exists_ (st_fs s') "/tmp/tmp1" = false /\ st_fds s' = [0; 1; 2]%nat.
Proof. repeat split; vm_compute; reflexivity. Qed.


(** ** The sparse check on an empty file *)

Lemma check_sparse_empty (fs : gmap string file) (filename : string) (f : file) :
  fs !! filename = Some f -> fsize f = 0%N -> check_sparse fs filename = Err ValueError.
Proof.
  intros Hf Hsize. rewrite (check_sparse_value _ _ _ Hf).
  assert (read 4 f = []) as -> by (apply read_nil; now right). reflexivity.
Qed.

Lemma check_sparse_nonempty (fs : gmap string file) (filename : string) (f : file) :
  fs !! filename = Some f -> (1 <= fsize f)%N ->
  exists b, check_sparse fs filename = Ok b.
Proof.
  intros Hf Hsize. rewrite (check_sparse_value _ _ _ Hf).
  destruct (read 4 f) as [|b w] eqn:E; [|eauto].
  apply read_nil in E. lia.
Qed.






(** The run of [main] on a manifest whose second partition is empty ends
    in [ValueError] after the first partition has been copied. *)
Example empty_vendor_run :
  fst (main demo_host None None empty_vendor_state) = Err ValueError
  /\ st_trace (snd (main demo_host None None empty_vendor_state))
     = [["rm"; "-rf"; "/out/combined.img.qcow2"];
        ["dd"; "if=/dev/zero"; "of=/out/combined.img"; "ibs=1024k"; "count=1"];
        ["simg2img"; "a.img"; "/tmp/tmp1"];
        ["dd"; "if=/tmp/tmp1"; "of=/out/combined.img"; "conv=notrunc,sync";
         "ibs=1024k"; "obs=1024k"; "seek=1"]]%string.
Proof. split; vm_compute; reflexivity. Qed.


(** ** The fast paths *)

Lemma ceil_mb_padded (f : file) :
  0 <= ceil_mb (Z.of_N (fsize f))
  /\ (Z.to_N (1 + ceil_mb (Z.of_N (fsize f))) * MiB = MiB + padded f)%N
  /\ (padded f = Z.to_N (ceil_mb (Z.of_N (fsize f))) * MiB)%N.
Proof.
  unfold ceil_mb, padded, MiB.
  assert (Z.of_N ((fsize f + 1048576 - 1) / 1048576) = (Z.of_N (fsize f) + 1048575) / 1048576)
    as E.
  { rewrite N2Z.inj_div. f_equal. lia. }
  assert (0 <= (Z.of_N (fsize f) + 1048575) / 1048576) by (apply Z.div_pos; lia).
  split; [assumption |]. rewrite <- E. split.
  - rewrite Z2N.inj_add, N2Z.id by lia. change (Z.to_N 1) with 1%N. lia.
  - now rewrite N2Z.id.
Qed.

(** A copy of [src] leaves its bytes at the offset of the copy. *)
Lemma holds_at_write (old src : file) (off : N) :
  holds_at (dd_output old true off (padded src) (zero_extended src)) src off.
Proof.
  intros i Hi. destruct (padded_spec src) as (blocks & Hp & Hle & _).
  split.
  - rewrite dd_output_size. destruct (N.eqb_spec (padded src) 0); lia.
  - rewrite dd_output_inside by lia. unfold zero_extended.
    replace (off + i - off)%N with i by lia.
    destruct (N.ltb_spec i (fsize src)); [reflexivity | lia].
Qed.

(** A later copy further on leaves them there. *)
Lemma holds_at_later (old src : file) (off off' len' : N) (data' : N -> byte) :
  holds_at old src off -> (off + fsize src <= off')%N ->
  holds_at (dd_output old true off' len' data') src off.
Proof.
  intros H Hle i Hi. destruct (H i Hi) as [Hin Hbyte]. split.
  - rewrite dd_output_size. destruct (N.eqb_spec len' 0); lia.
  - rewrite dd_output_below by lia. exact Hbyte.
Qed.

(** A copy in blocks of one MiB given with [bs=], on a host where [dd] is
    [dd]. *)
Lemma shell_dd_copy (h : host) (argv : list string) (src out : string) (k : Z)
    (s s' : state) (u : unit) :
  programs h !! "dd"%string = Some ToolDd ->
  (argv = ["dd"; "if=" +:+ src; "of=" +:+ out; "bs=1024k"; "conv=notrunc,sync";
           "seek=" +:+ py_str k]
   \/ argv = ["dd"; "if=" +:+ src; "of=" +:+ out; "conv=notrunc,sync"; "ibs=1024k";
              "obs=1024k"; "seek=" +:+ py_str k])%string ->
  0 <= k ->
  shell_command h argv s = (Ok u, s') ->
  src <> out
  /\ exists f, st_fs s !! src = Some f
     /\ st_fs s' = <[out := dd_output (default empty_file (st_fs s !! out)) true
                                      (Z.to_N k * MiB) (padded f) (zero_extended f)]> (st_fs s).
Proof.
  intros Hdd Hargv Hk H.
  apply shell_command_ok in H as (prog & args & t & fs' & Hsplit & Hp & Hrun & ->).
  destruct Hargv as [-> | ->]; injection Hsplit as <- <-;
    rewrite Hdd in Hp; injection Hp as <-; cbn [run_tool] in Hrun;
    apply (run_dd_copy _ _ _ src out k) in Hrun as (Hne & f & Hf & ->);
    try reflexivity; try assumption; (split; [exact Hne |]); exists f; auto.
Qed.

(** The copy of the first block of the prebuilt header writes the output
    file only. *)
Lemma shell_dd_head (h : host) (head out : string) (s s' : state) (u : unit) :
  programs h !! "dd"%string = Some ToolDd ->
  shell_command h ["dd"; "if=" +:+ head; "of=" +:+ out; "bs=1024k"; "conv=notrunc,sync";
                   "count=1"]%string s = (Ok u, s') ->
  head <> out /\ exists img, st_fs s' = <[out := img]> (st_fs s).
Proof.
  intros Hdd H.
  apply shell_command_ok in H as (prog & args & t & fs' & [= <- <-] & Hp & Hrun & ->).
  rewrite Hdd in Hp. injection Hp as <-. cbn [run_tool] in Hrun.
  unfold run_dd in Hrun.
  change (block_size "ibs" _) with (Some MiB) in Hrun.
  change (block_size "obs" _) with (Some MiB) in Hrun.
  change (opt_num "count" _) with (Some (Some 1%N)) in Hrun.
  change (opt_num "seek" _) with (@Some (option N) None) in Hrun.
  change (operand "of" _) with (Some out) in Hrun.
  change (operand "if" _) with (Some head) in Hrun.
  change ((MiB =? 0) || (MiB =? 0))%N with false in Hrun. cbv iota in Hrun.
  destruct (bool_decide_reflect (Some head = Some out)) as [|Hne]; [discriminate |].
  destruct (dd_input _ _ _ _) as [[len data]|]; [|discriminate].
  injection Hrun as <-. split; [congruence |]. cbn [st_fs]. eauto.
Qed.

(** A step of a fast path that is a program start does not end the run
    with [sys.exit(0)] itself. *)
Ltac fast_step H u s1 H1 :=
  let H' := fresh "Hrest" in
  apply bind_inv in H as [(u & s1 & H1 & H') | (? & H1 & [= <-])];
  [rename H' into H | exfalso; first
      [ eapply (never_shell_command SystemExit0); [left; reflexivity | exact H1]
      | (unfold size_mb in H1; destruct (py_int 10 _); discriminate) ]].

(** The copies around a prebuilt table place both partitions where the
    general algorithm does. *)
Lemma template_path_layout (h : host) (out : string) (p0 p1 : partition) (s s' : state)
    (f0 f1 : file) :
  programs h !! "dd"%string = Some ToolDd ->
  st_fs s !! path p0 = Some f0 -> st_fs s !! path p1 = Some f1 ->
  sizeByMb p0 = py_str (ceil_mb (Z.of_N (fsize f0))) ->
  sizeByMb p1 = py_str (ceil_mb (Z.of_N (fsize f1))) ->
  template_path h out p0 p1 s = (Err SystemExit0, s') ->
  exists img, st_fs s' !! out = Some img /\ general_layout img f0 f1.
Proof.
  intros Hdd Hf0 Hf1 Hs0 Hs1. unfold template_path. intros H.
  destruct (ceil_mb_padded f0) as (Hn0 & Hoff1 & Hp0).
  destruct (ceil_mb_padded f1) as (Hn1 & _ & Hp1).
  fast_step H u1 s1 Hhead. fast_step H u2 s2 Hcopy0. fast_step H n0 s3 Hsize0.
  fast_step H u3 s4 Hcopy1. fast_step H n0' s5 Hsize0'. fast_step H n1 s6 Hsize1.
  fast_step H u4 s7 Htail. unfold raise in H. injection H as <-.
  apply size_mb_ok in Hsize0 as [Hsize0 ->], Hsize0' as [Hsize0' ->], Hsize1 as [Hsize1 ->].
  rewrite Hs0, py_int_py_str in Hsize0, Hsize0'. rewrite Hs1, py_int_py_str in Hsize1.
  injection Hsize0 as <-. injection Hsize0' as <-. injection Hsize1 as <-.
  apply (shell_dd_head _ _ _ _ _ _ Hdd) in Hhead as (_ & O1 & Hfs1).
  apply (shell_dd_copy h _ (path p0) out 1 _ _ _ Hdd) in Hcopy0
    as (Hne0 & g0 & Hg0 & Hfs2); [|left; reflexivity | lia].
  apply (shell_dd_copy h _ (path p1) out (1 + ceil_mb (Z.of_N (fsize f0))) _ _ _ Hdd)
    in Hcopy1 as (Hne1 & g1 & Hg1 & Hfs4); [|left; reflexivity | lia].
  apply (shell_dd_copy h _ (gpt_tail h p0 p1) out
           (1 + ceil_mb (Z.of_N (fsize f0)) + ceil_mb (Z.of_N (fsize f1))) _ _ _ Hdd)
    in Htail as (_ & gt & _ & Hfs7); [|left; reflexivity | lia].
  rewrite Hfs1, lookup_insert_ne, Hf0 in Hg0 by congruence. injection Hg0 as <-.
  rewrite Hfs2, Hfs1, !lookup_insert_ne, Hf1 in Hg1 by congruence. injection Hg1 as <-.
  rewrite Hfs1, lookup_insert_eq in Hfs2. cbn [default] in Hfs2.
  rewrite Hfs2, lookup_insert_eq in Hfs4. cbn [default] in Hfs4.
  rewrite Hfs4, lookup_insert_eq in Hfs7. cbn [default] in Hfs7.
  rewrite Hoff1 in Hfs7. change (Z.to_N 1 * MiB)%N with MiB in Hfs7.
  eexists. rewrite Hfs7, lookup_insert_eq. split; [reflexivity |].
  assert (Z.to_N (1 + ceil_mb (Z.of_N (fsize f0)) + ceil_mb (Z.of_N (fsize f1))) * MiB
          = MiB + padded f0 + padded f1)%N as ->.
  { rewrite Hp0, Hp1. unfold MiB. lia. }
  destruct (padded_spec f0) as (b0 & _ & Hle0 & _).
  destruct (padded_spec f1) as (b1 & _ & Hle1 & _).
  split.
  - apply holds_at_later; [|lia]. apply holds_at_later; [|lia]. apply holds_at_write.
  - apply holds_at_later; [|lia]. apply holds_at_write.
Qed.

(** The shortcut places the first partition at 1 MiB and the second at
    2 MiB, which is where the general algorithm places it when the first
    is not empty and at most one MiB long. *)
Lemma shortcut_path_layout (h : host) (out : string) (p0 p1 : partition) (s s' : state)
    (f0 f1 : file) :
  programs h !! "dd"%string = Some ToolDd ->
  st_fs s !! path p0 = Some f0 -> st_fs s !! path p1 = Some f1 ->
  (0 < fsize f0 <= MiB)%N ->
  shortcut_path h out p0 p1 s = (Err SystemExit0, s') ->
  exists img, st_fs s' !! out = Some img /\ general_layout img f0 f1.
Proof.
  intros Hdd Hf0 Hf1 Hsize. unfold shortcut_path. intros H.
  fast_step H u1 s1 Hcopy0. fast_step H u2 s2 Hcopy1. unfold raise in H. injection H as <-.
  apply (shell_dd_copy h _ (path p0) out 1 _ _ _ Hdd) in Hcopy0
    as (Hne0 & g0 & Hg0 & Hfs1); [|right; reflexivity | lia].
  apply (shell_dd_copy h _ (path p1) out 2 _ _ _ Hdd) in Hcopy1
    as (Hne1 & g1 & Hg1 & Hfs2); [|right; reflexivity | lia].
  rewrite Hf0 in Hg0. injection Hg0 as <-.
  rewrite Hfs1, lookup_insert_ne, Hf1 in Hg1 by congruence. injection Hg1 as <-.
  rewrite Hfs1, lookup_insert_eq in Hfs2. cbn [default] in Hfs2.
  change (Z.to_N 1 * MiB)%N with MiB in Hfs2.
  assert (padded f0 = MiB) as Hpad.
  { unfold padded, MiB in *.
    assert ((fsize f0 + 1048576 - 1) / 1048576 = 1)%N as ->; [|reflexivity].
    symmetry. apply (N.div_unique _ _ _ (fsize f0 - 1)); lia. }
  eexists. rewrite Hfs2, lookup_insert_eq. split; [reflexivity |]. split.
  - apply holds_at_later; [apply holds_at_write | unfold MiB in *; lia].
  - rewrite Hpad. change (Z.to_N 2 * MiB)%N with (MiB + MiB)%N. apply holds_at_write.
Qed.

(** ** The general path on two sources that are not sparse *)

Lemma check_sparse_same (fs fs' : gmap string file) (name : string) :
  fs !! name = fs' !! name -> check_sparse fs name = check_sparse fs' name.
Proof. intros H. unfold check_sparse. now rewrite H. Qed.

(** One pass of the first loop for a source that is not sparse: the
    source is copied to the end of the output. *)
Lemma compose_one_plain (h : host) (out : string) (p p' : partition) (s s' : state)
    (fo : file) (k : N) :
  programs h !! "dd"%string = Some ToolDd ->
  st_fs s !! out = Some fo -> fsize fo = (k * MiB)%N ->
  check_sparse (st_fs s) (path p) = Ok false ->
  compose_one h out p s = (Ok p', s') ->
  path p <> out
  /\ fd p' = fd p
  /\ exists f, st_fs s !! path p = Some f
     /\ st_fs s' = <[out := dd_output fo true (fsize fo) (padded f) (zero_extended f)]>
                     (st_fs s).
Proof.
  intros Hdd Hfo Hsize Hsp. unfold compose_one, before_copy. intros H.
  apply bind_ok in H as ([p1 off] & s1 & Hbefore & H). cbn [fst snd] in H.
  apply bind_ok in Hbefore as (off' & s2 & Hoff & Hbefore).
  apply with_fs_ok in Hoff as [-> Hoff].
  apply getsize_ok in Hoff as (fo' & Hfo' & ->). rewrite Hfo in Hfo'. injection Hfo' as <-.
  apply bind_ok in Hbefore as (sparse & s2 & Hcheck & Hbefore).
  apply with_fs_ok in Hcheck as [-> Hcheck]. cbn [path set_start] in Hcheck.
  rewrite Hsp in Hcheck. injection Hcheck as <-.
  apply bind_ok in Hbefore as (q & s2 & Hq & Hbefore).
  apply ret_ok in Hq as [-> ->]. apply ret_ok in Hbefore as [[= -> ->] ->].
  apply copy_and_close_fields in H as (Hw & size & _ & ->).
  rewrite Hsize in Hw. destruct (sectors_of_blocks k) as [_ Hblk]. rewrite Hblk in Hw.
  apply (write_partition_ok _ _ _ _ _ _ _ Hdd) in Hw as (Hne & f & Hf & Hfs & _); [|lia].
  cbn [path set_start] in *. rewrite N2Z.id, Hfo in Hfs. cbn [default] in Hfs.
  split; [exact Hne |]. split; [reflexivity |]. exists f. rewrite Hsize. auto.
Qed.

(** The table stage with no temporary file to remove leaves the files as
    they are, on a host where the name from the environment starts
    [sgdisk]. *)
Lemma table_loop_plain (h : host) (out : string) (placed : list partition) (s s' : state)
    (us : list unit) :
  programs h !! sgdisk_name h = Some ToolSgdisk ->
  Forall (fun q => fd q = None) placed ->
  for_each (add_and_clean h out) placed s = (Ok us, s') ->
  st_fs s' = st_fs s.
Proof.
  intros Htool Hfd. revert s us. induction Hfd as [|q rest Hq _ IH]; intros s us H.
  - apply for_each_nil_ok in H as [_ ->]. reflexivity.
  - apply for_each_cons_ok in H as (u & us' & s1 & H1 & Hrest & _).
    apply IH in Hrest. rewrite Hrest. unfold add_and_clean in H1. rewrite Hq in H1.
    apply bind_ok in H1 as (u' & s2 & Hadd & Hret). apply ret_ok in Hret as [_ ->].
    apply add_partition_ok in Hadd as (a & b & _ & _ & Hrun).
    apply shell_command_ok in Hrun as (prog & args & t & fs' & [= <- <-] & Hp & Hrun & ->).
    rewrite Htool in Hp. injection Hp as <-. cbn [run_tool] in Hrun.
    unfold run_sgdisk in Hrun. destruct (last _); [|discriminate].
    destruct (exists_ _ _); [|discriminate]. injection Hrun as <-. reflexivity.
Qed.

Lemma dd_output_grows (old f : file) :
  fsize (dd_output old true (fsize old) (padded f) (zero_extended f))
  = (fsize old + padded f)%N.
Proof. rewrite dd_output_size. destruct (N.eqb_spec (padded f) 0); lia. Qed.

(** The general path places two sources that are not sparse at 1 MiB and
    at 1 MiB plus the size of the first rounded up to whole MiB. *)
Lemma general_path_layout (h : host) (out : string) (p0 p1 : partition)
    (placed : list partition) (s s' : state) (f0 f1 : file) :
  standard_host h ->
  st_fs s !! path p0 = Some f0 -> st_fs s !! path p1 = Some f1 ->
  check_sparse (st_fs s) (path p0) = Ok false ->
  check_sparse (st_fs s) (path p1) = Ok false ->
  fd p0 = None -> fd p1 = None ->
  general_path h out [p0; p1] s = (Ok placed, s') ->
  exists img, st_fs s' !! out = Some img /\ general_layout img f0 f1.
Proof.
  intros (Hdd & _ & Hsg & Htool) Hf0 Hf1 Hsp0 Hsp1 Hfd0 Hfd1 H.
  apply general_path_ok in H
    as (s1 & s2 & s3 & s4 & size & us & Hpad & Hloop & Hsize & Hpad' & Hclear & Htable).
  apply (pad_first_ok _ _ _ _ _ Hdd) in Hpad as (Hkeep1 & Hout1 & _).
  apply for_each_cons_ok in Hloop as (q0 & qs & t1 & Hq0 & Hloop & ->).
  apply for_each_cons_ok in Hloop as (q1 & qs' & t2 & Hq1 & Hloop & ->).
  apply for_each_nil_ok in Hloop as [-> ->].
  assert (forall fs k p f, keeps (st_fs s) out fs -> padded_output fs out k ->
                           st_fs s !! path p = Some f ->
                           check_sparse (st_fs s) (path p) = Ok false ->
                           check_sparse fs (path p) = Ok false) as Hcheck.
  { intros fs k p f Hkeep Hout Hf Hsp. destruct (decide (path p = out)) as [E | Hne].
    - rewrite E. eapply padded_output_not_sparse. exact Hout.
    - rewrite <- Hsp. apply check_sparse_same. rewrite Hf. apply Hkeep; assumption. }
  pose proof (Hcheck _ _ _ _ Hkeep1 Hout1 Hf0 Hsp0) as Hc0.
  pose proof (compose_one_step _ _ _ _ _ _ _ _ _ Hdd Htool Hkeep1 Hout1 Hf0 Hq0)
    as (k1 & _ & _ & Hkeep2 & Hout2 & _).
  destruct Hout1 as (O0 & HO0 & Hsz0 & _).
  apply (compose_one_plain _ _ _ _ _ _ _ _ Hdd HO0 Hsz0 Hc0) in Hq0
    as (Hne0 & Hfdq0 & g0 & Hg0 & Hfs1).
  rewrite (Hkeep1 _ _ Hne0 Hf0) in Hg0. injection Hg0 as <-.
  pose proof (Hcheck _ _ _ _ Hkeep2 Hout2 Hf1 Hsp1) as Hc1.
  pose proof (compose_one_step _ _ _ _ _ _ _ _ _ Hdd Htool Hkeep2 Hout2 Hf1 Hq1)
    as (k2 & _ & _ & Hkeep3 & Hout3 & _).
  destruct Hout2 as (O1 & HO1 & Hsz1 & _).
  apply (compose_one_plain _ _ _ _ _ _ _ _ Hdd HO1 Hsz1 Hc1) in Hq1
    as (Hne1 & Hfdq1 & g1 & Hg1 & Hfs2).
  rewrite (Hkeep2 _ _ Hne1 Hf1) in Hg1. injection Hg1 as <-.
  destruct Hout3 as (O2 & HO2 & Hsz2 & _).
  apply getsize_ok in Hsize as (O2' & HO2' & ->). rewrite HO2 in HO2'. injection HO2' as <-.
  rewrite Hsz2 in Hpad'. destruct (sectors_of_blocks k2) as [_ Hblk]. rewrite Hblk in Hpad'.
  apply shell_command_ok in Hpad' as (prog & args & t & fs' & [= <- <-] & Hp & Hrun & ->).
  rewrite Hdd in Hp. injection Hp as <-. cbn [run_tool] in Hrun.
  apply run_dd_pad_last in Hrun as ->; [|lia].
  unfold clear_partition_table in Hclear.
  apply shell_command_ok in Hclear as (prog & args & t & fs' & [= <- <-] & Hp & Hrun & ->).
  rewrite Hsg in Hp. injection Hp as <-. cbn [run_tool st_fs] in Hrun.
  unfold run_sgdisk in Hrun. destruct (last _); [|discriminate].
  destruct (exists_ _ _); [|discriminate]. injection Hrun as <-.
  apply (table_loop_plain _ _ _ _ _ _ Hsg) in Htable;
    [|repeat constructor; congruence].
  cbn [st_fs] in Htable. rewrite N2Z.id, HO2 in Htable. cbn [default] in Htable.
  rewrite Hfs1, lookup_insert_eq in HO1. injection HO1 as <-.
  rewrite Hfs2, lookup_insert_eq in HO2. injection HO2 as <-.
  eexists. rewrite Htable, lookup_insert_eq. split; [reflexivity |].
  change (if (padded f0 =? 0)%N then fsize O0
          else (fsize O0 `max` (fsize O0 + padded f0))%N)
    with (fsize (dd_output O0 true (fsize O0) (padded f0) (zero_extended f0))) in *.
  unfold id. set (O1 := dd_output O0 true (fsize O0) (padded f0) (zero_extended f0)) in *.
  set (O2 := dd_output O1 true (fsize O1) (padded f1) (zero_extended f1)) in *.
  assert (fsize O0 = MiB) as E0 by (rewrite Hsz0; reflexivity).
  assert (fsize O1 = MiB + padded f0)%N as E1
    by (subst O1; rewrite dd_output_grows, E0; reflexivity).
  assert (fsize O2 = MiB + padded f0 + padded f1)%N as E2
    by (subst O2; rewrite dd_output_grows, E1; reflexivity).
  destruct (padded_spec f0) as (b0 & _ & Hle0 & _).
  destruct (padded_spec f1) as (b1 & _ & Hle1 & _).
  split.
  - apply holds_at_later; [|lia]. apply holds_at_later; [|lia].
    rewrite <- E0. apply holds_at_write.
  - apply holds_at_later; [|lia]. rewrite <- E1. apply holds_at_write.
Qed.

(** C5, as the code has it.  On a host with the usual programs, for two
    partitions whose [sizeByMb] is that of their source files: when the
    copies around a prebuilt table are taken, or when the shortcut is
    taken and the first source is at least one byte and at most one MiB
    long, the image holds the bytes of the first source from 1 MiB on and
    the bytes of the second from 1 MiB plus the size of the first rounded
    up to whole MiB on.  When the sources are not sparse the general path
    on the same state places them at the same offsets, so the two images
    agree on every byte of both partitions. *)
Theorem fast_paths_layout (h : host) (out : string) (p0 p1 : partition) (s s' : state)
    (f0 f1 : file) :
  standard_host h ->
  st_fs s !! path p0 = Some f0 -> st_fs s !! path p1 = Some f1 ->
  sizeByMb p0 = py_str (ceil_mb (Z.of_N (fsize f0))) ->
  sizeByMb p1 = py_str (ceil_mb (Z.of_N (fsize f1))) ->
  template_path h out p0 p1 s = (Err SystemExit0, s')
  \/ (shortcut_path h out p0 p1 s = (Err SystemExit0, s') /\ (0 < fsize f0 <= MiB)%N) ->
  exists img,
    st_fs s' !! out = Some img
    /\ general_layout img f0 f1
    /\ forall placed sg,
         check_sparse (st_fs s) (path p0) = Ok false ->
         check_sparse (st_fs s) (path p1) = Ok false ->
         fd p0 = None -> fd p1 = None ->
         general_path h out [p0; p1] s = (Ok placed, sg) ->
         exists img_g,
           st_fs sg !! out = Some img_g
           /\ general_layout img_g f0 f1
           /\ (forall i, (i < fsize f0)%N -> fdata img (MiB + i) = fdata img_g (MiB + i))
           /\ (forall j, (j < fsize f1)%N ->
                         fdata img (MiB + padded f0 + j) = fdata img_g (MiB + padded f0 + j)).
Proof.
  intros Hstd Hf0 Hf1 Hs0 Hs1 Hfast.
  assert (exists img, st_fs s' !! out = Some img /\ general_layout img f0 f1)
    as (img & Himg & Hlayout).
  { destruct Hstd as (Hdd & _). destruct Hfast as [Ht | [Hsh Hsize]].
    - eapply template_path_layout; eauto.
    - eapply shortcut_path_layout; eauto. }
  exists img. split; [exact Himg |]. split; [exact Hlayout |].
  intros placed sg Hsp0 Hsp1 Hfd0 Hfd1 Hgen.
  destruct (general_path_layout _ _ _ _ _ _ _ _ _ Hstd Hf0 Hf1 Hsp0 Hsp1 Hfd0 Hfd1 Hgen)
    as (img_g & Hg & Hlayout_g).
  exists img_g. split; [exact Hg |]. split; [exact Hlayout_g |].
  destruct Hlayout as [H0 H1], Hlayout_g as [G0 G1]. split.
  - intros i Hi. destruct (H0 i Hi) as [_ ->], (G0 i Hi) as [_ ->]. reflexivity.
  - intros j Hj. destruct (H1 j Hj) as [_ ->], (G1 j Hj) as [_ ->]. reflexivity.
Qed.

Lemma demo_host_standard : standard_host demo_host.
Proof. repeat split; reflexivity. Qed.

(** With the prebuilt header in place and no output file yet, [compose]
    takes the copies around it. *)
Example demo_template_run :
  fst (template_path demo_host "/out/combined.img" plain_boot plain_vendor plain_state)
  = Err SystemExit0
  /\ fst (compose demo_host "/out/combined.img" [plain_boot; plain_vendor] plain_state)
     = Err SystemExit0
  /\ st_trace (snd (compose demo_host "/out/combined.img" [plain_boot; plain_vendor]
                            plain_state))
     = [["dd"; "if=/tools/prebuilt/gpt/1_1/head.img"; "of=/out/combined.img"; "bs=1024k";
         "conv=notrunc,sync"; "count=1"];
        ["dd"; "if=x.img"; "of=/out/combined.img"; "bs=1024k"; "conv=notrunc,sync";
         "seek=1"];
        ["dd"; "if=y.img"; "of=/out/combined.img"; "bs=1024k"; "conv=notrunc,sync";
         "seek=2"];
        ["dd"; "if=/tools/prebuilt/gpt/1_1/head.img"; "of=/out/combined.img"; "bs=1024k";
         "conv=notrunc,sync"; "seek=3"]]%string.
Proof. repeat split; vm_compute; reflexivity. Qed.

Lemma fast_paths_layout_witness :
  exists s' img,
    template_path demo_host "/out/combined.img" plain_boot plain_vendor plain_state
    = (Err SystemExit0, s')
    /\ st_fs s' !! "/out/combined.img"%string = Some img
    /\ general_layout img (file_of_string "hello") (file_of_string "world!").
Proof.
  destruct demo_template_run as (Hfst & _). apply run_pair in Hfst. revert Hfst.
  generalize (snd (template_path demo_host "/out/combined.img" plain_boot plain_vendor
                                 plain_state)).
  intros s' Hrun.
  destruct (fast_paths_layout demo_host "/out/combined.img" plain_boot plain_vendor
              plain_state s' (file_of_string "hello") (file_of_string "world!"))
    as (img & Himg & Hlayout & _);
    [exact demo_host_standard | reflexivity | reflexivity | reflexivity | reflexivity
    | left; exact Hrun |].
  exists s', img. auto.
Defined.

(** The prebuilt trailer is looked up under the name of the header. *)
Example gpt_tail_is_head (h : host) (p0 p1 : partition) :
  gpt_tail h p0 p1 = gpt_head h p0 p1.
Proof. reflexivity. Qed.

(** C5 as it is written fails for the shortcut: the first source is one
    byte longer than a MiB, so the general path places the second at
    3 MiB, while the shortcut copies it to 2 MiB, over the last byte of
    the first.  Byte 2097152 of the image is 2 after the shortcut and 1
    after the general path. *)
Lemma shortcut_claim_fails :
  fst (shortcut_path demo_host "/out/combined.img" big_system small_vendor big_state)
  = Err SystemExit0
  /\ byte_at (st_fs (snd (shortcut_path demo_host "/out/combined.img" big_system
                                        small_vendor big_state)))
             "/out/combined.img" 2097152 = x02
  /\ byte_at (st_fs (snd (general_path demo_host "/out/combined.img"
                                       [big_system; small_vendor] big_state)))
             "/out/combined.img" 2097152 = x01
  /\ ~ shortcut_claim demo_host "/out/combined.img" big_system small_vendor big_state.
Proof.
  assert (fst (shortcut_path demo_host "/out/combined.img" big_system small_vendor big_state)
          = Err SystemExit0) as Hfst by (vm_compute; reflexivity).
  assert (byte_at (st_fs (snd (shortcut_path demo_host "/out/combined.img" big_system
                                             small_vendor big_state)))
                  "/out/combined.img" 2097152 = x02) as Hbyte by (vm_compute; reflexivity).
  split; [exact Hfst |]. split; [exact Hbyte |]. split; [vm_compute; reflexivity |].
  intros Hclaim. apply run_pair in Hfst. revert Hfst Hbyte.
  generalize (snd (shortcut_path demo_host "/out/combined.img" big_system small_vendor
                                 big_state)).
  intros s' Hrun Hbyte.
  destruct (Hclaim s' (File 1048577 (fun _ => x01)) (File 1 (fun _ => x02)))
    as (img & Himg & Hlayout & _); [reflexivity | reflexivity | exact Hrun |].
  unfold byte_at in Hbyte. rewrite Himg in Hbyte.
  destruct (Hlayout 1048576%N) as [_ Hwrong]; [cbn; lia |].
  change (MiB + 1048576)%N with 2097152%N in Hwrong. rewrite Hbyte in Hwrong. discriminate.
Qed.

(* ===================================================================== *)
(** * Part III: further properties of the functions *)
(* ===================================================================== *)

(** ** check_sparse on every file *)

Lemma be_value_bound (bs : list byte) (acc : Z) :
  0 <= acc ->
  0 <= fold_left (fun a b => 256 * a + Z.of_N (to_N b)) bs acc
    < (acc + 1) * 256 ^ Z.of_nat (length bs).
Proof.
  revert acc; induction bs as [|b bs IH]; intros acc Hacc.
  - cbn. lia.
  - cbn [fold_left length]. pose proof (to_N_bounded b) as Hb.
    specialize (IH (256 * acc + Z.of_N (to_N b)) ltac:(lia)).
    rewrite Nat2Z.inj_succ, Z.pow_succ_r by lia.
    assert (0 < 256 ^ Z.of_nat (length bs)) by (apply Z.pow_pos_nonneg; lia).
    nia.
Qed.

Lemma magic_word (a b c d : byte) :
  be_value (rev [a; b; c; d]) = magic <-> a = x3a /\ b = xff /\ c = x26 /\ d = xed.
Proof.
  unfold be_value, magic. cbn [rev app fold_left]. split.
  - intros H.
    pose proof (to_N_bounded a). pose proof (to_N_bounded b).
    pose proof (to_N_bounded c). pose proof (to_N_bounded d).
    assert (to_N a = to_N x3a) as Ea by (cbn; lia).
    assert (to_N b = to_N xff) as Eb by (cbn; lia).
    assert (to_N c = to_N x26) as Ec by (cbn; lia).
    assert (to_N d = to_N xed) as Ed by (cbn; lia).
    apply to_N_inj in Ea, Eb, Ec, Ed. auto.
  - intros (-> & -> & -> & ->). reflexivity.
Qed.

(** On a file that is not empty the answer is whether it starts with the
    magic number. *)
Lemma check_sparse_answer (fs : gmap string file) (filename : string) (f : file) (b : bool) :
  fs !! filename = Some f -> (1 <= fsize f)%N ->
  check_sparse fs filename = Ok b <-> (b = true <-> starts_with_magic f).
Proof.
  intros Hf Hsize. rewrite (check_sparse_value _ _ _ Hf).
  destruct (N.le_gt_cases 4 (fsize f)) as [Hfour | Hshort].
  - rewrite (read_4_full _ Hfour). cbv iota.
    pose proof (magic_word (fdata f 0%N) (fdata f 1%N) (fdata f 2%N) (fdata f 3%N)) as Hw.
    unfold starts_with_magic.
    destruct (Z.eqb_spec magic (be_value (rev [fdata f 0; fdata f 1; fdata f 2; fdata f 3]%N)))
      as [E | E].
    + symmetry in E. apply Hw in E. split.
      * intros [= <-]. tauto.
      * intros Hb. f_equal. symmetry. apply Hb. tauto.
    + assert (~ (fdata f 0%N = x3a /\ fdata f 1%N = xff /\ fdata f 2%N = x26
                 /\ fdata f 3%N = xed)) as Hno.
      { intros Hm. apply Hw in Hm. congruence. }
      split.
      * intros [= <-]. split; [discriminate | tauto].
      * intros Hb. f_equal. destruct b; [|reflexivity]. exfalso. apply Hno, Hb. reflexivity.
  - destruct (read 4 f) as [|b0 w] eqn:E.
    { apply read_nil in E. lia. }
    rewrite <- E. clear E b0 w.
    assert ((magic =? be_value (rev (read 4 f))) = false) as ->.
    { apply Z.eqb_neq. unfold be_value.
      pose proof (be_value_bound (rev (read 4 f)) 0 ltac:(lia)) as Hb.
      rewrite length_rev, read_length in Hb.
      assert (256 ^ Z.of_nat (N.to_nat (N.min 4 (fsize f))) <= 256 ^ 3).
      { apply Z.pow_le_mono_r; lia. }
      unfold magic. change (256 ^ 3) with 16777216 in *. lia. }
    unfold starts_with_magic. split.
    + intros [= <-]. split; [discriminate | lia].
    + intros Hb. f_equal. destruct b; [|reflexivity]. exfalso.
      assert (4 <= fsize f)%N by (apply Hb; reflexivity). lia.
Qed.

(** X1.  [check_sparse] on any file name: it answers [True] exactly for a
    file of at least four bytes that starts with 3a ff 26 ed, [False]
    exactly for any other file of at least one byte (a file of one to
    three bytes is never sparse), and it raises in two cases only:
    [FileNotFoundError] when there is no such file, and [ValueError] when
    the file is empty. *)
Theorem check_sparse_outcomes (fs : gmap string file) (filename : string) :
  (check_sparse fs filename = Ok true <->
     exists f, fs !! filename = Some f /\ starts_with_magic f)
  /\ (check_sparse fs filename = Ok false <->
        exists f, fs !! filename = Some f /\ (1 <= fsize f)%N /\ ~ starts_with_magic f)
  /\ (forall e, check_sparse fs filename = Err e <->
        (fs !! filename = None /\ e = FileNotFoundError filename)
        \/ (exists f, fs !! filename = Some f /\ fsize f = 0%N /\ e = ValueError)).
Proof.
  destruct (fs !! filename) as [f|] eqn:Hf.
  - destruct (N.eq_dec (fsize f) 0%N) as [Hzero | Hpos].
    + pose proof (check_sparse_empty _ _ _ Hf Hzero) as Hrun. rewrite Hrun.
      split; [|split].
      * split; [discriminate |]. intros (f' & [= <-] & Hm & _). lia.
      * split; [discriminate |]. intros (f' & [= <-] & Hm & _). lia.
      * intros e. split.
        -- intros [= <-]. right. eauto.
        -- intros [[[=] _] | (f' & _ & _ & ->)]. reflexivity.
    + assert (1 <= fsize f)%N as Hone by lia.
      pose proof (fun b => check_sparse_answer _ _ _ b Hf Hone) as Hans.
      split; [|split].
      * rewrite Hans. split.
        -- intros Hb. exists f. split; [reflexivity |]. apply Hb. reflexivity.
        -- intros (f' & [= <-] & Hm). tauto.
      * rewrite Hans. split.
        -- intros Hb. exists f. split; [reflexivity |]. split; [exact Hone |].
           intros Hm. apply Hb in Hm. discriminate.
        -- intros (f' & [= <-] & _ & Hm). split; [discriminate | tauto].
      * intros e. split.
        -- intros He. destruct (check_sparse_nonempty _ _ _ Hf Hone) as [b Hb]. congruence.
        -- intros [[[=] _] | (f' & [= <-] & Hz & _)]. lia.
  - assert (check_sparse fs filename = Err (FileNotFoundError filename)) as Hrun.
    { unfold check_sparse. rewrite Hf. reflexivity. }
    rewrite Hrun. split; [|split].
    + split; [discriminate |]. intros (f & [=] & _).
    + split; [discriminate |]. intros (f & [=] & _).
    + intros e. split.
      * intros [= <-]. left. auto.
      * intros [[_ ->] | (f & [=] & _)]. reflexivity.
Qed.

(** ** parse_input: which manifests parse *)

(** The order of the directives plays no part in whether all of them are
    accepted: each must be well formed, and the numbers must differ from
    one another and from the ones in use. *)
Lemma all_accepted_iff (fs : gmap string file) (total : Z) (todo : list (list string))
    (used : list Z) :
  all_accepted fs total used todo <->
  Forall (well_formed fs total) todo
  /\ NoDup (omap declared_num todo)
  /\ forall n, n ∈ used -> n ∉ omap declared_num todo.
Proof.
  revert used; induction todo as [|l rest IH]; intros used; cbn [all_accepted].
  - cbn. split; [intros _ | auto]. repeat split; [constructor | constructor |].
    intros n _ Hn. inversion Hn.
  - rewrite IH. unfold accepted, well_formed. split.
    + intros [(n & Hf & Hn & Hr & Hu) (Hall & Hnd & Hfresh)].
      rewrite Hn in Hfresh. cbn [option_list] in Hfresh.
      cbn [omap list_omap]. rewrite Hn. split; [|split].
      * constructor; eauto.
      * constructor; [|exact Hnd]. apply Hfresh. set_solver.
      * intros m Hm Hin. apply elem_of_cons in Hin as [-> | Hin]; [contradiction |].
        apply (Hfresh m); [set_solver | exact Hin].
    + intros (Hall & Hnd & Hfresh).
      apply Forall_cons in Hall as [(n & Hf & Hn & Hr) Hall].
      cbn [omap list_omap] in Hnd, Hfresh. rewrite Hn in Hnd, Hfresh.
      apply NoDup_cons in Hnd as [Hnotin Hnd]. split.
      * exists n. repeat split; try assumption; try lia.
        intros Hu. apply (Hfresh n Hu). left.
      * rewrite Hn. cbn [option_list]. repeat split; try assumption.
        intros m Hm Hin. apply elem_of_app in Hm as [Hm | Hm].
        -- apply (Hfresh m Hm). right. exact Hin.
        -- apply list_elem_of_singleton in Hm as ->. contradiction.
Qed.


Lemma same_number_same_element {A} (f : A -> Z) (l : list A) (x y : A) :
  NoDup (f <$> l) -> x ∈ l -> y ∈ l -> f x = f y -> x = y.
Proof.
  induction l as [|a l IH]; cbn [fmap list_fmap]; intros Hnd Hx Hy E.
  - inversion Hx.
  - apply NoDup_cons in Hnd as [Hnotin Hnd].
    apply elem_of_cons in Hx as [-> | Hx], Hy as [-> | Hy]; auto.
    + exfalso. apply Hnotin. rewrite E. apply list_elem_of_fmap. eauto.
    + exfalso. apply Hnotin. rewrite <- E. apply list_elem_of_fmap. eauto.
Qed.

(** Two lists of descriptors with the same entries and distinct numbers
    are sorted to the same list. *)
Lemma merge_sort_num_unique (l1 l2 : list partition) :
  l1 ≡ₚ l2 -> NoDup (num <$> l1) -> merge_sort num_le l1 = merge_sort num_le l2.
Proof.
  intros Hperm Hnd.
  apply (StronglySorted_unique_strong num_le).
  - intros x1 x2 Hx1 Hx2 H12 H21. unfold num_le in *.
    rewrite merge_sort_Permutation in Hx1, Hx2. rewrite <- Hperm in Hx2.
    apply (same_number_same_element num l1); auto. lia.
  - apply StronglySorted_merge_sort; apply _.
  - apply StronglySorted_merge_sort; apply _.
  - now rewrite !merge_sort_Permutation.
Qed.

(** X3.  The order of the lines of a manifest has no influence on what a
    successful parse returns: a manifest with the same lines in another
    order parses to the same list of descriptors, in ascending order of
    partition number. *)
Theorem parse_input_order_irrelevant (fs : gmap string file) (environ : gmap string string)
    (lines lines' : list string) (parts : list partition) :
  lines ≡ₚ lines' ->
  parse_input fs environ lines = Ok parts ->
  parse_input fs environ lines' = Ok parts.
Proof.
  intros Hperm H. apply parse_input_ok in H as [Hacc ->].
  assert (parsed_lines environ lines ≡ₚ parsed_lines environ lines') as Hpl.
  { unfold parsed_lines. now rewrite Hperm. }
  destruct (all_accepted_descriptors _ _ _ _ Hacc) as (_ & Hnums & Hnodup).
  apply all_accepted_iff in Hacc as (Hall & Hnd & _).
  apply parse_input_ok. split.
  - apply all_accepted_iff. rewrite <- (Permutation_length Hperm). split; [|split].
    + rewrite <- Hpl. exact Hall.
    + rewrite <- Hpl. exact Hnd.
    + intros n Hn. inversion Hn.
  - apply merge_sort_num_unique.
    + now rewrite Hpl.
    + rewrite <- Hnums. exact Hnd.
Qed.

Lemma parse_input_order_irrelevant_witness :
  parse_input demo_files ∅ [line_of "a.img system 1"; line_of "b.img vendor 2"]
  = Ok [demo_system; demo_vendor].
Proof.
  apply (parse_input_order_irrelevant demo_files ∅
           [line_of "b.img vendor 2"; line_of "a.img system 1"]).
  - apply perm_swap.
  - vm_compute. reflexivity.
Defined.

Lemma directive_none_iff (environ : gmap string string) (line : string) :
  directive environ line = None <-> ignored line.
Proof.
  unfold directive, ignored. destruct (strip line) as [|c s] eqn:E.
  - split; auto.
  - destruct (Ascii.eqb_spec c "#") as [-> | Hc].
    + split; [intros _ | reflexivity]. right. left. eauto.
    + destruct (Nat.eqb_spec (length (split (String c s))) 3) as [Hlen | Hlen].
      * split; [discriminate |].
        intros [[=] | [[rest [= -> _]] | Hne]]; [congruence | contradiction].
      * split; [intros _ | reflexivity]. right. right. exact Hlen.
Qed.

Lemma all_accepted_more_lines (fs : gmap string file) (total total' : Z)
    (used : list Z) (todo : list (list string)) :
  total <= total' -> all_accepted fs total used todo -> all_accepted fs total' used todo.
Proof.
  intros Hle. rewrite !all_accepted_iff. intros (Hall & Hnd & Hfresh).
  repeat split; try assumption.
  eapply Forall_impl; [exact Hall |].
  intros l (n & Hf & Hn & Hr). exists n. repeat split; try assumption; lia.
Qed.

(** X4.  A blank line, a comment line (also one that is indented) or a
    line that does not have exactly three fields may be added anywhere to
    a manifest that parses: the result is the same.  (Such lines count in
    the bound of the range check, which grows by one.) *)
Theorem parse_input_skips_ignored_lines (fs : gmap string file)
    (environ : gmap string string) (pre post : list string) (line : string)
    (parts : list partition) :
  ignored line ->
  parse_input fs environ (pre ++ post) = Ok parts ->
  parse_input fs environ (pre ++ line :: post) = Ok parts.
Proof.
  intros Hline H. apply directive_none_iff with (environ := environ) in Hline.
  apply parse_input_ok in H as [Hacc ->].
  assert (parsed_lines environ (pre ++ line :: post) = parsed_lines environ (pre ++ post))
    as Hpl.
  { unfold parsed_lines. rewrite !omap_app. cbn [omap list_omap]. now rewrite Hline. }
  apply parse_input_ok. rewrite Hpl. split; [|reflexivity].
  eapply all_accepted_more_lines; [|exact Hacc].
  rewrite !length_app. cbn [length]. lia.
Qed.

Lemma parse_input_skips_ignored_lines_witness :
  parse_input demo_files ∅
    [line_of "   # partitions"; line_of "a.img system 1"; line_of "";
     line_of "b.img vendor 2"; line_of "b.img vendor 2 extra"]
  = Ok [demo_system; demo_vendor].
Proof.
  apply (parse_input_skips_ignored_lines demo_files ∅ [] _ (line_of "   # partitions")).
  { right. left. eexists. vm_compute. reflexivity. }
  apply (parse_input_skips_ignored_lines demo_files ∅ [line_of "a.img system 1"] _
           (line_of "")).
  { left. vm_compute. reflexivity. }
  apply (parse_input_skips_ignored_lines demo_files ∅
           [line_of "a.img system 1"; line_of "b.img vendor 2"] []
           (line_of "b.img vendor 2 extra")).
  { right. right. vm_compute. discriminate. }
  vm_compute. reflexivity.
Defined.

(** ** parse_input: how it fails *)

(** Every entry of [parsed_lines] has three tokens. *)
Lemma parsed_lines_three (environ : gmap string string) (lines : list string)
    (line : list string) :
  line ∈ parsed_lines environ lines ->
  exists line0 line1 line2, line = [line0; line1; line2].
Proof.
  intros H. apply list_elem_of_omap in H as (l & _ & Hd).
  apply directive_tokens in Hd as [_ Hlen].
  destruct line as [|line0 [|line1 [|line2 [|extra rest]]]]; try discriminate. eauto.
Qed.

(** One pass of the second loop on a directive of three tokens: the
    checks in the order the code makes them. *)
Lemma add_directive_err (fs : gmap string file) (total : Z) (ps : list partition)
    (used : gset Z) (line0 line1 line2 : string) (e : exn) :
  add_directive fs total (ps, used) [line0; line1; line2] = Err e <->
  (fs !! line0 = None /\ e = FileNotFoundError line0)
  \/ (is_Some (fs !! line0)
      /\ ((py_int 10 line2 = None /\ e = InvalidNumberFormat line2)
          \/ exists n, py_int 10 line2 = Some n
               /\ (((n < 0 \/ n > total) /\ e = PartitionNumberOutOfRange n total)
                   \/ (0 <= n <= total /\ n ∈ used /\ e = DuplicatePartitionNumber n)))).
Proof.
  unfold add_directive, getsize. destruct (fs !! line0) as [f|]; cbn [rbind].
  - destruct (py_int 10 line2) as [n|].
    + destruct (Z.gtb_spec n total), (Z.ltb_spec n 0); cbn [orb];
        try (split;
             [ intros [= <-]; right; split; [eauto |]; right; exists n;
               split; [reflexivity |]; left; split; [lia | reflexivity]
             | intros [[[=] _] | [_ [[[=] _] | (m & [= <-] & [[_ ->] | (? & _)])]]];
               [reflexivity | lia] ]).
      destruct (bool_decide_reflect (n ∈ used)) as [Hin | Hnotin].
      * split.
        -- intros [= <-]. right. split; [eauto |]. right. exists n.
           split; [reflexivity |]. right. repeat split; [lia | lia | exact Hin].
        -- intros [[[=] _] | [_ [[[=] _] | (m & [= <-] & [[? _] | (_ & _ & ->)])]]];
             [lia | reflexivity].
      * split; [discriminate |].
        intros [[[=] _] | [_ [[[=] _] | (m & [= <-] & [[? _] | (_ & ? & _)])]]];
          [lia | contradiction].
    + split.
      * intros [= <-]. right. split; [eauto |]. left. auto.
      * intros [[[=] _] | [_ [[_ ->] | (m & [=] & _)]]]. reflexivity.
  - split.
    + intros [= <-]. left. auto.
    + intros [[_ ->] | [[x [=]] _]]. reflexivity.
Qed.

(** The failure of [parse_input] is the failure of the first directive
    that is not accepted; [used] are the numbers declared before it. *)
Lemma parse_input_first_failure (fs : gmap string file) (environ : gmap string string)
    (lines : list string) (e : exn) :
  parse_input fs environ lines = Err e <->
  exists pre line0 line1 line2 post,
    parsed_lines environ lines = pre ++ [line0; line1; line2] :: post
    /\ all_accepted fs (Z.of_nat (length lines)) [] pre
    /\ add_directive fs (Z.of_nat (length lines))
         (omap (descriptor fs) pre, list_to_set (omap declared_num pre))
         [line0; line1; line2] = Err e.
Proof.
  rewrite parse_input_err, add_directives_err.
  change (∅ : gset Z) with (list_to_set [] : gset Z). split.
  - intros (pre & line & post & st1 & Hsplit & Hpre & Hline).
    apply add_directives_ok in Hpre as [Hacc ->]. cbn [app] in Hline.
    destruct (parsed_lines_three environ lines line) as (l0 & l1 & l2 & ->).
    { rewrite Hsplit. apply elem_of_app. right. left. }
    exists pre, l0, l1, l2, post. auto.
  - intros (pre & l0 & l1 & l2 & post & Hsplit & Hacc & Hline).
    eexists pre, _, post, _. split; [exact Hsplit |]. split.
    + apply add_directives_ok. split; [exact Hacc | reflexivity].
    + exact Hline.
Qed.






(** ** parse_input: what it returns *)

Lemma ceil_mb_bounds (n : Z) :
  0 <= n -> 1048576 * (ceil_mb n - 1) < n <= 1048576 * ceil_mb n.
Proof.
  intros Hn. unfold ceil_mb.
  pose proof (Z.div_mod (n + 1048575) 1048576 ltac:(lia)) as Hdm.
  pose proof (Z.mod_pos_bound (n + 1048575) 1048576 ltac:(lia)) as Hm.
  lia.
Qed.

(** X9.  Every descriptor of a manifest that parses comes from one
    directive: [path] and [label] are its first two fields as they stand
    in the file, [num] is its third field read as an integer, between 0
    and the number of lines; [sizeByMb] is in decimal the least number of
    MiB that holds the source file, and [int()] reads that number back
    (so the prebuilt-table path never fails on it); the keys [start],
    [end] and [fd] are absent.  The size is taken below 2^53 bytes, where
    the division of the script is exact. *)
Theorem parse_input_result_fields (fs : gmap string file) (environ : gmap string string)
    (lines : list string) (parts : list partition) (p : partition) :
  parse_input fs environ lines = Ok parts ->
  p ∈ parts ->
  (forall f, fs !! path p = Some f -> (fsize f < 2 ^ 53)%N) ->
  exists tok f,
    [path p; label p; tok] ∈ parsed_lines environ lines
    /\ py_int 10 tok = Some (num p)
    /\ 0 <= num p <= Z.of_nat (length lines)
    /\ fs !! path p = Some f
    /\ sizeByMb p = py_str (ceil_mb (Z.of_N (fsize f)))
    /\ 1048576 * (ceil_mb (Z.of_N (fsize f)) - 1) < Z.of_N (fsize f)
       <= 1048576 * ceil_mb (Z.of_N (fsize f))
    /\ (forall s, size_mb p s = (Ok (ceil_mb (Z.of_N (fsize f))), s))
    /\ start p = None /\ end_ p = None /\ fd p = None.
Proof.
  intros H Hp _. apply parse_input_sorted in H as (Hperm & _ & Hrange & _).
  rewrite Forall_forall in Hrange. specialize (Hrange p Hp).
  rewrite Hperm in Hp. apply list_elem_of_omap in Hp as (line & Hline & Hd).
  destruct (parsed_lines_three _ _ _ Hline) as (l0 & l1 & l2 & ->).
  unfold descriptor in Hd. destruct (fs !! l0) as [f|] eqn:Hf; [|discriminate].
  destruct (py_int 10 l2) as [n|] eqn:Hn; [|discriminate].
  injection Hd as <-. cbn [path label num sizeByMb start end_ fd] in *.
  exists l2, f. split; [exact Hline |]. split; [exact Hn |]. split; [exact Hrange |].
  split; [exact Hf |]. split; [reflexivity |].
  split; [apply ceil_mb_bounds; lia |]. split; [|auto].
  intros s. unfold size_mb. cbn [sizeByMb]. rewrite py_int_py_str. reflexivity.
Qed.

Lemma parse_input_result_fields_witness :
  exists tok f,
    ["b.img"; "vendor"; tok]%string
      ∈ parsed_lines ∅ [line_of "a.img system 1"; line_of "b.img vendor +2"]
    /\ py_int 10 tok = Some 2
    /\ demo_files !! "b.img"%string = Some f
    /\ sizeByMb demo_vendor = py_str (ceil_mb (Z.of_N (fsize f))).
Proof.
  destruct (parse_input_result_fields demo_files ∅
              [line_of "a.img system 1"; line_of "b.img vendor +2"]
              [demo_system; demo_vendor] demo_vendor)
    as (tok & f & Hin & Htok & _ & Hf & Hsize & _).
  - vm_compute. reflexivity.
  - right. left.
  - intros f Hf. cbn [path demo_vendor] in Hf.
    assert (fsize <$> demo_files !! "b.img"%string = Some 5%N) as E by reflexivity.
    rewrite Hf in E. injection E as ->. reflexivity.
  - exists tok, f. auto.
Defined.

(** ** The general path for any number of partitions *)

(** One pass of the first loop in full, on an output of [k] whole MiB. *)
Lemma compose_one_effect (h : host) (out : string) (p p' : partition) (s s' : state)
    (k : N) (fo f : file) :
  programs h !! "dd"%string = Some ToolDd ->
  programs h !! simg2img_name h = Some ToolSimg2img ->
  st_fs s !! out = Some fo -> fsize fo = (k * MiB)%N -> (1 <= k)%N ->
  (forall i, (i < 4)%N -> fdata fo i = x00) ->
  st_fs s !! path p = Some f ->
  compose_one h out p s = (Ok p', s') ->
  exists (raw : file) (k' : N) (made : list (nat * string)),
    path p <> out
    /\ (k' * MiB = k * MiB + padded raw)%N
    /\ ((~ starts_with_magic f /\ raw = f /\ made = []
         /\ p' = set_end (py_str (Z.of_N k' * 2048 - 1))
                   (set_start (py_str (Z.of_N k * 2048)) p))
        \/ (starts_with_magic f /\ sparse_decode h f = Some raw
            /\ exists d temp,
                 made = [(d, temp)] /\ st_fs s !! temp = None /\ (d ∉ st_fds s)
                 /\ p' = set_end (py_str (Z.of_N k' * 2048 - 1))
                           (set_path temp (set_fd d (set_start (py_str (Z.of_N k * 2048)) p)))))
    /\ st_fs s' = <[out := dd_output fo true (k * MiB) (padded raw) (zero_extended raw)]>
                    (foldr (fun m fs => <[m.2 := raw]> fs) (st_fs s) made)
    /\ st_fds s' = made.*1 ++ st_fds s
    /\ st_tmp_made s' = st_tmp_made s ++ made.
Proof.
  intros Hdd Htool Hfo Hsize Hk Hzero Hf.
  assert (check_sparse (st_fs s) out = Ok false) as Hns.
  { apply (padded_output_not_sparse _ _ k). exists fo. auto. }
  unfold compose_one. intros H.
  apply bind_ok in H as ([p1 off] & s0 & Hbefore & H). cbn [fst snd] in H.
  apply (before_copy_inv _ _ _ _ _ _ _ Htool) in Hbefore as (Hoff & Hcase).
  apply getsize_ok in Hoff as (fo_ & Hfo_ & ->). rewrite Hfo in Hfo_. injection Hfo_ as <-.
  rewrite Hsize in *. destruct (sectors_of_blocks k) as [Hsec Hblk].
  apply copy_and_close_fields in H as (Hw & size & Hafter & ->).
  rewrite Hblk in Hw.
  apply (write_partition_ok _ _ _ _ _ _ _ Hdd) in Hw
    as (Hne & src & Hsrc & Hfs' & Hfds' & Hmade'); [|lia].
  rewrite N2Z.id in Hfs'.
  assert (1 <= fsize f)%N as Hpos.
  { destruct (N.eq_dec (fsize f) 0%N) as [Hz | Hz]; [|lia].
    pose proof (check_sparse_empty _ _ _ Hf Hz) as He.
    destruct Hcase as [(Hsp & _) | (Hsp & _)]; congruence. }
  assert (forall raw : file,
             st_fs s' = <[out := dd_output fo true (k * MiB) (padded raw) (zero_extended raw)]>
                          (st_fs s0) ->
             exists k' : N,
               (k' * MiB = k * MiB + padded raw)%N
               /\ set_end (py_str (size / 512 - 1)) p1
                  = set_end (py_str (Z.of_N k' * 2048 - 1)) p1) as Hend.
  { intros raw Hs'. destruct (padded_spec raw) as (blocks & Hpadded & _).
    exists (k + blocks)%N. split; [lia |].
    apply getsize_ok in Hafter as (fo' & Hfo' & ->).
    rewrite Hs', lookup_insert_eq in Hfo'. injection Hfo' as <-.
    assert (fsize (dd_output fo true (k * MiB) (padded raw) (zero_extended raw))
            = ((k + blocks) * MiB)%N) as ->.
    { rewrite dd_output_size, Hsize, Hpadded. unfold MiB.
      destruct (N.eqb_spec (blocks * 1048576) 0); lia. }
    destruct (sectors_of_blocks (k + blocks)) as [-> _]. reflexivity. }
  destruct Hcase as [(Hsp & -> & ->) | (Hsp & d & temp & src' & raw & Hfresh & Hd & Hsrc'
                                        & Hdec & -> & Hfs0 & Hfds0 & Hmade0)].
  - cbn [path set_start] in *. rewrite Hf in Hsrc. injection Hsrc as <-.
    rewrite Hfo in Hfs'. cbn [default] in Hfs'.
    destruct (Hend f Hfs') as (k' & Hk' & ->).
    exists f, k', []. split; [exact Hne |]. split; [exact Hk' |]. split.
    + left. split; [|rewrite Hsec; auto].
      intros Hm. apply (check_sparse_answer _ _ _ false Hf Hpos) in Hsp.
      apply Hsp in Hm. discriminate.
    + cbn [foldr fmap list_fmap app]. rewrite app_nil_r. auto.
  - cbn [path set_start set_fd set_path] in *.
    assert (temp <> out) as Hto by congruence.
    assert (path p <> out) as Hpo by (intros E; rewrite E in Hsp; congruence).
    rewrite Hf in Hsrc'. injection Hsrc' as <-.
    rewrite Hfs0, lookup_insert_ne, Hfo in Hfs' by congruence. cbn [default] in Hfs'.
    rewrite Hfs0, lookup_insert_eq in Hsrc. injection Hsrc as <-.
    rewrite <- Hfs0 in Hfs'.
    destruct (Hend raw Hfs') as (k' & Hk' & ->).
    exists raw, k', [(d, temp)]. split; [exact Hpo |]. split; [exact Hk' |]. split.
    + right. split; [|split; [exact Hdec |]].
      * apply (check_sparse_answer _ _ _ true Hf Hpos) in Hsp. apply Hsp. reflexivity.
      * exists d, temp. rewrite Hsec. auto.
    + cbn [foldr fmap list_fmap app fst snd]. rewrite Hfs', Hfs0, Hfds', Hfds0, Hmade', Hmade0.
      auto.
Qed.

Lemma pending_cons (q : partition) (qs : list partition) :
  pending (q :: qs)
  = match fd q with Some d => [(d, path q)] | None => [] end ++ pending qs.
Proof. unfold pending. cbn [omap list_omap]. destruct (fd q); reflexivity. Qed.

(** The first loop in full: where every partition lies in the output when
    the loop is over, and which other files there are then. *)
Lemma compose_loop_effect (h : host) (out : string) (fs0 : gmap string file)
    (parts placed : list partition) (s s' : state) (k : N) (fo : file)
    (temps : list string) :
  programs h !! "dd"%string = Some ToolDd ->
  programs h !! simg2img_name h = Some ToolSimg2img ->
  agrees fs0 out temps (st_fs s) ->
  st_fs s !! out = Some fo -> fsize fo = (k * MiB)%N -> (1 <= k)%N ->
  (forall i, (i < 4)%N -> fdata fo i = x00) ->
  Forall (fun p => is_Some (fs0 !! path p) /\ fd p = None) parts ->
  for_each (compose_one h out) parts s = (Ok placed, s') ->
  exists (img : file) (k' : N),
    st_fs s' !! out = Some img /\ fsize img = (k' * MiB)%N /\ (k <= k')%N
    /\ (forall i, (i < k * MiB)%N -> fdata img i = fdata fo i)
    /\ placements h fs0 img k parts placed k'
    /\ agrees fs0 out (temps ++ (pending placed).*2) (st_fs s')
    /\ (forall d, d ∈ st_fds s' <-> d ∈ (pending placed).*1 \/ d ∈ st_fds s)
    /\ (forall d, d ∈ (pending placed).*1 -> d ∉ st_fds s)
    /\ st_tmp_made s' = st_tmp_made s ++ pending placed.
Proof.
  intros Hdd Htool. revert placed s k fo temps.
  induction parts as [|p rest IH];
    intros placed s k fo temps Hagree Hfo Hsize Hk Hzero Hsrc H.
  - apply for_each_nil_ok in H as [-> ->]. exists fo, k.
    cbn [pending omap list_omap fmap list_fmap placements]. rewrite !app_nil_r.
    split; [exact Hfo |]. split; [exact Hsize |]. split; [lia |].
    split; [auto |]. split; [reflexivity |]. split; [exact Hagree |].
    split; [|split; [|reflexivity]].
    + intros d. split; [auto |]. intros [Hd | Hd]; [inversion Hd | exact Hd].
    + intros d Hd. inversion Hd.
  - apply for_each_cons_ok in H as (q & qs & s1 & Hp & Hrest & ->).
    apply Forall_cons in Hsrc as [[[f Hf0] Hfd] Hsrc].
    destruct Hagree as [Hsame Htemps].
    assert (path p <> out /\ st_fs s !! path p = Some f) as [Hpo Hf].
    { destruct (decide (path p = out)) as [E | Hne].
      - exfalso.
        assert (st_fs s !! path p = Some fo) as Hf' by (rewrite E; exact Hfo).
        destruct (compose_one_effect _ _ _ _ _ _ k fo fo Hdd Htool Hfo Hsize Hk Hzero Hf' Hp)
          as (? & ? & ? & Hne & _). contradiction.
      - split; [exact Hne |]. rewrite Hsame; [exact Hf0 | exact Hne |].
        intros Hin. destruct (Htemps _ Hin) as [Hnone _]. congruence. }
    destruct (compose_one_effect _ _ _ _ _ _ k fo f Hdd Htool Hfo Hsize Hk Hzero Hf Hp)
      as (raw & k1 & made & _ & Hk1 & Hcase & Hfs1 & Hfds1 & Hmade1).
    set (fo1 := dd_output fo true (k * MiB) (padded raw) (zero_extended raw)) in *.
    assert (fsize fo1 = (k1 * MiB)%N) as Hsize1.
    { subst fo1. rewrite dd_output_size, Hsize.
      destruct (N.eqb_spec (padded raw) 0); lia. }
    assert (k <= k1)%N as Hle1 by (unfold MiB in *; lia).
    assert (forall i, (i < k * MiB)%N -> fdata fo1 i = fdata fo i) as Hbelow1.
    { intros i Hi. subst fo1. apply dd_output_below; lia. }
    assert (made = match fd q with Some d => [(d, path q)] | None => [] end
            /\ num q = num p /\ label q = label p
            /\ sector_range q (Z.of_N k * 2048, Z.of_N k1 * 2048 - 1)
            /\ (forall d name, (d, name) ∈ made ->
                  st_fs s !! name = None /\ (d ∉ st_fds s))
            /\ st_fs s1 = <[out := fo1]> (foldr (fun m fs => <[m.2 := raw]> fs) (st_fs s) made)
            /\ ((~ starts_with_magic f /\ raw = f)
                \/ (starts_with_magic f /\ sparse_decode h f = Some raw)))
      as (Hq & Hnum & Hlabel & Hrange & Hfresh & Hfs1' & Hraw).
    { destruct Hcase as [(Hm & -> & -> & ->) | (Hm & Hdec & d & temp & -> & Hnone & Hd & ->)].
      - cbn [fd path set_end set_start num label].
        split; [rewrite Hfd; reflexivity |]. split; [reflexivity |]. split; [reflexivity |].
        split; [split; reflexivity |].
        split; [intros d0 name0 Hin; inversion Hin |].
        split; [exact Hfs1 |]. left. auto.
      - cbn [fd path set_end set_start set_path set_fd num label].
        split; [reflexivity |]. split; [reflexivity |]. split; [reflexivity |].
        split; [split; reflexivity |].
        split; [|split; [exact Hfs1 | right; auto]].
        intros d0 name0 Hin. apply list_elem_of_singleton in Hin.
        injection Hin as -> ->. auto. }
    clear Hcase.
    assert (agrees fs0 out (temps ++ made.*2) (st_fs s1)) as Hagree1.
    { split.
      - intros name Hname Hnotin. rewrite Hfs1', lookup_insert_ne by congruence.
        apply not_elem_of_app in Hnotin as [Hold Hnew].
        destruct (fd q) as [d|]; subst made; cbn [foldr fmap list_fmap snd] in *.
        + rewrite lookup_insert_ne; [auto |]. intros <-. apply Hnew. left.
        + auto.
      - intros t Ht. apply elem_of_app in Ht as [Ht | Ht]; [auto |].
        apply list_elem_of_fmap in Ht as ([d name] & -> & Hin). cbn [snd].
        destruct (Hfresh _ _ Hin) as [Hnone _].
        assert (name <> out) as Hno by congruence. split; [|exact Hno].
        destruct (decide (name ∈ temps)) as [Hold | Hnew]; [apply Htemps; exact Hold |].
        rewrite <- Hsame; assumption. }
    assert (st_fs s1 !! out = Some fo1) as Hfo1 by (rewrite Hfs1'; apply lookup_insert_eq).
    assert (forall i, (i < 4)%N -> fdata fo1 i = x00) as Hzero1.
    { intros i Hi. rewrite Hbelow1 by (unfold MiB; lia). auto. }
    destruct (IH _ _ _ _ _ Hagree1 Hfo1 Hsize1 ltac:(lia) Hzero1 Hsrc Hrest)
      as (img & k' & Himg & Hisize & Hle & Hbelow & Hplaced & Hagree' & Hfds & Hfreshd & Hmade).
    exists img, k'. rewrite pending_cons, <- Hq.
    split; [exact Himg |]. split; [exact Hisize |]. split; [lia |].
    split; [|split; [|split; [|split; [|split]]]].
    + intros i Hi. rewrite Hbelow by lia. apply Hbelow1. exact Hi.
    + cbn [placements]. exists k1. split; [|exact Hplaced].
      exists f, raw. destruct (padded_spec raw) as (blocks & Hpadded & Hfit & _).
      split; [exact Hf0 |]. split; [exact Hraw |]. split; [exact Hk1 |].
      split; [exact Hnum |]. split; [exact Hlabel |]. split; [exact Hrange |]. split.
      * intros i Hi. split.
        -- rewrite Hisize. unfold MiB in *. lia.
        -- rewrite Hbelow by (unfold MiB in *; lia). subst fo1.
           apply holds_at_write. exact Hi.
      * intros i Hi. rewrite Hbelow by (unfold MiB in *; lia). subst fo1.
        rewrite dd_output_inside by lia. unfold zero_extended.
        replace (k * MiB + i - k * MiB)%N with i by lia.
        destruct (N.ltb_spec i (fsize raw)); [lia | reflexivity].
    + rewrite fmap_app, app_assoc. exact Hagree'.
    + intros d. rewrite Hfds, Hfds1, fmap_app, !elem_of_app. tauto.
    + intros d Hd. rewrite fmap_app in Hd. apply elem_of_app in Hd as [Hd | Hd].
      * apply list_elem_of_fmap in Hd as ([d0 name] & -> & Hin). cbn [fst].
        apply (Hfresh _ _ Hin).
      * intros Hin. apply (Hfreshd d Hd). rewrite Hfds1. apply elem_of_app. now right.
    + rewrite Hmade, Hmade1, <- app_assoc. reflexivity.
Qed.

(** One pass of the second loop in full. *)
Lemma add_and_clean_effect (h : host) (out : string) (q : partition) (s s' : state)
    (u : unit) :
  programs h !! sgdisk_name h = Some ToolSgdisk ->
  add_and_clean h out q s = (Ok u, s') ->
  is_Some (st_fs s !! out)
  /\ st_fs s' = match fd q with
                | Some _ => delete (path q) (st_fs s)
                | None => st_fs s
                end
  /\ forall d, d ∈ st_fds s' <-> d ∈ st_fds s /\ fd q <> Some d.
Proof.
  intros Htool. unfold add_and_clean. intros H. step H.
  apply add_partition_ok in Hstep as (a' & b & _ & _ & Hrun).
  apply shell_command_ok in Hrun as (prog & args & t & fs' & [= <- <-] & Hp & Hrun & ->).
  rewrite Htool in Hp. injection Hp as <-. cbn [run_tool] in Hrun.
  unfold run_sgdisk in Hrun. cbn [last] in Hrun. unfold exists_ in Hrun.
  destruct (st_fs s !! out) as [fo|] eqn:Hfo; [|discriminate]. injection Hrun as <-.
  split; [eauto |]. destruct (fd q) as [d|].
  - step H. apply os_close_ok in Hstep as [_ ->]. apply os_remove_ok in H as [_ ->].
    cbn. split; [reflexivity |]. intros d0. rewrite list_elem_of_filter.
    split; intros [H1 H2]; split; auto; congruence.
  - apply ret_ok in H as [_ ->]. cbn. split; [reflexivity |]. intros d0.
    split; [intros Hd; split; [exact Hd | discriminate] | tauto].
Qed.

(** The second loop in full: it removes the temporary files the
    dictionaries refer to, closes their descriptors, and leaves every
    other file and descriptor as it is. *)
Lemma table_loop_effect (h : host) (out : string) (placed : list partition) (s s' : state)
    (us : list unit) :
  programs h !! sgdisk_name h = Some ToolSgdisk ->
  for_each (add_and_clean h out) placed s = (Ok us, s') ->
  (forall name, name ∉ (pending placed).*2 -> st_fs s' !! name = st_fs s !! name)
  /\ (forall name, name ∈ (pending placed).*2 -> st_fs s' !! name = None)
  /\ (forall d, d ∈ st_fds s' <-> d ∈ st_fds s /\ d ∉ (pending placed).*1).
Proof.
  intros Htool. revert s us. induction placed as [|q rest IH]; intros s us H.
  - apply for_each_nil_ok in H as [_ ->]. cbn. split; [reflexivity |]. split.
    + intros name Hin. inversion Hin.
    + intros d. split; [|tauto]. intros Hd. split; [exact Hd |].
      intros Hin. inversion Hin.
  - apply for_each_cons_ok in H as (u & us' & s1 & Hq & Hrest & _).
    pose proof (table_loop_cleans _ _ _ _ _ _ Htool Hrest) as (Hgone & _).
    apply (add_and_clean_effect _ _ _ _ _ _ Htool) in Hq as (_ & Hfs1 & Hfds1).
    destruct (IH _ _ Hrest) as (Hkeep & Hdel & Hfds).
    rewrite pending_cons, !fmap_app. split; [|split].
    + intros name Hnotin. apply not_elem_of_app in Hnotin as [Hhere Hlater].
      rewrite (Hkeep _ Hlater), Hfs1. destruct (fd q) as [d|]; [|reflexivity].
      apply lookup_delete_ne. intros E. apply Hhere. rewrite E. left.
    + intros name Hin. apply elem_of_app in Hin as [Hin | Hin]; [|apply Hdel; exact Hin].
      apply Hgone. rewrite Hfs1. destruct (fd q) as [d|]; [|inversion Hin].
      apply list_elem_of_singleton in Hin as ->. apply lookup_delete_eq.
    + intros d. rewrite Hfds, Hfds1, not_elem_of_app.
      destruct (fd q) as [d0|]; cbn [fmap list_fmap fst].
      * rewrite list_elem_of_singleton. split.
        -- intros [[H1 H2] H3]. split; [exact H1 |]. split; [congruence | exact H3].
        -- intros [H1 [H2 H3]]. split; [|exact H3]. split; [exact H1 | congruence].
      * split.
        -- intros [[H1 _] H3]. split; [exact H1 |]. split; [|exact H3].
           intros Hin. inversion Hin.
        -- intros [H1 [_ H3]]. split; [|exact H3]. split; [exact H1 | discriminate].
Qed.

Lemma placements_grow (h : host) (fs0 : gmap string file) (img : file) (k k_end : N)
    (parts placed : list partition) :
  placements h fs0 img k parts placed k_end -> (k <= k_end)%N.
Proof.
  revert k placed; induction parts as [|p rest IH]; intros k [|q qs]; cbn [placements];
    try tauto; [lia |].
  intros (k1 & (f & raw & _ & _ & Hk1 & _) & Hrest). apply IH in Hrest.
  unfold MiB in *. lia.
Qed.

(** What lies in the blocks before [k_end] is still there in an image
    that is the same up to that block. *)
Lemma placements_later (h : host) (fs0 : gmap string file) (img img' : file) (k k_end : N)
    (parts placed : list partition) :
  placements h fs0 img k parts placed k_end ->
  (fsize img <= fsize img')%N ->
  (forall i, (i < k_end * MiB)%N -> fdata img' i = fdata img i) ->
  placements h fs0 img' k parts placed k_end.
Proof.
  intros H Hsize Hsame. revert k placed H.
  induction parts as [|p rest IH]; intros k [|q qs]; cbn [placements]; try tauto.
  intros (k1 & Hone & Hrest). exists k1. split; [|apply IH; exact Hrest].
  apply placements_grow in Hrest.
  destruct Hone as (f & raw & Hf & Hraw & Hk1 & Hnum & Hlabel & Hrange & Hholds & Hzero).
  destruct (padded_spec raw) as (blocks & Hpadded & Hfit & _).
  exists f, raw. repeat (split; [assumption |]). split.
  - intros i Hi. destruct (Hholds i Hi) as [Hin Hbyte]. split; [lia |].
    rewrite Hsame; [exact Hbyte | unfold MiB in *; lia].
  - intros i Hi. rewrite Hsame; [auto | unfold MiB in *; lia].
Qed.

(** The general path in full, on a host with the usual programs: the
    image, the other files and the descriptors when it returns. *)
Lemma general_path_effect (h : host) (out : string) (parts placed : list partition)
    (s s' : state) :
  standard_host h ->
  Forall (fun p => is_Some (st_fs s !! path p) /\ fd p = None) parts ->
  general_path h out parts s = (Ok placed, s') ->
  exists (img : file) (k_end : N),
    st_fs s' !! out = Some img
    /\ fsize img = ((k_end + 1) * MiB)%N
    /\ placements h (st_fs s) img 1 parts placed k_end
    /\ (forall name, name <> out -> st_fs s' !! name = st_fs s !! name)
    /\ (forall d, d ∈ st_fds s' <-> d ∈ st_fds s).
Proof.
  intros (Hdd & _ & Hsg & Htool) Hsrc H.
  apply general_path_ok in H as (s1 & s2 & s3 & s4 & size & us & Hpad & Hloop & Hsize
                                 & Hlast & Hclear & Htable).
  apply shell_command_ok in Hpad as (prog & args & t & fs1 & [= <- <-] & Hp & Hrun & ->).
  rewrite Hdd in Hp. injection Hp as <-. cbn [run_tool] in Hrun.
  apply run_dd_pad_first in Hrun as ->.
  set (fo1 := dd_output (default empty_file (st_fs s !! out)) false 0 MiB (fun _ => x00))
    in *.
  apply (compose_loop_effect h out (st_fs s) _ _ _ _ 1 fo1 [] Hdd Htool) in Hloop
    as (img2 & k' & Himg2 & Hsize2 & Hle & _ & Hplaced & [Hsame Htemps] & Hfds & Hfresh & _).
  2: { split; [|intros t Ht; inversion Ht]. intros name Hname _. cbn [st_fs].
       now rewrite lookup_insert_ne by congruence. }
  2: { cbn [st_fs]. apply lookup_insert_eq. }
  2: { reflexivity. }
  2: { lia. }
  2: { intros i Hi. subst fo1. rewrite dd_output_inside; [reflexivity | unfold MiB; lia]. }
  2: { exact Hsrc. }
  cbn [st_fds app] in Hfds, Hfresh.
  apply getsize_ok in Hsize as (img2_ & Himg2_ & ->).
  rewrite Himg2 in Himg2_. injection Himg2_ as <-. rewrite Hsize2 in Hlast.
  destruct (sectors_of_blocks k') as [_ Hblk]. rewrite Hblk in Hlast.
  apply shell_command_ok in Hlast as (prog & args & t & fs3 & [= <- <-] & Hp & Hrun & ->).
  rewrite Hdd in Hp. injection Hp as <-. cbn [run_tool] in Hrun.
  apply run_dd_pad_last in Hrun; [|lia]. rewrite Himg2, N2Z.id in Hrun.
  cbn [default] in Hrun.
  set (img := dd_output img2 true (k' * MiB) MiB (fun _ => x00)) in *. subst fs3.
  unfold clear_partition_table in Hclear.
  apply shell_command_ok in Hclear as (prog & args & t & fs4 & [= <- <-] & Hp & Hrun & ->).
  rewrite Hsg in Hp. injection Hp as <-. cbn [run_tool] in Hrun.
  unfold run_sgdisk in Hrun. cbn [last] in Hrun. destruct (exists_ _ out); [|discriminate].
  injection Hrun as <-.
  apply (table_loop_effect _ _ _ _ _ _ Hsg) in Htable as (Hkeep & Hgone & Hfds').
  cbn [st_fs st_fds] in Hkeep, Hfds'.
  assert (out ∉ (pending placed).*2) as Hout.
  { intros Hin. destruct (Htemps out Hin) as [_ Hne]. congruence. }
  exists img, k'. split; [|split; [|split; [|split]]].
  - rewrite (Hkeep _ Hout). apply lookup_insert_eq.
  - subst img. rewrite dd_output_size, Hsize2. unfold MiB. cbn [N.eqb]. lia.
  - apply (placements_later _ _ img2); [exact Hplaced | |].
    + subst img. rewrite dd_output_size. unfold MiB. cbn [N.eqb]. lia.
    + intros i Hi. subst img. apply dd_output_below; lia.
  - intros name Hname. destruct (decide (name ∈ (pending placed).*2)) as [Hin | Hnotin].
    + rewrite (Hgone _ Hin). symmetry. apply Htemps. exact Hin.
    + rewrite (Hkeep _ Hnotin), lookup_insert_ne by congruence. apply Hsame; assumption.
  - intros d. rewrite Hfds', Hfds. split; [|intros Hd; split; [auto |]].
    + intros [[Hd | Hd] Hnot]; [contradiction | exact Hd].
    + intros Hin. apply (Hfresh d Hin). exact Hd.
Qed.

Lemma parse_input_sources (fs : gmap string file) (environ : gmap string string)
    (lines : list string) (parts : list partition) :
  parse_input fs environ lines = Ok parts ->
  Forall (fun p => is_Some (fs !! path p) /\ fd p = None) parts.
Proof.
  intros H. apply parse_input_sorted in H as (Hperm & _).
  apply Forall_forall. intros p Hp. rewrite Hperm in Hp.
  apply list_elem_of_omap in Hp as (line & _ & Hd).
  destruct (descriptor_declared _ _ _ Hd) as (_ & Hf & -> & _).
  apply descriptor_fresh in Hd as (Hfd & _). auto.
Qed.

Lemma append_length (a b : string) :
  String.length (a +:+ b) = (String.length a + String.length b)%nat.
Proof. induction a as [|c a IH]; simpl; [reflexivity | f_equal; exact IH]. Qed.

Lemma qcow2_name_differs (name : string) : (name +:+ ".qcow2")%string <> name.
Proof.
  intros E. apply (f_equal String.length) in E. rewrite append_length in E. cbn in E. lia.
Qed.

(** What [rm -rf name] leaves, on a host where [rm] is [rm]. *)
Lemma shell_rm_ok (h : host) (name : string) (s s' : state) (u : unit) :
  programs h !! "rm"%string = Some ToolRm ->
  shell_command h ["rm"; "-rf"; name]%string s = (Ok u, s') ->
  st_fs s' = delete name (st_fs s) /\ st_fds s' = st_fds s.
Proof.
  intros Hrm H.
  apply shell_command_ok in H as (prog & args & t & fs' & [= <- <-] & Hp & Hrun & ->).
  rewrite Hrm in Hp. injection Hp as <-. cbn in Hrun. injection Hrun as <-. auto.
Qed.

(** X10.  When [main] returns, on a host with the usual programs, the
    output image holds every partition of the manifest where the table
    says it is: the descriptors lie one after the other from block 1 (one
    MiB, sector 2048) on, in ascending order of partition number; each
    takes the whole blocks of one MiB that hold the raw image of its
    source (the source file, or what [simg2img] decodes it to when it
    starts with the sparse magic), followed by zeros; the sector range
    handed to [sgdisk --new] for it is the range of these blocks; and the
    image ends one MiB after the last partition. *)
Theorem main_image_layout (h : host) (arg_input arg_output : option string)
    (s s' : state) :
  standard_host h ->
  main h arg_input arg_output s = (Ok tt, s') ->
  let out := output_name h arg_output in
  let fs0 := delete (out +:+ ".qcow2")%string (st_fs s) in
  exists lines parts placed img k_end before entries,
    readlines fs0 (config_name arg_input) = Ok lines
    /\ parse_input fs0 (environ h) lines = Ok parts
    /\ st_fs s' !! out = Some img
    /\ placements h fs0 img 1 parts placed k_end
    /\ fsize img = ((k_end + 1) * MiB)%N
    /\ st_trace s' = before ++ [sgdisk_name h; "--clear"%string; out] :: entries
    /\ Forall2 (fun q argv => exists a b,
                  start q = Some a /\ end_ q = Some b
                  /\ argv = add_partition_argv h (num q) (label q) a b out)
               placed entries.
Proof.
  intros Hstd H out fs0.
  apply main_ok in H as (s0 & lines & parts & placed & Hrm & Hl & Hp & H).
  fold out in Hrm, H.
  apply (shell_rm_ok _ _ _ _ _ (proj1 (proj2 Hstd))) in Hrm as [Hfs0 _].
  fold fs0 in Hfs0. rewrite Hfs0 in Hl, Hp.
  pose proof (parse_input_sources _ _ _ _ Hp) as Hsrc. rewrite <- Hfs0 in Hsrc.
  destruct (general_path_effect _ _ _ _ _ _ Hstd Hsrc H)
    as (img & k_end & Himg & Hsize & Hplaced & _).
  rewrite Hfs0 in Hplaced.
  apply general_path_ok in H as (s1 & s2 & s3 & s4 & size & us & _ & _ & _ & _ & Hc & Ht).
  unfold clear_partition_table in Hc. apply shell_command_frame in Hc as (Hc & _).
  apply table_loop_trace in Ht as (entries & Ht & Hentries).
  exists lines, parts, placed, img, k_end, (st_trace s3), entries.
  repeat (split; [assumption |]). split; [|exact Hentries].
  rewrite Ht, Hc, <- app_assoc. reflexivity.
Qed.

Lemma main_image_layout_witness :
  exists s' img k_end,
    main demo_host None None demo_state = (Ok tt, s')
    /\ st_fs s' !! "/out/combined.img"%string = Some img
    /\ fsize img = ((k_end + 1) * MiB)%N.
Proof.
  destruct demo_trace as [Hrun _]. revert Hrun.
  generalize (snd (main demo_host None None demo_state)). intros s' Hrun.
  destruct (main_image_layout _ _ _ _ _ demo_host_standard Hrun)
    as (lines & parts & placed & img & k_end & before & entries
        & _ & _ & Himg & _ & Hsize & _).
  exists s', img, k_end. auto.
Defined.

(** X11.  When [main] returns, on a host with the usual programs, it has
    changed nothing but the output image: the file [<output>.qcow2] is
    gone, every other file is as it was (no source image is modified and
    no temporary file is left), and the descriptors that are open are the
    ones that were open before. *)
Theorem main_success_touches_only_output (h : host)
    (arg_input arg_output : option string) (s s' : state) :
  standard_host h ->
  main h arg_input arg_output s = (Ok tt, s') ->
  let out := output_name h arg_output in
  is_Some (st_fs s' !! out)
  /\ st_fs s' !! (out +:+ ".qcow2")%string = None
  /\ (forall name, name <> out -> name <> (out +:+ ".qcow2")%string ->
                   st_fs s' !! name = st_fs s !! name)
  /\ (forall d, d ∈ st_fds s' <-> d ∈ st_fds s).
Proof.
  intros Hstd H out.
  apply main_ok in H as (s0 & lines & parts & placed & Hrm & Hl & Hp & H).
  fold out in Hrm, H.
  apply (shell_rm_ok _ _ _ _ _ (proj1 (proj2 Hstd))) in Hrm as [Hfs0 Hfds0].
  pose proof (parse_input_sources _ _ _ _ Hp) as Hsrc.
  destruct (general_path_effect _ _ _ _ _ _ Hstd Hsrc H)
    as (img & k_end & Himg & _ & _ & Hsame & Hfds).
  split; [eauto |]. split; [|split].
  - rewrite Hsame by apply qcow2_name_differs. rewrite Hfs0. apply lookup_delete_eq.
  - intros name Hname Hq. rewrite (Hsame _ Hname), Hfs0. now apply lookup_delete_ne.
  - intros d. now rewrite Hfds, Hfds0.
Qed.

Lemma main_success_touches_only_output_witness :
  exists s',
    main demo_host None None demo_state = (Ok tt, s')
    /\ st_fs s' !! "a.img"%string = st_fs demo_state !! "a.img"%string
    /\ st_fs s' !! "/tmp/tmp1"%string = None.
Proof.
  destruct demo_trace as [Hrun _]. revert Hrun.
  generalize (snd (main demo_host None None demo_state)). intros s' Hrun.
  destruct (main_success_touches_only_output _ _ _ _ _ demo_host_standard Hrun)
    as (_ & _ & Hsame & _).
  exists s'. split; [exact Hrun |]. split.
  - apply Hsame; discriminate.
  - rewrite Hsame by discriminate. reflexivity.
Defined.

(** ** The commands of a run, however it ends *)

Lemma orderly_bind (P : list string -> Prop) {A B} (m : M A) (k : A -> M B) :
  orderly P m -> (forall a, orderly P (k a)) -> orderly P (bind m k).
Proof.
  intros Hm Hk s r s' H. apply bind_inv in H as [(a & s1 & H1 & H2) | (e & H1 & ->)].
  - destruct (Hm _ _ _ H1) as (st1 & Ht1 & Hall1 & _).
    destruct (Hk a _ _ _ H2) as (st2 & Ht2 & Hall2 & Hlast2).
    exists (st1 ++ st2). split; [rewrite Ht2, Ht1, app_assoc; reflexivity |].
    split; [apply Forall_app; auto |].
    intros argv Hr. rewrite last_app, (Hlast2 _ Hr). reflexivity.
  - destruct (Hm _ _ _ H1) as (st1 & Ht1 & Hall1 & Hlast1).
    exists st1. split; [exact Ht1 |]. split; [exact Hall1 |].
    intros argv [= ->]. apply Hlast1. reflexivity.
Qed.

(** A step that starts nothing and does not fail the way a command does. *)
Lemma orderly_quiet (P : list string -> Prop) {A} (m : M A) :
  (forall s r s', m s = (r, s') ->
     st_trace s' = st_trace s /\ forall argv, r <> Err (CalledProcessError argv)) ->
  orderly P m.
Proof.
  intros Hm s r s' H. destruct (Hm _ _ _ H) as [Ht Hr].
  exists []. rewrite app_nil_r. split; [exact Ht |]. split; [constructor |].
  intros argv E. destruct (Hr _ E).
Qed.

Lemma orderly_ret (P : list string -> Prop) {A} (a : A) : orderly P (ret a).
Proof. apply orderly_quiet. intros s r s' [= <- <-]. split; [reflexivity | discriminate]. Qed.

Lemma orderly_raise (P : list string -> Prop) {A} (e : exn) :
  (forall argv, e <> CalledProcessError argv) -> orderly P (@raise A e).
Proof.
  intros He. apply orderly_quiet. intros s r s' [= <- <-]. split; [reflexivity |].
  intros argv [= E]. exact (He _ E).
Qed.

Lemma orderly_with_fs (P : list string -> Prop) {A} (f : gmap string file -> result A) :
  (forall fs argv, f fs <> Err (CalledProcessError argv)) -> orderly P (with_fs f).
Proof.
  intros Hf. apply orderly_quiet. intros s r s' [= <- <-]. split; [reflexivity | apply Hf].
Qed.

Lemma orderly_shell_command (P : list string -> Prop) (h : host) (argv : list string) :
  P argv -> orderly P (shell_command h argv).
Proof.
  intros HP s r s' H. exists [argv].
  pose proof (shell_command_frame _ _ _ _ _ H) as (Ht & _).
  split; [exact Ht |]. split; [repeat constructor; exact HP |].
  intros argv' ->. revert H. unfold shell_command.
  destruct argv as [|prog args]; [discriminate |].
  destruct (programs h !! prog); [|discriminate].
  destruct (faulty h _); [intros [= <- _]; reflexivity |].
  destruct (run_tool h _ _ _); [discriminate | intros [= <- _]; reflexivity].
Qed.

Lemma orderly_for_each (P : list string -> Prop) {A B} (body : A -> M B) (l : list A) :
  (forall a, orderly P (body a)) -> orderly P (for_each body l).
Proof.
  intros Hbody. induction l as [|a l IH]; cbn [for_each]; [apply orderly_ret |].
  apply orderly_bind; [apply Hbody |]. intros b.
  apply orderly_bind; [exact IH |]. intros bs. apply orderly_ret.
Qed.

Lemma orderly_mkstemp (P : list string -> Prop) : orderly P mkstemp.
Proof.
  apply orderly_quiet. intros s r s'. unfold mkstemp.
  destruct (pick_tmp _ _) as [[name rest]|]; intros [= <- <-];
    (split; [reflexivity | discriminate]).
Qed.

Lemma orderly_os_close (P : list string -> Prop) (d : nat) : orderly P (os_close d).
Proof.
  apply orderly_quiet. intros s r s'. unfold os_close.
  destruct (bool_decide _); intros [= <- <-]; (split; [reflexivity | discriminate]).
Qed.

Lemma orderly_os_remove (P : list string -> Prop) (name : string) :
  orderly P (os_remove name).
Proof.
  apply orderly_quiet. intros s r s'. unfold os_remove.
  destruct (exists_ _ _); intros [= <- <-]; (split; [reflexivity | discriminate]).
Qed.

Lemma orderly_item (P : list string -> Prop) (key : string) (v : option string) :
  orderly P (item key v).
Proof.
  destruct v; [apply orderly_ret | apply orderly_raise; discriminate].
Qed.

Lemma orderly_size_mb (P : list string -> Prop) (p : partition) : orderly P (size_mb p).
Proof.
  unfold size_mb. destruct (py_int 10 _); [apply orderly_ret |].
  apply orderly_raise. discriminate.
Qed.

Lemma getsize_not_a_command (fs : gmap string file) (name : string) (argv : list string) :
  getsize fs name <> Err (CalledProcessError argv).
Proof. unfold getsize. destruct (fs !! name); discriminate. Qed.

Lemma check_sparse_not_a_command (fs : gmap string file) (name : string)
    (argv : list string) :
  check_sparse fs name <> Err (CalledProcessError argv).
Proof.
  unfold check_sparse. destruct (fs !! name); [|discriminate].
  destruct (py_int 16 _); discriminate.
Qed.

Lemma parse_input_not_a_command (fs : gmap string file) (environ : gmap string string)
    (lines : list string) (argv : list string) :
  parse_input fs environ lines <> Err (CalledProcessError argv).
Proof.
  intros H. apply parse_input_first_failure in H
    as (pre & l0 & l1 & l2 & post & _ & _ & H).
  apply add_directive_err in H
    as [[_ [=]] | [_ [[_ [=]] | (m & _ & [[_ [=]] | (_ & _ & [=])])]]].
Qed.

(** Applies the rules above to a computation written with [do]. *)
Ltac orderly_steps :=
  repeat first
    [ apply orderly_bind; [|intros ?]
    | apply orderly_ret
    | apply orderly_mkstemp
    | apply orderly_os_close
    | apply orderly_os_remove
    | apply orderly_item
    | apply orderly_size_mb
    | apply orderly_raise; discriminate
    | apply orderly_with_fs; intros ? ?;
      first [ apply getsize_not_a_command | apply check_sparse_not_a_command
            | apply parse_input_not_a_command | discriminate ] ].

Lemma orderly_compose_one (h : host) (out : string) (p : partition) :
  orderly (output_command h out) (compose_one h out p).
Proof.
  unfold compose_one, before_copy, copy_and_close, write_partition, unsparse_partition.
  orderly_steps.
  - match goal with b : bool |- _ => destruct b end; orderly_steps.
    apply orderly_shell_command. right. left. eauto.
  - apply orderly_shell_command. left. eauto.
Qed.

Lemma orderly_add_and_clean (h : host) (out : string) (p : partition) :
  orderly (output_command h out) (add_and_clean h out p).
Proof.
  unfold add_and_clean, add_partition. orderly_steps.
  - apply orderly_shell_command. right. right. unfold add_partition_argv.
    eexists [_; _; _]. reflexivity.
  - destruct (fd p); orderly_steps.
Qed.

Lemma orderly_general_path (h : host) (out : string) (parts : list partition) :
  orderly (output_command h out) (general_path h out parts).
Proof.
  unfold general_path, clear_partition_table. orderly_steps.
  - apply orderly_shell_command. left. eauto.
  - apply orderly_for_each. intros p. apply orderly_compose_one.
  - apply orderly_shell_command. left. eauto.
  - apply orderly_shell_command. right. right. eexists [_]. reflexivity.
  - apply orderly_for_each. intros p. apply orderly_add_and_clean.
Qed.

Lemma orderly_compose (h : host) (out : string) (parts : list partition) :
  orderly (output_command h out) (compose h out parts).
Proof.
  assert (orderly (output_command h out) (do_ general_path h out parts; ret tt)) as Hgen.
  { apply orderly_bind; [apply orderly_general_path | intros ?; apply orderly_ret]. }
  unfold compose. apply orderly_bind; [orderly_steps |]. intros out_exists.
  destruct parts as [|p0 [|p1 [|p2 rest]]]; try exact Hgen.
  destruct out_exists.
  - unfold shortcut_path. orderly_steps; apply orderly_shell_command; left; eauto.
  - apply orderly_bind; [orderly_steps |]. intros templates.
    apply orderly_bind; [|intros ?; exact Hgen].
    destruct templates; [|apply orderly_ret].
    unfold template_path. orderly_steps; apply orderly_shell_command; left; eauto.
Qed.

(** Everything [main] does after its first command. *)
Lemma orderly_main_rest (h : host) (arg_input arg_output : option string) :
  orderly (output_command h (output_name h arg_output))
    (do config_exists <- with_fs (fun fs => Ok (exists_ fs (config_name arg_input)));
     if negb config_exists then raise (InvalidConfigFile (config_name arg_input))
     else
       do lines <- with_fs (fun fs => readlines fs (config_name arg_input));
       do partitions <- with_fs (fun fs => parse_input fs (environ h) lines);
       compose h (output_name h arg_output) partitions).
Proof.
  apply orderly_bind; [orderly_steps |]. intros config_exists.
  destruct (negb config_exists); [apply orderly_raise; discriminate |].
  apply orderly_bind.
  { apply orderly_with_fs. intros fs argv. unfold readlines.
    destruct (fs !! _); discriminate. }
  intros lines. apply orderly_bind; [orderly_steps |]. intros parts.
  apply orderly_compose.
Qed.

(** X12.  However a run of [main] ends, the first command it starts is
    [rm -rf <output>.qcow2], and every command after it works on the
    output image: a [dd] that writes it, the [simg2img] of a source into
    a temporary file, or an [sgdisk] (under the name the environment
    gives it) on it.  No other program is started and no other file is
    the target of a [dd]. *)
Theorem main_commands_target_output (h : host) (arg_input arg_output : option string)
    (s : state) :
  let out := output_name h arg_output in
  exists started,
    st_trace (snd (main h arg_input arg_output s))
    = st_trace s ++ ["rm"; "-rf"; out +:+ ".qcow2"]%string :: started
    /\ Forall (output_command h out) started.
Proof.
  intros out. destruct (main h arg_input arg_output s) as [r s'] eqn:H. cbn [snd].
  unfold main in H. fold out in H.
  apply bind_inv in H as [(u & s1 & Hrm & H) | (e & Hrm & _)].
  - apply shell_command_frame in Hrm as (Ht & _).
    destruct (orderly_main_rest h arg_input arg_output _ _ _ H) as (started & Ht' & Hall & _).
    exists started. split; [|exact Hall]. rewrite Ht', Ht, <- app_assoc. reflexivity.
  - apply shell_command_frame in Hrm as (Ht & _). exists []. split; [exact Ht | constructor].
Qed.

(** X13.  The script stops at the first command that fails: when a run
    of [main] ends in [CalledProcessError] for a command, that command is
    the last one the run started. *)
Theorem main_stops_at_failed_command (h : host) (arg_input arg_output : option string)
    (s s' : state) (argv : list string) :
  main h arg_input arg_output s = (Err (CalledProcessError argv), s') ->
  exists earlier, st_trace s' = st_trace s ++ earlier ++ [argv].
Proof.
  unfold main. intros H.
  assert (forall started : list (list string),
             last started = Some argv -> exists earlier, started = earlier ++ [argv]) as Hlast.
  { intros started Hl. destruct (last_Some started argv) as [[l' ->] _]; eauto. }
  apply bind_inv in H as [(u & s1 & Hrm & H) | (e & Hrm & [= <-])].
  - apply shell_command_frame in Hrm as (Ht & _).
    destruct (orderly_main_rest h arg_input arg_output _ _ _ H) as (started & Ht' & _ & Hl).
    destruct (Hlast _ (Hl _ eq_refl)) as [earlier ->].
    exists (["rm"; "-rf"; output_name h arg_output +:+ ".qcow2"]%string :: earlier).
    rewrite Ht', Ht, <- app_assoc. reflexivity.
  - destruct (orderly_shell_command (fun _ => True) h _ I _ _ _ Hrm) as (started & Ht & _ & Hl).
    destruct (Hlast _ (Hl _ eq_refl)) as [earlier ->]. exists earlier. exact Ht.
Qed.

Lemma main_stops_at_failed_command_witness :
  exists s' earlier,
    main clear_fails_host None None demo_state
    = (Err (CalledProcessError ["sgdisk"; "--clear"; "/out/combined.img"]%string), s')
    /\ st_trace s' = st_trace demo_state ++ earlier
                       ++ [["sgdisk"; "--clear"; "/out/combined.img"]%string].
Proof.
  assert (fst (main clear_fails_host None None demo_state)
          = Err (CalledProcessError ["sgdisk"; "--clear"; "/out/combined.img"]%string))
    as Hrun by (vm_compute; reflexivity).
  apply run_pair in Hrun. revert Hrun.
  generalize (snd (main clear_fails_host None None demo_state)). intros s' Hrun.
  destruct (main_stops_at_failed_command _ _ _ _ _ _ Hrun) as [earlier Ht].
  exists s', earlier. auto.
Defined.

(** ** The fast paths *)

(** X14.  A run of [main] that ends with exit status 0 by [sys.exit(0)]
    has taken one of the two fast paths: the manifest has exactly two
    partitions, and after [rm] the run started nothing but [dd]: the two
    copies at the fixed blocks 1 and 2 when the output file existed, or,
    when it did not and the prebuilt header for the two sizes exists,
    the header, the two partitions and the header again.  No [sgdisk] and
    no [simg2img] is started, no temporary file is made, and no
    descriptor is opened. *)
Theorem main_exit0_takes_fast_path (h : host) (arg_input arg_output : option string)
    (s s' : state) :
  main h arg_input arg_output s = (Err SystemExit0, s') ->
  let out := output_name h arg_output in
  exists s0 lines p0 p1,
    shell_command h ["rm"; "-rf"; out +:+ ".qcow2"]%string s = (Ok tt, s0)
    /\ readlines (st_fs s0) (config_name arg_input) = Ok lines
    /\ parse_input (st_fs s0) (environ h) lines = Ok [p0; p1]
    /\ ((exists_ (st_fs s0) out = true
         /\ st_trace s' = st_trace s0 ++
              [["dd"; "if=" +:+ path p0; "of=" +:+ out; "conv=notrunc,sync";
                "ibs=1024k"; "obs=1024k"; "seek=1"];
               ["dd"; "if=" +:+ path p1; "of=" +:+ out; "conv=notrunc,sync";
                "ibs=1024k"; "obs=1024k"; "seek=2"]]%string)
        \/ (exists_ (st_fs s0) out = false
            /\ exists_ (st_fs s0) (gpt_head h p0 p1) = true
            /\ exists m0 m1,
                 py_int 10 (sizeByMb p0) = Some m0 /\ py_int 10 (sizeByMb p1) = Some m1
                 /\ st_trace s' = st_trace s0 ++
                      [["dd"; "if=" +:+ gpt_head h p0 p1; "of=" +:+ out; "bs=1024k";
                        "conv=notrunc,sync"; "count=1"];
                       ["dd"; "if=" +:+ path p0; "of=" +:+ out; "bs=1024k";
                        "conv=notrunc,sync"; "seek=1"];
                       ["dd"; "if=" +:+ path p1; "of=" +:+ out; "bs=1024k";
                        "conv=notrunc,sync"; "seek=" +:+ py_str (1 + m0)];
                       ["dd"; "if=" +:+ gpt_head h p0 p1; "of=" +:+ out; "bs=1024k";
                        "conv=notrunc,sync"; "seek=" +:+ py_str (1 + m0 + m1)]]%string))
    /\ st_tmp_made s' = st_tmp_made s
    /\ st_fds s' = st_fds s.
Proof.
  intros H out. unfold main in H. fold out in H.
  apply bind_inv in H as [(u & s0 & Hrm & H) | (e & H1 & [= <-])];
    [|exfalso; eapply (never_shell_command SystemExit0); [left; reflexivity | exact H1]].
  destruct u. pose proof (shell_command_frame _ _ _ _ _ Hrm) as (_ & _ & Hfds0 & Hmade0).
  apply bind_inv in H as [(a & s2 & H2 & H) | (e & H2 & [= <-])];
    [|unfold with_fs in H2; discriminate].
  apply with_fs_ok in H2 as [-> _].
  destruct (negb a); [discriminate |].
  apply bind_inv in H as [(lines & s2 & H2 & H) | (e & H2 & [= <-])].
  2:{ exfalso. unfold with_fs in H2. injection H2 as H2 _.
      eapply readlines_quiet. exact H2. }
  apply with_fs_ok in H2 as [-> Hlines].
  apply bind_inv in H as [(parts & s2 & H2 & H) | (e & H2 & [= <-])].
  2:{ exfalso. unfold with_fs in H2. injection H2 as H2 _.
      eapply parse_input_quiet. exact H2. }
  apply with_fs_ok in H2 as [-> Hparts].
  unfold compose in H.
  apply bind_inv in H as [(out_exists & s2 & H2 & H) | (e & H2 & [= <-])];
    [|unfold with_fs in H2; discriminate].
  apply with_fs_ok in H2 as [-> [= Hout]].
  assert (never SystemExit0 (do_ general_path h out parts; ret tt)) as Hgen.
  { apply never_bind; [apply quiet_general_path | intros ?; apply never_ret]. }
  destruct parts as [|p0 [|p1 [|p2 rest]]]; try (exfalso; eapply Hgen; exact H).
  exists s0, lines, p0, p1. split; [exact Hrm |]. split; [exact Hlines |].
  split; [exact Hparts |]. rewrite <- Hmade0, <- Hfds0.
  destruct out_exists.
  - unfold shortcut_path in H.
    fast_step H u1 s1 Hcopy0. fast_step H u2 s2 Hcopy1. unfold raise in H. injection H as <-.
    apply shell_command_frame in Hcopy0 as (Ht1 & _ & Hf1 & Hm1).
    apply shell_command_frame in Hcopy1 as (Ht2 & _ & Hf2 & Hm2).
    split; [|split; congruence]. left. split; [auto |].
    rewrite Ht2, Ht1, <- app_assoc. reflexivity.
  - apply bind_inv in H as [(templates & s2 & H2 & H) | (e & H2 & [= <-])];
      [|unfold with_fs in H2; discriminate].
    apply with_fs_ok in H2 as [-> [= Htemplates]].
    apply bind_inv in H as [(u & s1 & H1 & H) | (e & H1 & [= <-])];
      [exfalso; eapply Hgen; exact H |].
    destruct templates; [|discriminate].
    apply andb_true_iff in Htemplates as [Hhead _].
    unfold template_path in H1.
    fast_step H1 u1 s1 Hc1. fast_step H1 u2 s2 Hc2. fast_step H1 m0 s3 Hm0.
    fast_step H1 u4 s4 Hc4. fast_step H1 m0' s5 Hm0'. fast_step H1 m1 s6 Hm1.
    fast_step H1 u7 s7 Hc7. unfold raise in H1. injection H1 as <-.
    apply size_mb_ok in Hm0 as [Hm0 ->], Hm0' as [Hm0' ->], Hm1 as [Hm1 ->].
    rewrite Hm0 in Hm0'. injection Hm0' as <-.
    apply shell_command_frame in Hc1 as (Ht1 & _ & Hf1 & Hd1).
    apply shell_command_frame in Hc2 as (Ht2 & _ & Hf2 & Hd2).
    apply shell_command_frame in Hc4 as (Ht4 & _ & Hf4 & Hd4).
    apply shell_command_frame in Hc7 as (Ht7 & _ & Hf7 & Hd7).
    split; [|split; congruence]. right. split; [auto |]. split; [exact Hhead |].
    exists m0, m1. split; [exact Hm0 |]. split; [exact Hm1 |].
    rewrite Ht7, Ht4, Ht2, Ht1, <- !app_assoc. reflexivity.
Qed.

Lemma main_exit0_takes_fast_path_witness :
  exists s' p0 p1,
    main demo_host None None rerun_state = (Err SystemExit0, s')
    /\ st_trace s' = [["rm"; "-rf"; "/out/combined.img.qcow2"]] ++
         [["dd"; "if=" +:+ path p0; "of=/out/combined.img"; "conv=notrunc,sync";
           "ibs=1024k"; "obs=1024k"; "seek=1"];
          ["dd"; "if=" +:+ path p1; "of=/out/combined.img"; "conv=notrunc,sync";
           "ibs=1024k"; "obs=1024k"; "seek=2"]]%string.
Proof.
  assert (fst (main demo_host None None rerun_state) = Err SystemExit0) as Hrun
    by (vm_compute; reflexivity).
  apply run_pair in Hrun. revert Hrun.
  generalize (snd (main demo_host None None rerun_state)). intros s' Hrun.
  destruct (main_exit0_takes_fast_path _ _ _ _ _ Hrun)
    as (s0 & lines & p0 & p1 & Hrm & _ & _ & Hpath & _).
  pose proof (shell_command_frame _ _ _ _ _ Hrm) as (Ht0 & _).
  exists s', p0, p1. split; [exact Hrun |].
  destruct Hpath as [(_ & Ht) | (Hno & _)].
  - rewrite Ht, Ht0. reflexivity.
  - exfalso.
    apply (shell_rm_ok demo_host _ _ _ _ (proj1 (proj2 demo_host_standard))) in Hrm
      as [Hfs0 _].
    rewrite Hfs0 in Hno.
    match type of Hno with
    | ?l = false => assert (l = true) as E by (vm_compute; reflexivity)
    end.
    congruence.
Defined.

(** ** The first steps of main *)

(** X15.  [main] removes [<output>.qcow2] before it looks for the
    manifest: when there is no manifest file under the name given (or
    when that name is the very file just removed), the run ends with the
    message [Invalid config file name <name>], having started [rm] and
    nothing else; the file [<output>.qcow2] is gone and every other file
    is as it was. *)
Theorem main_missing_config (h : host) (arg_input arg_output : option string) (s : state) :
  let out := output_name h arg_output in
  let config := config_name arg_input in
  let rm := ["rm"; "-rf"; out +:+ ".qcow2"]%string in
  programs h !! "rm"%string = Some ToolRm ->
  faulty h rm = false ->
  st_fs s !! config = None \/ config = (out +:+ ".qcow2")%string ->
  main h arg_input arg_output s
  = (Err (InvalidConfigFile config),
     State (delete (out +:+ ".qcow2")%string (st_fs s)) (st_tmp_names s) (st_fds s)
           (st_trace s ++ [rm]) (st_tmp_made s))
  /\ exit_message (InvalidConfigFile config)
     = Some ("Invalid config file name " +:+ config)%string.
Proof.
  intros out config rm Hrm Hfaulty Hconfig. split; [|reflexivity].
  assert (shell_command h rm s
          = (Ok tt, State (delete (out +:+ ".qcow2")%string (st_fs s)) (st_tmp_names s)
                          (st_fds s) (st_trace s ++ [rm]) (st_tmp_made s))) as Hrun.
  { unfold rm in *. unfold shell_command. rewrite Hrm, Hfaulty. reflexivity. }
  assert (exists_ (delete (out +:+ ".qcow2")%string (st_fs s)) config = false) as Hno.
  { unfold exists_. destruct Hconfig as [Hnone | ->].
    - destruct (decide (config = (out +:+ ".qcow2")%string)) as [-> | Hne].
      + now rewrite lookup_delete_eq.
      + now rewrite lookup_delete_ne, Hnone by congruence.
    - now rewrite lookup_delete_eq. }
  unfold main. fold out config rm. unfold bind at 1. rewrite Hrun.
  unfold bind at 1, with_fs. cbn [st_fs]. rewrite Hno. reflexivity.
Qed.

Lemma main_missing_config_witness :
  fst (main demo_host (Some "no_such_file"%string) None demo_state)
  = Err (InvalidConfigFile "no_such_file").
Proof.
  destruct (main_missing_config demo_host (Some "no_such_file"%string) None demo_state)
    as [Hrun _]; [reflexivity | reflexivity | left; reflexivity |].
  rewrite Hrun. reflexivity.
Defined.

Lemma expand_scan_dollar_free (environ : gmap string string) (s : string) :
  dollar_free s = true -> expand_scan environ XPlain s = s.
Proof.
  induction s as [|c s IH]; cbn [dollar_free expand_scan]; [reflexivity |].
  destruct (Ascii.eqb c "$"); cbn [negb andb]; [discriminate |].
  intros H. now rewrite IH.
Qed.

Lemma dollar_free_app (a b : string) :
  dollar_free (a +:+ b) = dollar_free a && dollar_free b.
Proof.
  induction a as [|c a IH]; simpl; [reflexivity |]. now rewrite IH, andb_assoc.
Qed.

(** X16.  The name of the output file: an [-o] argument without a dollar
    sign is used as it is; without [-o] the name is [./combined.img] when
    [OUT] is not set, and [<OUT>/combined.img] when it is (and holds no
    dollar sign itself: the default is expanded like an argument). *)
Theorem output_name_cases (h : host) :
  (forall name, dollar_free name = true -> output_name h (Some name) = name)
  /\ (environ h !! "OUT"%string = None -> output_name h None = "./combined.img"%string)
  /\ (forall dir, environ h !! "OUT"%string = Some dir -> dollar_free dir = true ->
                  output_name h None = (dir +:+ "/combined.img")%string).
Proof.
  unfold output_name, expandvars. split; [|split].
  - intros name Hname. cbn [default]. apply expand_scan_dollar_free. exact Hname.
  - intros ->. reflexivity.
  - intros dir -> Hdir. cbn [default]. apply expand_scan_dollar_free.
    rewrite dollar_free_app, Hdir. reflexivity.
Qed.

(** ** write_partition and unsparse_partition on their own *)



(** X18.  The three ways a call of [unsparse_partition] ends on a source
    that exists, on a host where the name from the environment starts
    [simg2img].  When no temporary file can be made nothing has changed.
    Otherwise one temporary file was made and its descriptor is open; on
    success the file holds what [simg2img] decodes the source to, the
    dictionary has [fd] set and [path] switched to the temporary file,
    and every other file, the source included, is as it was; when
    [simg2img] fails the temporary file stays behind, empty, with its
    descriptor open. *)
Theorem unsparse_partition_outcomes (h : host) (p : partition) (s s' : state)
    (r : result partition) :
  programs h !! simg2img_name h = Some ToolSimg2img ->
  is_Some (st_fs s !! path p) ->
  unsparse_partition h p s = (r, s') ->
  (r = Err FileExistsError /\ s' = s)
  \/ exists d temp,
       st_fs s !! temp = None /\ (d ∉ st_fds s)
       /\ st_fds s' = d :: st_fds s
       /\ st_tmp_made s' = st_tmp_made s ++ [(d, temp)]
       /\ st_trace s' = st_trace s ++ [[simg2img_name h; path p; temp]]
       /\ ((exists src raw,
              r = Ok (set_path temp (set_fd d p))
              /\ st_fs s !! path p = Some src /\ sparse_decode h src = Some raw
              /\ st_fs s' = <[temp := raw]> (st_fs s))
           \/ (r = Err (CalledProcessError [simg2img_name h; path p; temp])
               /\ st_fs s' = <[temp := empty_file]> (st_fs s))).
Proof.
  intros Htool [src Hsrc] H. unfold unsparse_partition in H.
  apply bind_inv in H as [([d temp] & s1 & Hmk & H) | (e & Hmk & ->)].
  - right. apply mkstemp_ok in Hmk as (Hfresh & Hd & Hs1). cbn [fst snd set_fd path] in H.
    exists d, temp. split; [exact Hfresh |]. split; [exact Hd |].
    assert (path p <> temp) as Hne by congruence.
    apply bind_inv in H as [(u & s2 & Hrun & H) | (e & Hrun & ->)].
    + unfold ret in H. injection H as <- <-.
      apply shell_command_ok in Hrun
        as (prog & args & t & fs' & [= <- <-] & Hp & Hrun & ->).
      rewrite Htool in Hp. injection Hp as <-. rewrite Hs1 in Hrun |- *.
      cbn [run_tool run_simg2img st_fs st_fds st_tmp_made st_trace] in Hrun |- *.
      rewrite lookup_insert_ne, Hsrc in Hrun by congruence.
      destruct (sparse_decode h src) as [raw|] eqn:Eraw; [|discriminate].
      injection Hrun as <-. rewrite insert_insert_eq.
      repeat (split; [reflexivity |]). left. exists src, raw. auto.
    + pose proof (shell_command_frame _ _ _ _ _ Hrun) as (Ht & _ & Hfds & Hmade).
      rewrite Hs1 in Ht, Hfds, Hmade. cbn [st_fds st_tmp_made st_trace] in Ht, Hfds, Hmade.
      split; [exact Hfds |]. split; [exact Hmade |]. split; [exact Ht |]. right.
      revert Hrun. unfold shell_command. rewrite Htool.
      destruct (faulty h _).
      * intros [= <- <-]. rewrite Hs1. auto.
      * destruct (run_tool h _ _ _); [discriminate |]. intros [= <- <-]. rewrite Hs1. auto.
  - left. revert Hmk. unfold mkstemp.
    destruct (pick_tmp _ _) as [[name rest]|]; [discriminate |]. intros [= <- <-]. auto.
Qed.

Lemma unsparse_partition_outcomes_witness :
  exists s' d temp,
    unsparse_partition demo_host demo_system demo_state
    = (Ok (set_path temp (set_fd d demo_system)), s')
    /\ st_tmp_made s' = [(d, temp)].
Proof.
  destruct (unsparse_partition demo_host demo_system demo_state) as [r s'] eqn:Hrun.
  assert (fst (unsparse_partition demo_host demo_system demo_state)
          = Ok (Partition "/tmp/tmp1" "system" "1" 1 None None (Some 3%nat))) as Hfst
    by (vm_compute; reflexivity).
  rewrite Hrun in Hfst. cbn [fst] in Hfst.
  destruct (unsparse_partition_outcomes demo_host demo_system demo_state s' r
              eq_refl ltac:(eexists; reflexivity) Hrun)
    as [[-> _] | (d & temp & _ & _ & _ & Hmade & _ & [(src & raw & -> & _) | [-> _]])];
    try discriminate.
  exists s', d, temp. split; [reflexivity |]. exact Hmade.
Defined.

(** ** Runs that go through *)

Lemma bind_run {A B} (m : M A) (k : A -> M B) (s s1 : state) (a : A) :
  m s = (Ok a, s1) -> bind m k s = k a s1.
Proof. intros H. unfold bind. now rewrite H. Qed.

(** A program that is installed, does not fail for a reason of its own,
    and whose work is defined, exits with status 0. *)
Lemma shell_command_runs (h : host) (prog : string) (args : list string) (t : tool)
    (fs' : gmap string file) (s : state) :
  programs h !! prog = Some t ->
  faulty h (prog :: args) = false ->
  run_tool h t (st_fs s) args = Some fs' ->
  shell_command h (prog :: args) s
  = (Ok tt, State fs' (st_tmp_names s) (st_fds s) (st_trace s ++ [prog :: args])
                  (st_tmp_made s)).
Proof.
  intros Hp Hf Hrun. unfold shell_command. rewrite Hp, Hf. cbn [log_command st_fs].
  rewrite Hrun. reflexivity.
Qed.


Lemma run_dd_pad_first_runs (fs : gmap string file) (out : string) :
  out <> "/dev/zero"%string ->
  run_dd fs ["if=/dev/zero"; "of=" +:+ out; "ibs=1024k"; "count=1"]%string
  = Some (<[out := dd_output (default empty_file (fs !! out)) false 0 MiB (fun _ => x00)]>
            fs).
Proof.
  intros Hne. unfold run_dd, dd_input.
  change (block_size "ibs" _) with (Some MiB). change (block_size "obs" _) with (Some 512%N).
  change (opt_num "count" _) with (Some (Some 1%N)).
  change (opt_num "seek" _) with (@Some (option N) None).
  change (operand "of" _) with (Some out).
  change (operand "if" _) with (Some "/dev/zero"%string).
  change ((MiB =? 0) || (512 =? 0))%N with false. cbv iota.
  destruct (bool_decide_reflect (Some "/dev/zero"%string = Some out)) as [E | _];
    [congruence |].
  change (String.eqb "/dev/zero" "/dev/zero") with true. cbv iota.
  change (has_conv "notrunc" _) with false. reflexivity.
Qed.

Lemma run_dd_pad_last_runs (fs : gmap string file) (out : string) (k : Z) :
  0 <= k -> out <> "/dev/zero"%string ->
  run_dd fs ["if=/dev/zero"; "of=" +:+ out; "conv=notrunc"; "bs=1024k"; "count=1";
             "seek=" +:+ py_str k]%string
  = Some (<[out := dd_output (default empty_file (fs !! out)) true (Z.to_N k * MiB) MiB
                             (fun _ => x00)]> fs).
Proof.
  intros Hk Hne. unfold run_dd, dd_input.
  change (block_size "ibs" _) with (Some MiB). change (block_size "obs" _) with (Some MiB).
  change (opt_num "count" _) with (Some (Some 1%N)).
  match goal with
  | |- context [opt_num "seek" ?a] =>
      rewrite (opt_num_py_str "seek" a k (eq_refl (Some (py_str k))) Hk)
  end.
  change (operand "of" _) with (Some out).
  change (operand "if" _) with (Some "/dev/zero"%string).
  change ((MiB =? 0) || (MiB =? 0))%N with false. cbv iota.
  destruct (bool_decide_reflect (Some "/dev/zero"%string = Some out)) as [E | _];
    [congruence |].
  change (String.eqb "/dev/zero" "/dev/zero") with true. cbv iota.
  change (has_conv "notrunc" _) with true. reflexivity.
Qed.










(** ** The fields of a directive *)

Lemma no_space_app (a b : string) : no_space (a +:+ b) = no_space a && no_space b.
Proof. induction a as [|c a IH]; simpl; [reflexivity |]. now rewrite IH, andb_assoc. Qed.

(** The tokens [split()] cuts are not empty and hold no white space. *)
Lemma split_loop_tokens (s tok : string) :
  no_space tok = true ->
  Forall (fun t => t <> EmptyString /\ no_space t = true) (split_loop tok s).
Proof.
  revert tok; induction s as [|c s IH]; intros tok Htok; cbn [split_loop].
  - destruct tok; [constructor |]. repeat constructor; [discriminate | exact Htok].
  - destruct (py_isspace c) eqn:Hc.
    + destruct tok; [apply IH; reflexivity |].
      constructor; [split; [discriminate | exact Htok] | apply IH; reflexivity].
    + apply IH. rewrite no_space_app, Htok. cbn [no_space]. now rewrite Hc.
Qed.

(** X20.  Every directive the first loop keeps has exactly three fields,
    none of them empty and none with white space in it; so the [path] and
    the [label] of every descriptor [parse_input] returns are such texts
    (a source file whose name holds a blank cannot be named in a
    manifest). *)
Theorem directive_fields (environ : gmap string string) (lines : list string) :
  Forall (fun line => length line = 3%nat
                      /\ Forall (fun t => t <> EmptyString /\ no_space t = true) line)
         (parsed_lines environ lines)
  /\ forall fs parts p,
       parse_input fs environ lines = Ok parts -> p ∈ parts ->
       (path p <> EmptyString /\ no_space (path p) = true)
       /\ (label p <> EmptyString /\ no_space (label p) = true).
Proof.
  assert (Forall (fun line => length line = 3%nat
                      /\ Forall (fun t => t <> EmptyString /\ no_space t = true) line)
                 (parsed_lines environ lines)) as Hall.
  { apply Forall_forall. intros line Hin.
    apply list_elem_of_omap in Hin as (l & _ & Hd).
    apply directive_tokens in Hd as [-> Hlen]. split; [exact Hlen |].
    apply split_loop_tokens. reflexivity. }
  split; [exact Hall |]. intros fs parts p Hparse Hp.
  apply parse_input_sorted in Hparse as (Hperm & _). rewrite Hperm in Hp.
  apply list_elem_of_omap in Hp as (line & Hline & Hd).
  rewrite Forall_forall in Hall. destruct (Hall line Hline) as [_ Hfields].
  destruct (parsed_lines_three _ _ _ Hline) as (l0 & l1 & l2 & ->).
  unfold descriptor in Hd. destruct (fs !! l0); [|discriminate].
  destruct (py_int 10 l2); [|discriminate]. injection Hd as <-. cbn [path label].
  apply Forall_cons in Hfields as [H0 Hfields]. apply Forall_cons in Hfields as [H1 _].
  auto.
Qed.

(** ** Subscripts that cannot fail *)

Lemma never_after {A B} (e : exn) (m : M A) (k : A -> M B) :
  never e m -> (forall s a s', m s = (Ok a, s') -> never e (k a)) -> never e (bind m k).
Proof.
  intros Hm Hk s s' H. apply bind_inv in H as [(a & s1 & H1 & H2) | (e' & H1 & [= <-])].
  - eapply Hk; [exact H1 | exact H2].
  - eapply Hm. exact H1.
Qed.

Lemma never_for_each_on {A B} (e : exn) (body : A -> M B) (l : list A) :
  Forall (fun a => never e (body a)) l -> never e (for_each body l).
Proof.
  induction 1 as [|a l Ha Hl IH]; cbn [for_each]; [apply never_ret |].
  apply never_bind; [exact Ha |]. intros b.
  apply never_bind; [exact IH |]. intros bs. apply never_ret.
Qed.

Lemma never_lookup_shell_command (e : exn) (h : host) (prog : string) (args : list string) :
  lookup_error e -> never e (shell_command h (prog :: args)).
Proof.
  intros He s s'. unfold shell_command.
  destruct (programs h !! prog); [|destruct He as [-> | [key ->]]; discriminate].
  destruct (faulty h _); [destruct He as [-> | [key ->]]; discriminate |].
  destruct (run_tool h _ _ _); destruct He as [-> | [key ->]]; discriminate.
Qed.

Lemma never_lookup_raise {A} (e e' : exn) :
  lookup_error e -> ~ lookup_error e' -> never e (@raise A e').
Proof. intros He He' s s' [= <- _]. contradiction. Qed.

Lemma parse_input_no_lookup_error (e : exn) (fs : gmap string file)
    (environ : gmap string string) (lines : list string) :
  lookup_error e -> parse_input fs environ lines <> Err e.
Proof.
  intros He H. apply parse_input_first_failure in H
    as (pre & l0 & l1 & l2 & post & _ & _ & H).
  apply add_directive_err in H
    as [[_ ->] | [_ [[_ ->] | (m & _ & [[_ ->] | (_ & _ & ->)])]]];
    destruct He as [[=] | [key [=]]].
Qed.

(** Discharges [never e] for the steps that are not program starts. *)
Ltac never_lookup He :=
  repeat first
    [ apply never_ret
    | apply never_bind; [|intros ?]
    | apply never_lookup_shell_command; exact He
    | apply never_with_fs; intros ?;
      first [ apply parse_input_no_lookup_error; exact He
            | unfold getsize, check_sparse, readlines;
              repeat match goal with |- context [match ?x with _ => _ end] => destruct x end;
              destruct He as [-> | [? ->]]; discriminate ]
    | apply never_lookup_raise; [exact He | intros [[=] | [? [=]]]]
    | (intros ? ?; unfold mkstemp; destruct (pick_tmp _ _) as [[? ?]|];
       destruct He as [-> | [? ->]]; discriminate)
    | (intros ? ?; unfold os_close; destruct (bool_decide _);
       destruct He as [-> | [? ->]]; discriminate)
    | (intros ? ?; unfold os_remove; destruct (exists_ _ _);
       destruct He as [-> | [? ->]]; discriminate) ].

Lemma never_lookup_compose_one (e : exn) (h : host) (out : string) (p : partition) :
  lookup_error e -> never e (compose_one h out p).
Proof.
  intros He.
  unfold compose_one, before_copy, copy_and_close, write_partition, unsparse_partition.
  never_lookup He.
  match goal with b : bool |- _ => destruct b end; never_lookup He.
Qed.

Lemma never_lookup_add_and_clean (e : exn) (h : host) (out : string) (q : partition) :
  lookup_error e -> is_Some (start q) -> is_Some (end_ q) ->
  never e (add_and_clean h out q).
Proof.
  intros He [a Ha] [b Hb]. unfold add_and_clean, add_partition, add_partition_argv.
  rewrite Ha, Hb. cbn [item]. never_lookup He. destruct (fd q); never_lookup He.
Qed.

Lemma compose_loop_bounds (h : host) (out : string) (parts placed : list partition)
    (s s' : state) :
  for_each (compose_one h out) parts s = (Ok placed, s') ->
  Forall (fun q => is_Some (start q) /\ is_Some (end_ q)) placed.
Proof.
  revert s placed; induction parts as [|p rest IH]; intros s placed H.
  - apply for_each_nil_ok in H as [-> _]. constructor.
  - apply for_each_cons_ok in H as (q & qs & s1 & Hp & Hrest & ->).
    apply compose_one_fields in Hp as (_ & _ & _ & Hs & He). constructor; eauto.
Qed.

Lemma never_lookup_general_path (e : exn) (h : host) (out : string)
    (parts : list partition) :
  lookup_error e -> never e (general_path h out parts).
Proof.
  intros He. unfold general_path, clear_partition_table.
  apply never_bind; [never_lookup He | intros ?].
  apply never_after.
  { apply never_for_each. intros p. now apply never_lookup_compose_one. }
  intros s placed s' Hloop. apply compose_loop_bounds in Hloop.
  never_lookup He. apply never_for_each_on.
  eapply Forall_impl; [exact Hloop |]. intros q [Hs Hend].
  now apply never_lookup_add_and_clean.
Qed.

Lemma never_lookup_compose (e : exn) (h : host) (out : string) (parts : list partition) :
  lookup_error e -> never e (compose h out parts).
Proof.
  intros He.
  assert (never e (do_ general_path h out parts; ret tt)) as Hgen.
  { apply never_bind; [now apply never_lookup_general_path | intros ?; apply never_ret]. }
  unfold compose. apply never_bind; [never_lookup He |]. intros out_exists.
  destruct parts as [|p0 [|p1 [|p2 rest]]]; try exact Hgen.
  destruct out_exists.
  - unfold shortcut_path. never_lookup He.
  - apply never_bind; [never_lookup He |]. intros templates.
    apply never_bind; [|intros ?; exact Hgen].
    destruct templates; [|apply never_ret].
    unfold template_path, size_mb. never_lookup He.
    all: destruct (py_int 10 _); never_lookup He.
Qed.

Lemma never_lookup_main (e : exn) (h : host) (arg_input arg_output : option string) :
  lookup_error e -> never e (main h arg_input arg_output).
Proof.
  intros He. unfold main. apply never_bind; [never_lookup He |]. intros u.
  apply never_bind; [never_lookup He |]. intros config_exists.
  destruct (negb config_exists); [never_lookup He |].
  apply never_bind; [never_lookup He |]. intros lines.
  apply never_bind; [never_lookup He |]. intros parts.
  now apply never_lookup_compose.
Qed.

(** X21.  No run of [main] ends in [IndexError] or [KeyError]: the keys
    [start] and [end] are set on every dictionary before the table is
    written, [fd] is read only where it is set, the two fast paths index
    a list of exactly two partitions, every directive that is read has
    its three fields, and no command line is empty. *)
Theorem main_never_lookup_error (h : host) (arg_input arg_output : option string)
    (s s' : state) :
  main h arg_input arg_output s <> (Err IndexError, s')
  /\ forall key, main h arg_input arg_output s <> (Err (KeyError key), s').
Proof.
  split.
  - apply (never_lookup_main IndexError). left. reflexivity.
  - intros key. apply (never_lookup_main (KeyError key)). right. eauto.
Qed.

(** ** A manifest without directives *)

Lemma parsed_lines_ignored (environ : gmap string string) (lines : list string) :
  Forall ignored lines -> parsed_lines environ lines = [].
Proof.
  induction 1 as [|l ls Hl _ IH]; [reflexivity |].
  apply (directive_none_iff environ) in Hl. unfold parsed_lines in *.
  cbn [omap list_omap]. now rewrite Hl.
Qed.

(** X22.  A manifest that holds no directive (it is empty, or all of its
    lines are blank, comments or malformed) is not an error: on a host
    with the usual programs, none of which fails, [main] returns, having
    started four commands: [rm], the two paddings of one MiB each, and
    [sgdisk --clear]; the output image is two MiB long and its table has
    no entry. *)
Theorem main_empty_manifest (h : host) (arg_input arg_output : option string) (s : state)
    (lines : list string) :
  standard_host h ->
  (forall argv, faulty h argv = false) ->
  let out := output_name h arg_output in
  let fs0 := delete (out +:+ ".qcow2")%string (st_fs s) in
  out <> "/dev/zero"%string ->
  readlines fs0 (config_name arg_input) = Ok lines ->
  Forall ignored lines ->
  exists s' img,
    main h arg_input arg_output s = (Ok tt, s')
    /\ st_fs s' !! out = Some img
    /\ fsize img = (2 * MiB)%N
    /\ st_trace s' = st_trace s ++
         [["rm"; "-rf"; out +:+ ".qcow2"];
          ["dd"; "if=/dev/zero"; "of=" +:+ out; "ibs=1024k"; "count=1"];
          ["dd"; "if=/dev/zero"; "of=" +:+ out; "conv=notrunc"; "bs=1024k"; "count=1";
           "seek=1"];
          [sgdisk_name h; "--clear"; out]]%string.
Proof.
  intros (Hdd & Hrmtool & Hsg & _) Hfaulty out fs0 Hzero Hlines Hnone.
  set (rm := ["rm"; "-rf"; out +:+ ".qcow2"]%string).
  set (s0 := State fs0 (st_tmp_names s) (st_fds s) (st_trace s ++ [rm]) (st_tmp_made s)).
  assert (shell_command h rm s = (Ok tt, s0)) as Hrm.
  { refine (shell_command_runs h "rm" _ ToolRm _ s Hrmtool (Hfaulty _) _). reflexivity. }
  assert (exists_ fs0 (config_name arg_input) = true) as Hconfig.
  { unfold readlines in Hlines. unfold exists_.
    destruct (fs0 !! config_name arg_input); [reflexivity | discriminate]. }
  assert (parse_input fs0 (environ h) lines = Ok []) as Hparts.
  { unfold parse_input. rewrite (parsed_lines_ignored _ _ Hnone). reflexivity. }
  set (pad1 := ["dd"; "if=/dev/zero"; "of=" +:+ out; "ibs=1024k"; "count=1"]%string).
  set (fo1 := dd_output (default empty_file (fs0 !! out)) false 0 MiB (fun _ => x00)).
  set (s1 := State (<[out := fo1]> fs0) (st_tmp_names s) (st_fds s)
                   ((st_trace s ++ [rm]) ++ [pad1]) (st_tmp_made s)).
  assert (shell_command h pad1 s0 = (Ok tt, s1)) as Hpad.
  { refine (shell_command_runs h "dd" _ ToolDd _ s0 Hdd (Hfaulty _) _).
    cbn [run_tool s0 st_fs]. now apply run_dd_pad_first_runs. }
  set (pad2 := ["dd"; "if=/dev/zero"; "of=" +:+ out; "conv=notrunc"; "bs=1024k"; "count=1";
                "seek=1"]%string).
  set (img := dd_output fo1 true MiB MiB (fun _ => x00)).
  set (s3 := State (<[out := img]> (<[out := fo1]> fs0)) (st_tmp_names s) (st_fds s)
                   (((st_trace s ++ [rm]) ++ [pad1]) ++ [pad2]) (st_tmp_made s)).
  assert (shell_command h pad2 s1 = (Ok tt, s3)) as Hlast.
  { refine (shell_command_runs h "dd" _ ToolDd _ s1 Hdd (Hfaulty _) _).
    cbn [run_tool s1 st_fs].
    rewrite (run_dd_pad_last_runs _ out 1 ltac:(lia) Hzero), lookup_insert_eq. reflexivity. }
  set (clear := [sgdisk_name h; "--clear"%string; out]).
  set (s4 := State (st_fs s3) (st_tmp_names s) (st_fds s) (st_trace s3 ++ [clear])
                   (st_tmp_made s)).
  assert (shell_command h clear s3 = (Ok tt, s4)) as Hclear.
  { refine (shell_command_runs h (sgdisk_name h) _ ToolSgdisk _ s3 Hsg (Hfaulty _) _).
    cbn [run_tool]. unfold run_sgdisk, exists_. cbn [last s3 st_fs].
    now rewrite lookup_insert_eq. }
  assert (general_path h out [] s0 = (Ok [], s4)) as Hgen.
  { unfold general_path, clear_partition_table. fold pad1.
    rewrite (bind_run _ _ _ _ _ Hpad). cbn [for_each].
    rewrite (bind_run _ _ s1 s1 []) by reflexivity.
    rewrite (bind_run _ _ s1 s1 (Z.of_N MiB))
      by (unfold with_fs, getsize; cbn [s1 st_fs]; now rewrite lookup_insert_eq).
    change (py_str (Z.of_N MiB / 1024 / 1024)) with "1"%string. fold pad2.
    rewrite (bind_run _ _ _ _ _ Hlast). fold clear.
    rewrite (bind_run _ _ _ _ _ Hclear).
    rewrite (bind_run _ _ s4 s4 []) by reflexivity. reflexivity. }
  exists s4, img. split; [|split; [|split]].
  - unfold main. fold out rm. rewrite (bind_run _ _ _ _ _ Hrm).
    rewrite (bind_run _ _ s0 s0 true)
      by (unfold with_fs; cbn [s0 st_fs]; now rewrite Hconfig).
    cbn [negb].
    rewrite (bind_run _ _ s0 s0 lines)
      by (unfold with_fs; cbn [s0 st_fs]; now rewrite Hlines).
    rewrite (bind_run _ _ s0 s0 [])
      by (unfold with_fs; cbn [s0 st_fs]; now rewrite Hparts).
    unfold compose. rewrite (bind_run _ _ s0 s0 (exists_ fs0 out)) by reflexivity.
    cbv iota. rewrite (bind_run _ _ _ _ _ Hgen). reflexivity.
  - cbn [s4 s3 st_fs]. apply lookup_insert_eq.
  - reflexivity.
  - cbn [s4 s3 st_trace]. rewrite <- !app_assoc. reflexivity.
Qed.

Lemma main_empty_manifest_witness :
  exists s' img,
    main demo_host (Some "notes"%string) None comments_state = (Ok tt, s')
    /\ st_fs s' !! "/out/combined.img"%string = Some img
    /\ fsize img = 2097152%N.
Proof.
  destruct (main_empty_manifest demo_host (Some "notes"%string) None comments_state
              [line_of "# nothing to place"; line_of ""; line_of "a.img system"])
    as (s' & img & Hrun & Himg & Hsize & _).
  - exact demo_host_standard.
  - reflexivity.
  - discriminate.
  - vm_compute. reflexivity.
  - apply Forall_cons. split; [right; left; eexists; vm_compute; reflexivity |].
    apply Forall_cons. split; [left; vm_compute; reflexivity |].
    apply Forall_cons. split; [right; right; vm_compute; discriminate |].
    apply Forall_nil_2.
  - exists s', img. auto.
Defined.
